(** * NEXUS scientific calculator (src/script.js): a shallow embedding

    The script keeps its state in module-level variables and reacts to
    button and key events.  Here every handler is a function from state
    to state.  JavaScript strings are sequences of UTF-16 code units,
    JavaScript numbers are IEEE 754 binary64 values (the [spec_float]
    model of the standard library at precision 53).  DOM class toggles,
    animations and the ripple effect are left out; the text contents
    written to the DOM are kept as fields of the state. *)

From Stdlib Require Import String Ascii.
From Stdlib Require Import ZArith NArith PArith List Bool Lia.
From Stdlib Require Import Floats.SpecFloat.
Import ListNotations.

(** ** JavaScript strings *)

Definition char := N.
Bind Scope N_scope with char.
Definition jsstring := list char.

Definition code (a : ascii) : char := N_of_ascii a.

(** [u "abc"] is the JavaScript string made of the given ASCII text. *)
Definition u (s : string) : jsstring := map code (list_ascii_of_string s).

Definition ch_pi : char := 960%N.        (* U+03C0 *)
Definition ch_times : char := 215%N.     (* U+00D7 *)
Definition ch_divide : char := 247%N.    (* U+00F7 *)
Definition ch_minus : char := 8722%N.    (* U+2212 *)
Definition ch_naira : char := 8358%N.    (* U+20A6 *)
Definition ch_euro : char := 8364%N.     (* U+20AC *)
Definition ch_infty : char := 8734%N.    (* U+221E *)
Definition ch_arrow : char := 8594%N.    (* U+2192 *)

Fixpoint str_eqb (a b : jsstring) : bool :=
  match a, b with
  | [], [] => true
  | x :: a', y :: b' => N.eqb x y && str_eqb a' b'
  | _, _ => false
  end.

Definition is_empty (s : jsstring) : bool :=
  match s with [] => true | _ => false end.

(** [s.slice(-1)]: the last code unit as a string, empty on the empty string. *)
Fixpoint slice_last (s : jsstring) : jsstring :=
  match s with
  | [] => []
  | [c] => [c]
  | _ :: s' => slice_last s'
  end.

(** [s.slice(0, -k)] *)
Definition slice_drop_last (k : nat) (s : jsstring) : jsstring :=
  firstn (length s - k) s.

(** [s.slice(1)] *)
Definition slice_from_1 (s : jsstring) : jsstring := tl s.

Fixpoint starts_with (p s : jsstring) : bool :=
  match p, s with
  | [], _ => true
  | x :: p', y :: s' => N.eqb x y && starts_with p' s'
  | _ :: _, [] => false
  end.

Definition includes_char (c : char) (s : jsstring) : bool :=
  existsb (N.eqb c) s.

(** [(s.match(/c/g) || []).length] for a one-character pattern. *)
Definition count_char (c : char) (s : jsstring) : nat :=
  length (filter (N.eqb c) s).

Definition is_digit (c : char) : bool := (48 <=? c)%N && (c <=? 57)%N.
Definition is_letter (c : char) : bool :=
  ((65 <=? c)%N && (c <=? 90)%N) || ((97 <=? c)%N && (c <=? 122)%N).
(** [\w] *)
Definition is_word (c : char) : bool := is_letter c || is_digit c || N.eqb c 95.

(** [\s]: the white space and line terminator code units. *)
Definition is_space (c : char) : bool :=
  ((9 <=? c)%N && (c <=? 13)%N) || N.eqb c 32 || N.eqb c 160 || N.eqb c 5760
  || ((8192 <=? c)%N && (c <=? 8202)%N) || N.eqb c 8232 || N.eqb c 8233
  || N.eqb c 8239 || N.eqb c 8287 || N.eqb c 12288 || N.eqb c 65279.

(** [s.replace(/pat/g, rep)] for a literal, non-empty pattern: matches are
    taken leftmost first and do not overlap.  [skip] counts the code units
    of a match still to be passed over. *)
Fixpoint replace_all_from (pat rep : jsstring) (skip : nat) (s : jsstring)
  : jsstring :=
  match s with
  | [] => []
  | c :: rest =>
      match skip with
      | S k => replace_all_from pat rep k rest
      | O =>
          if starts_with pat s
          then rep ++ replace_all_from pat rep (length pat - 1) rest
          else c :: replace_all_from pat rep 0 rest
      end
  end.

Definition replace_all (pat rep s : jsstring) : jsstring :=
  replace_all_from pat rep 0 s.

(** [s.replace(/c/g, rep)] for a single code unit. *)
Definition replace_char (c : char) (rep : jsstring) (s : jsstring) : jsstring :=
  flat_map (fun x => if N.eqb x c then rep else [x]) s.

(** The last element of [s.split(/[\+\-\*\/\(\)]/)]: the text after the
    last separator. *)
Definition is_segment_sep (c : char) : bool :=
  existsb (N.eqb c) (u "+-*/()").

Fixpoint last_segment_from (acc s : jsstring) : jsstring :=
  match s with
  | [] => acc
  | c :: rest =>
      if is_segment_sep c then last_segment_from [] rest
      else last_segment_from (acc ++ [c]) rest
  end.

Definition last_segment (s : jsstring) : jsstring := last_segment_from [] s.

(** Decimal digits of a natural number, most significant first. *)
Fixpoint digits_fuel (fuel : nat) (n : N) (acc : jsstring) : jsstring :=
  match fuel with
  | O => acc
  | S f =>
      let acc' := (48 + n mod 10)%N :: acc in
      if (n / 10 =? 0)%N then acc' else digits_fuel f (n / 10)%N acc'
  end.

Definition digits_of_N (n : N) : jsstring :=
  digits_fuel (S (N.to_nat (N.log2 n))) n [].

Definition digits_of_Z (z : Z) : jsstring := digits_of_N (Z.to_N (Z.abs z)).

(** Value of a run of decimal digits. *)
Definition value_of_digits (s : jsstring) : N :=
  fold_left (fun acc c => (10 * acc + (c - 48))%N) s 0%N.

(** [n] digits, padded on the left with zeros. *)
Definition pad_left_zeros (n : nat) (s : jsstring) : jsstring :=
  repeat 48%N (n - length s) ++ s.


(** ** JavaScript numbers: IEEE 754 binary64 *)

Definition prec : Z := 53.
Definition emax : Z := 1024.

Definition number := spec_float.

Definition NaN : number := S754_nan.
Definition Infinity : number := S754_infinity false.
Definition num_add : number -> number -> number := SFadd prec emax.
Definition num_sub : number -> number -> number := SFsub prec emax.
Definition num_mul : number -> number -> number := SFmul prec emax.
Definition num_div : number -> number -> number := SFdiv prec emax.
Definition num_neg : number -> number := SFopp.
Definition num_ltb : number -> number -> bool := SFltb.
Definition num_leb : number -> number -> bool := SFleb.
Definition num_eqb : number -> number -> bool := SFeqb.

(** The double nearest to an integer (ties to even). *)
Definition num_of_Z (z : Z) : number := binary_normalize prec emax z 0 false.

(** The double nearest to the fraction [n / d] (ties to even): the
    division algorithm of the floating-point specification run on the two
    integers. *)
Definition num_of_ratio (n : Z) (d : positive) : number :=
  match n with
  | Z0 => S754_zero false
  | Zpos m => SFdiv prec emax (S754_finite false m 0) (S754_finite false d 0)
  | Zneg m => SFdiv prec emax (S754_finite true m 0) (S754_finite false d 0)
  end.

(** The double nearest to [c * 10^q]. *)
Definition num_of_decimal (c : Z) (q : Z) : number :=
  if (0 <=? q)%Z then num_of_Z (c * 10 ^ q)
  else num_of_ratio c (Z.to_pos (10 ^ (- q))).

Definition isNaN (x : number) : bool :=
  match x with S754_nan => true | _ => false end.

Definition isFinite (x : number) : bool :=
  match x with S754_nan | S754_infinity _ => false | _ => true end.

Definition is_negative (x : number) : bool :=
  match x with
  | S754_zero s | S754_infinity s | S754_finite s _ _ => s
  | S754_nan => false
  end.

(** The exact value of a finite double as a fraction [num / den]. *)
Definition exact_num (x : number) : Z :=
  match x with
  | S754_finite s m e =>
      let a := if (0 <=? e)%Z then (Zpos m * 2 ^ e)%Z else Zpos m in
      if s then (- a)%Z else a
  | _ => 0%Z
  end.

Definition exact_den (x : number) : Z :=
  match x with
  | S754_finite _ _ e => if (0 <=? e)%Z then 1%Z else (2 ^ (- e))%Z
  | _ => 1%Z
  end.

(** The integer a double is equal to, when there is one. *)
Definition to_integer (x : number) : option Z :=
  match x with
  | S754_zero _ => Some 0%Z
  | S754_finite _ _ _ =>
      if (exact_num x mod exact_den x =? 0)%Z
      then Some (exact_num x / exact_den x)%Z else None
  | _ => None
  end.

Definition Number_isInteger (x : number) : bool :=
  match to_integer x with Some _ => true | None => false end.

Definition Math_abs : number -> number := SFabs.

(** [Math.round]: the nearest integer, halves towards +Infinity; a result
    of zero keeps the sign of the argument. *)
Definition Math_round (x : number) : number :=
  match x with
  | S754_finite s m e =>
      if (0 <=? e)%Z then x
      else
        let k := ((2 * exact_num x + exact_den x) / (2 * exact_den x))%Z in
        if (k =? 0)%Z then S754_zero s else num_of_Z k
  | _ => x
  end.

(** *** Decimal renderings *)

(** [floor (num/den * 10^p)] for [den > 0]. *)
Definition floor_scaled (num den p : Z) : Z :=
  if (0 <=? p)%Z then (num * 10 ^ p / den)%Z
  else (num / (den * 10 ^ (- p)))%Z.

(** [num/den * 10^p] rounded to the nearest integer, halves upwards. *)
Definition round_scaled (num den p : Z) : Z :=
  if (0 <=? p)%Z then ((2 * num * 10 ^ p + den) / (2 * den))%Z
  else ((2 * num + den * 10 ^ (- p)) / (2 * (den * 10 ^ (- p))))%Z.

(** For [0 < num/den < 1]: the least [j >= 1] with [num * 10^j >= den]. *)
Fixpoint first_digit_place (fuel : nat) (num den : Z) (j : Z) : Z :=
  match fuel with
  | O => j
  | S f =>
      if (den <=? num * 10 ^ j)%Z then j
      else first_digit_place f num den (j + 1)%Z
  end.

(** The decimal exponent [e] of a positive fraction:
    [10^e <= num/den < 10^(e+1)]. *)
Definition decimal_exponent (num den : Z) : Z :=
  if (den <=? num)%Z
  then Z.of_nat (length (digits_of_Z (num / den))) - 1
  else - first_digit_place 400 num den 1.

Definition zeros (n : nat) : jsstring := repeat 48%N n.

Definition exponent_suffix (e : Z) : jsstring :=
  u "e" ++ (if (e <? 0)%Z then u "-" else u "+") ++ digits_of_Z e.

(** The digit string [ds] written as [d.ddd] (or [d] alone). *)
Definition point_after_first (ds : jsstring) : jsstring :=
  match ds with
  | [] => []
  | [d] => [d]
  | d :: rest => d :: u "." ++ rest
  end.

(** The decimal [c * 10^q] reads back as the double [x]. *)
Definition roundtrips (x : number) (c q : Z) : bool :=
  match SFcompare (num_of_decimal c q) x with
  | Some Eq => true
  | _ => false
  end.

(** The digits of a candidate [c] of [k] digits at decimal exponent [e];
    the candidate [10^k] is written [1] at the next exponent. *)
Definition pick_digits (k e c : Z) : jsstring * Z :=
  if (c =? 10 ^ k)%Z then (u "1", (e + 1)%Z) else (digits_of_Z c, e).

(** Twice the distance of [num/den * 10^p] from the integer [lo] below
    it, compared with 1. *)
Definition twice_fraction (num den p lo : Z) : comparison :=
  if (0 <=? p)%Z then (2 * (num * 10 ^ p - lo * den) ?= den)%Z
  else (2 * (num - lo * (den * 10 ^ (- p))) ?= den * 10 ^ (- p))%Z.

(** Shortest digits that read back as [x] (a positive finite double whose
    exact value is [num/den] with decimal exponent [e]): tries 1, 2, ...
    significant digits; [k] is the count being tried.  Of two candidates
    that read back the nearer one is taken, the even one on a tie.  The
    result is the digit string and the decimal exponent of its first
    digit. *)
Fixpoint shortest_digits (fuel : nat) (x : number) (num den e : Z) (k : Z)
  : jsstring * Z :=
  match fuel with
  | O => pick_digits k e (round_scaled num den (k - 1 - e))
  | S f =>
      let p := (k - 1 - e)%Z in
      let lo := floor_scaled num den p in
      let hi := (lo + 1)%Z in
      match roundtrips x lo (- p), roundtrips x hi (- p) with
      | true, false => pick_digits k e lo
      | false, true => pick_digits k e hi
      | true, true =>
          match twice_fraction num den p lo with
          | Lt => pick_digits k e lo
          | Gt => pick_digits k e hi
          | Eq => if Z.even lo then pick_digits k e lo else pick_digits k e hi
          end
      | false, false => shortest_digits f x num den e (k + 1)%Z
      end
  end.

(** [Number::toString] on digits [ds] whose first digit has decimal
    exponent [e] (the [n] of the language specification is [e + 1]). *)
Definition format_shortest (ds : jsstring) (e : Z) : jsstring :=
  let k := Z.of_nat (length ds) in
  let n := (e + 1)%Z in
  if ((k <=? n) && (n <=? 21))%Z then ds ++ zeros (Z.to_nat (n - k))
  else if ((0 <? n) && (n <=? 21))%Z
       then firstn (Z.to_nat n) ds ++ u "." ++ skipn (Z.to_nat n) ds
  else if ((-6 <? n) && (n <=? 0))%Z
       then u "0." ++ zeros (Z.to_nat (- n)) ++ ds
  else point_after_first ds ++ exponent_suffix e.

(** The shortest decimal of a finite non-zero double, sign apart. *)
Definition shortest_decimal (x : number) : jsstring * Z :=
  let a := Math_abs x in
  let num := exact_num a in
  let den := exact_den a in
  shortest_digits 17 a num den (decimal_exponent num den) 1.

(** [String(x)] *)
Definition Number_toString (x : number) : jsstring :=
  match x with
  | S754_nan => u "NaN"
  | S754_zero _ => u "0"
  | S754_infinity s => (if s then u "-" else []) ++ u "Infinity"
  | S754_finite s _ _ =>
      let '(ds, e) := shortest_decimal x in
      (if s then u "-" else []) ++ format_shortest ds e
  end.

(** [f + 1] significant digits of a positive fraction, halves upwards:
    the digit string and the decimal exponent of its first digit. *)
Definition rounded_digits (num den : Z) (f : Z) : jsstring * Z :=
  let e := decimal_exponent num den in
  let n := round_scaled num den (f - e) in
  if (10 ^ (f + 1) <=? n)%Z then (digits_of_Z (10 ^ f), (e + 1)%Z)
  else (digits_of_Z n, e).

(** [x.toExponential(f)] *)
Definition toExponential (f : nat) (x : number) : jsstring :=
  match x with
  | S754_nan => u "NaN"
  | S754_infinity s => (if s then u "-" else []) ++ u "Infinity"
  | S754_zero _ => point_after_first (zeros (S f)) ++ u "e+0"
  | S754_finite s _ _ =>
      let a := Math_abs x in
      let '(ds, e) := rounded_digits (exact_num a) (exact_den a) (Z.of_nat f) in
      (if s then u "-" else []) ++ point_after_first ds ++ exponent_suffix e
  end.

(** [x.toPrecision(p)] for [p >= 2] *)
Definition toPrecision (p : nat) (x : number) : jsstring :=
  match x with
  | S754_nan => u "NaN"
  | S754_infinity s => (if s then u "-" else []) ++ u "Infinity"
  | S754_zero _ => point_after_first (zeros p)
  | S754_finite s _ _ =>
      let a := Math_abs x in
      let '(ds, e) :=
        rounded_digits (exact_num a) (exact_den a) (Z.of_nat p - 1) in
      (if s then u "-" else []) ++
      (if ((e <? -6) || (Z.of_nat p <=? e))%Z
       then point_after_first ds ++ exponent_suffix e
       else if (e =? Z.of_nat p - 1)%Z then ds
       else if (0 <=? e)%Z
            then firstn (Z.to_nat (e + 1)) ds ++ u "." ++
                 skipn (Z.to_nat (e + 1)) ds
       else u "0." ++ zeros (Z.to_nat (- (e + 1))) ++ ds)
  end.

(** [parseFloat]: leading white space, an optional sign, then the longest
    prefix that reads as [Infinity] or as a decimal literal. *)
Fixpoint skip_spaces (s : jsstring) : jsstring :=
  match s with
  | c :: rest => if is_space c then skip_spaces rest else s
  | [] => []
  end.

Fixpoint take_digits (s : jsstring) : jsstring * jsstring :=
  match s with
  | c :: rest =>
      if is_digit c
      then let '(ds, r) := take_digits rest in (c :: ds, r)
      else ([], s)
  | [] => ([], [])
  end.

Definition take_sign (s : jsstring) : bool * jsstring :=
  match s with
  | c :: rest =>
      if N.eqb c 45 then (true, rest)
      else if N.eqb c 43 then (false, rest)
      else (false, s)
  | [] => (false, [])
  end.

Definition parse_exponent (s : jsstring) : Z :=
  match s with
  | c :: rest =>
      if N.eqb c 101 || N.eqb c 69 then
        let '(neg, r) := take_sign rest in
        let '(ds, _) := take_digits r in
        if is_empty ds then 0%Z
        else if neg then (- Z.of_N (value_of_digits ds))%Z
        else Z.of_N (value_of_digits ds)
      else 0%Z
  | [] => 0%Z
  end.

Definition parseFloat (s : jsstring) : number :=
  let '(neg, s1) := take_sign (skip_spaces s) in
  if starts_with (u "Infinity") s1 then S754_infinity neg
  else
    let '(ip, s2) := take_digits s1 in
    let '(fp, s3) :=
      match s2 with
      | c :: rest => if N.eqb c 46 then take_digits rest else ([], s2)
      | [] => ([], [])
      end in
    if is_empty ip && is_empty fp then NaN
    else
      let mant := Z.of_N (value_of_digits (ip ++ fp)) in
      let q := (parse_exponent s3 - Z.of_nat (length fp))%Z in
      if (mant =? 0)%Z then S754_zero neg
      else num_of_decimal (if neg then - mant else mant)%Z q.

(** Digit grouping of the [en-US] locale: a comma before every group of
    three digits counted from the right. *)
Fixpoint group_thousands (ds : jsstring) : jsstring :=
  match ds with
  | [] => []
  | d :: rest =>
      d :: (if (0 <? length rest)%nat && (length rest mod 3 =? 0)%nat
            then u "," ++ group_thousands rest
            else group_thousands rest)
  end.

(** Drops at most [n] trailing zeros of a reversed digit string. *)
Fixpoint drop_zeros (n : nat) (rev_ds : jsstring) : jsstring :=
  match n, rev_ds with
  | S k, c :: rest => if N.eqb c 48 then drop_zeros k rest else rev_ds
  | _, _ => rev_ds
  end.

(** [x.toLocaleString('en-US', { minimumFractionDigits: minFD,
    maximumFractionDigits: maxFD })], as the ICU library behind the
    browsers' [Intl] computes it: the shortest decimal that reads back as
    [x] is rounded to [maxFD] fraction digits, halves away from zero, and
    trailing zeros beyond [minFD] are dropped. *)
Definition rounded_fixed (maxFD : nat) (x : number) : Z :=
  match x with
  | S754_finite _ _ _ =>
      let '(ds, e) := shortest_decimal x in
      round_scaled (Z.of_N (value_of_digits ds)) 1
                   (e - (Z.of_nat (length ds) - 1) + Z.of_nat maxFD)
  | _ => 0%Z
  end.

Definition toLocaleString (minFD maxFD : nat) (x : number) : jsstring :=
  match x with
  | S754_nan => u "NaN"
  | S754_infinity s => (if s then u "-" else []) ++ [ch_infty]
  | _ =>
      let n := rounded_fixed maxFD x in
      let ip := (n / 10 ^ Z.of_nat maxFD)%Z in
      let fr := pad_left_zeros maxFD (digits_of_Z (n mod 10 ^ Z.of_nat maxFD)) in
      let fr' := rev (drop_zeros (maxFD - minFD) (rev (firstn maxFD fr))) in
      (if is_negative x then u "-" else []) ++
      group_thousands (digits_of_Z ip) ++
      (if is_empty fr' then [] else u "." ++ fr')
  end.

(** [x.toLocaleString('en-US')]: at most three fraction digits. *)
Definition toLocaleString_default : number -> jsstring := toLocaleString 0 3.

(** ** The host evaluator

    [evaluateExpression] builds a function body from the rewritten text
    and lets the JavaScript engine run it.  The engine is modelled on the
    fragment the rewriting is meant to produce: decimal literals, the
    operators [+ - * / **], unary [-], [+] and [!], parentheses,
    [Math.PI], [Math.E], calls of the seven [Math] functions and of
    [factorial].  The values of the transcendental functions and of [**],
    and the evaluation of every text outside this fragment (identifiers
    other than the above, regular expression literals, comments, calls of
    non-functions, ...), are left to the engine, a parameter. *)

Inductive jsval :=
| VNum (x : number)
| VBool (b : bool).

Inductive outcome :=
| Returns (v : jsval)
| Throws.

Record Engine := {
  math_sin : number -> number;
  math_cos : number -> number;
  math_tan : number -> number;
  math_log10 : number -> number;
  math_log : number -> number;
  math_sqrt : number -> number;
  math_pow : number -> number -> number;
  (** the result of running [return (text)] for a text outside the fragment *)
  run_other : jsstring -> outcome
}.

Inductive func := FSin | FCos | FTan | FLog10 | FLog | FSqrt | FAbs | FFactorial.

Inductive binop := Add | Sub | Mul | Div | Pow.

Inductive expr :=
| ENum (x : number)
| EPi
| EE
| ECall (f : func) (arg : expr)
| ECall0 (f : func)
| ENeg (e : expr)
| EPos (e : expr)
| ENot (e : expr)
| EBin (op : binop) (l r : expr).

Inductive token :=
| TNum (x : number)
| TIdent (name : jsstring)
| TPlus | TMinus | TStar | TSlash | TPow
| TLParen | TRParen | TDot | TBang.

(** *** Lexer *)

Inductive lexmode :=
| Idle
| InNum (text : jsstring)
| InIdent (text : jsstring)
| AfterStar | AfterPlus | AfterMinus | AfterSlash.

(** An integer part of several digits that starts with 0: an
    octal-looking literal, refused in strict mode. *)
Definition has_leading_zero (ip : jsstring) : bool :=
  match ip with
  | d :: _ :: _ => N.eqb d 48
  | _ => false
  end.

(** The value of a numeric text [digits][.digits]. *)
Definition number_of_text (text : jsstring) : option number :=
  let '(ip, rest) := take_digits text in
  let fp := match rest with _ :: r => r | [] => [] end in
  if has_leading_zero ip then None
  else
    Some (num_of_decimal (Z.of_N (value_of_digits (ip ++ fp)))
                         (- Z.of_nat (length fp))).

(** The tokens a pending mode stands for when the next code unit does not
    continue it. *)
Definition flush (m : lexmode) : option (list token) :=
  match m with
  | Idle => Some []
  | InNum text =>
      if str_eqb text (u ".") then Some [TDot]
      else option_map (fun x => [TNum x]) (number_of_text text)
  | InIdent text => Some [TIdent text]
  | AfterStar => Some [TStar]
  | AfterPlus => Some [TPlus]
  | AfterMinus => Some [TMinus]
  | AfterSlash => Some [TSlash]
  end.

(** One code unit read with nothing pending. *)
Definition fresh (c : char) : option (list token * lexmode) :=
  if is_digit c || N.eqb c 46 then Some ([], InNum [c])
  else if is_letter c then Some ([], InIdent [c])
  else if N.eqb c 42 then Some ([], AfterStar)
  else if N.eqb c 43 then Some ([], AfterPlus)
  else if N.eqb c 45 then Some ([], AfterMinus)
  else if N.eqb c 47 then Some ([], AfterSlash)
  else if N.eqb c 40 then Some ([TLParen], Idle)
  else if N.eqb c 41 then Some ([TRParen], Idle)
  else if N.eqb c 33 then Some ([TBang], Idle)
  else None.

Definition flush_then_fresh (m : lexmode) (c : char)
  : option (list token * lexmode) :=
  match flush m, fresh c with
  | Some ts, Some (ts', m') => Some (ts ++ ts', m')
  | _, _ => None
  end.

Definition lex_step (m : lexmode) (c : char) : option (list token * lexmode) :=
  match m with
  | InNum text =>
      if is_digit c then Some ([], InNum (text ++ [c]))
      else if N.eqb c 46 && negb (includes_char 46%N text)
           then Some ([], InNum (text ++ [c]))
      else if is_letter c && negb (str_eqb text (u ".")) then None
      else flush_then_fresh m c
  | InIdent text =>
      if is_letter c || is_digit c then Some ([], InIdent (text ++ [c]))
      else flush_then_fresh m c
  | AfterStar =>
      if N.eqb c 42 then Some ([TPow], Idle) else flush_then_fresh m c
  | AfterPlus =>
      if N.eqb c 43 then None else flush_then_fresh m c
  | AfterMinus =>
      if N.eqb c 45 then None else flush_then_fresh m c
  | AfterSlash =>
      if N.eqb c 47 || N.eqb c 42 then None else flush_then_fresh m c
  | Idle => fresh c
  end.

Fixpoint lex_from (m : lexmode) (s : jsstring) : option (list token) :=
  match s with
  | [] => flush m
  | c :: rest =>
      match lex_step m c with
      | Some (ts, m') => option_map (app ts) (lex_from m' rest)
      | None => None
      end
  end.

Definition lex (s : jsstring) : option (list token) := lex_from Idle s.

(** *** Parser *)

Definition func_of_name (name : jsstring) : option func :=
  if str_eqb name (u "sin") then Some FSin
  else if str_eqb name (u "cos") then Some FCos
  else if str_eqb name (u "tan") then Some FTan
  else if str_eqb name (u "log10") then Some FLog10
  else if str_eqb name (u "log") then Some FLog
  else if str_eqb name (u "sqrt") then Some FSqrt
  else if str_eqb name (u "abs") then Some FAbs
  else None.

(** A primary expression must not be followed by [(] or [.]: that would
    be a call or a member access on its value. *)
Definition no_suffix (ts : list token) : bool :=
  match ts with
  | TLParen :: _ | TDot :: _ => false
  | _ => true
  end.

(** JavaScript's expression grammar, from [+ -] down to primary
    expressions.  [parse_unary] also tells whether the expression starts
    with a unary operator: such an expression may not be the base of [**]. *)
Fixpoint parse_additive (fuel : nat) (ts : list token)
  : option (expr * list token) :=
  match fuel with
  | O => None
  | S f =>
      match parse_multiplicative f ts with
      | Some (l, rest) => parse_additive_rest f l rest
      | None => None
      end
  end
with parse_additive_rest (fuel : nat) (l : expr) (ts : list token)
  : option (expr * list token) :=
  match fuel with
  | O => None
  | S f =>
      match ts with
      | TPlus :: rest =>
          match parse_multiplicative f rest with
          | Some (r, rest') => parse_additive_rest f (EBin Add l r) rest'
          | None => None
          end
      | TMinus :: rest =>
          match parse_multiplicative f rest with
          | Some (r, rest') => parse_additive_rest f (EBin Sub l r) rest'
          | None => None
          end
      | _ => Some (l, ts)
      end
  end
with parse_multiplicative (fuel : nat) (ts : list token)
  : option (expr * list token) :=
  match fuel with
  | O => None
  | S f =>
      match parse_exponentiation f ts with
      | Some (l, rest) => parse_multiplicative_rest f l rest
      | None => None
      end
  end
with parse_multiplicative_rest (fuel : nat) (l : expr) (ts : list token)
  : option (expr * list token) :=
  match fuel with
  | O => None
  | S f =>
      match ts with
      | TStar :: rest =>
          match parse_exponentiation f rest with
          | Some (r, rest') => parse_multiplicative_rest f (EBin Mul l r) rest'
          | None => None
          end
      | TSlash :: rest =>
          match parse_exponentiation f rest with
          | Some (r, rest') => parse_multiplicative_rest f (EBin Div l r) rest'
          | None => None
          end
      | _ => Some (l, ts)
      end
  end
with parse_exponentiation (fuel : nat) (ts : list token)
  : option (expr * list token) :=
  match fuel with
  | O => None
  | S f =>
      match parse_unary f ts with
      | Some (l, has_op, TPow :: rest) =>
          if has_op then None
          else
            match parse_exponentiation f rest with
            | Some (r, rest') => Some (EBin Pow l r, rest')
            | None => None
            end
      | Some (l, _, rest) => Some (l, rest)
      | None => None
      end
  end
with parse_unary (fuel : nat) (ts : list token)
  : option (expr * bool * list token) :=
  match fuel with
  | O => None
  | S f =>
      match ts with
      | TMinus :: rest =>
          match parse_unary f rest with
          | Some (e, _, rest') => Some (ENeg e, true, rest')
          | None => None
          end
      | TPlus :: rest =>
          match parse_unary f rest with
          | Some (e, _, rest') => Some (EPos e, true, rest')
          | None => None
          end
      | TBang :: rest =>
          match parse_unary f rest with
          | Some (e, _, rest') => Some (ENot e, true, rest')
          | None => None
          end
      | _ =>
          match parse_primary f ts with
          | Some (e, rest) => Some (e, false, rest)
          | None => None
          end
      end
  end
with parse_primary (fuel : nat) (ts : list token)
  : option (expr * list token) :=
  match fuel with
  | O => None
  | S f =>
      match ts with
      | TNum x :: rest => if no_suffix rest then Some (ENum x, rest) else None
      | TLParen :: rest =>
          match parse_additive f rest with
          | Some (e, TRParen :: rest') =>
              if no_suffix rest' then Some (e, rest') else None
          | _ => None
          end
      | TIdent obj :: TDot :: TIdent name :: rest =>
          if str_eqb obj (u "Math") then
            if str_eqb name (u "PI") then
              if no_suffix rest then Some (EPi, rest) else None
            else if str_eqb name (u "E") then
              if no_suffix rest then Some (EE, rest) else None
            else
              match func_of_name name with
              | Some fn => parse_call f fn rest
              | None => None
              end
          else None
      | TIdent name :: rest =>
          if str_eqb name (u "factorial") then parse_call f FFactorial rest
          else None
      | _ => None
      end
  end
with parse_call (fuel : nat) (fn : func) (ts : list token)
  : option (expr * list token) :=
  match fuel with
  | O => None
  | S f =>
      match ts with
      | TLParen :: TRParen :: rest =>
          if no_suffix rest then Some (ECall0 fn, rest) else None
      | TLParen :: rest =>
          match parse_additive f rest with
          | Some (a, TRParen :: rest') =>
              if no_suffix rest' then Some (ECall fn a, rest') else None
          | _ => None
          end
      | _ => None
      end
  end.

(** The whole text is one expression. *)
Definition parse (ts : list token) : option expr :=
  match parse_additive (10 * (length ts + 1)) ts with
  | Some (e, []) => Some e
  | _ => None
  end.

(** *** Evaluation *)

Definition zero : number := S754_zero false.
Definition one : number := num_of_Z 1.
Definition Math_PI : number := S754_finite false 7074237752028440 (-51).
Definition Math_E : number := S754_finite false 6121026514868073 (-51).

Definition ToNumber (v : jsval) : number :=
  match v with
  | VNum x => x
  | VBool true => one
  | VBool false => zero
  end.

Definition ToBoolean (v : jsval) : bool :=
  match v with
  | VNum (S754_zero _) | VNum S754_nan => false
  | VNum _ => true
  | VBool b => b
  end.

(** The loop [for (let i = 2; i <= n; i++) result *= i]. *)
Fixpoint factorial_loop (fuel : nat) (i n result : number) : number :=
  match fuel with
  | O => result
  | S f =>
      if num_leb i n
      then factorial_loop f (num_add i one) n (num_mul result i)
      else result
  end.

(** The function passed to the generated code as [factorial].  The loop
    is entered with [n <= 170] or [n] NaN, so 170 rounds are never used up. *)
Definition factorialFn (n0 : number) : number :=
  let n := Math_round n0 in
  if num_ltb n zero then NaN
  else if num_eqb n zero || num_eqb n one then one
  else if num_ltb (num_of_Z 170) n then Infinity
  else factorial_loop 170 (num_of_Z 2) n one.

Definition apply_func (E : Engine) (f : func) (x : number) : number :=
  match f with
  | FSin => math_sin E x
  | FCos => math_cos E x
  | FTan => math_tan E x
  | FLog10 => math_log10 E x
  | FLog => math_log E x
  | FSqrt => math_sqrt E x
  | FAbs => Math_abs x
  | FFactorial => factorialFn x
  end.

Definition apply_binop (E : Engine) (op : binop) (x y : number) : number :=
  match op with
  | Add => num_add x y
  | Sub => num_sub x y
  | Mul => num_mul x y
  | Div => num_div x y
  | Pow => math_pow E x y
  end.

Fixpoint eval (E : Engine) (e : expr) : jsval :=
  match e with
  | ENum x => VNum x
  | EPi => VNum Math_PI
  | EE => VNum Math_E
  | ECall f a => VNum (apply_func E f (ToNumber (eval E a)))
  | ECall0 f => VNum (apply_func E f NaN)
  | ENeg a => VNum (num_neg (ToNumber (eval E a)))
  | EPos a => VNum (ToNumber (eval E a))
  | ENot a => VBool (negb (ToBoolean (eval E a)))
  | EBin op l r =>
      VNum (apply_binop E op (ToNumber (eval E l)) (ToNumber (eval E r)))
  end.

(** [new Function('factorial', '"use strict"; return (' + text + ')')]
    applied to [factorialFn]. *)
Definition run_function (E : Engine) (text : jsstring) : outcome :=
  match lex (u "(" ++ text ++ u ")") with
  | Some ts =>
      match parse ts with
      | Some e => Returns (eval E e)
      | None => run_other E text
      end
  | None => run_other E text
  end.

(** ** The evaluation engine of the script *)

(** [.replace(/(?<![a-zA-Z])e(?![a-zA-Z])/g, '(Math.E)')]; [prev] is the
    code unit before the current position. *)
Definition is_letter_opt (c : option char) : bool :=
  match c with Some x => is_letter x | None => false end.

Fixpoint replace_bare_e (prev : option char) (s : jsstring) : jsstring :=
  match s with
  | [] => []
  | c :: rest =>
      if N.eqb c 101 && negb (is_letter_opt prev) && negb (is_letter_opt (hd_error rest))
      then u "(Math.E)" ++ replace_bare_e (Some c) rest
      else c :: replace_bare_e (Some c) rest
  end.

(** [.replace(/(\d+)!/g, (_, n) => 'factorial(' + n + ')')]; [run] is the
    digit run read so far. *)
Fixpoint rewrite_factorial (run : jsstring) (s : jsstring) : jsstring :=
  match s with
  | [] => run
  | c :: rest =>
      if is_digit c then rewrite_factorial (run ++ [c]) rest
      else if N.eqb c 33 && negb (is_empty run)
           then u "factorial(" ++ run ++ u ")" ++ rewrite_factorial [] rest
      else run ++ c :: rewrite_factorial [] rest
  end.

(** Appends one [)] for every unmatched [(]. *)
Definition close_parens (s : jsstring) : jsstring :=
  s ++ repeat 41%N (count_char 40%N s - count_char 41%N s).

Fixpoint word_run (s : jsstring) : nat :=
  match s with
  | c :: rest => if is_word c then S (word_run rest) else 0
  | [] => 0
  end.

(** [.replace(/Math\.\w+/g, '')] *)
Fixpoint remove_math_from (skip : nat) (s : jsstring) : jsstring :=
  match s with
  | [] => []
  | c :: rest =>
      match skip with
      | S k => remove_math_from k rest
      | O =>
          if starts_with (u "Math.") s && (0 <? word_run (skipn 5 s))%nat
          then remove_math_from (4 + word_run (skipn 5 s)) rest
          else c :: remove_math_from 0 rest
      end
  end.

(** The character class of the sanitizing test. *)
Definition allowed_char (c : char) : bool :=
  is_digit c || is_space c ||
  existsb (N.eqb c) (u "+-*/().Math,sincotaglqrtbfcoeialEPI^!").

Definition sanitize_ok (transformed : jsstring) : bool :=
  forallb allowed_char
    (replace_all (u "factorial") [] (remove_math_from 0 transformed)).

Definition transform (expr : jsstring) : jsstring :=
  let t := replace_char ch_pi (u "(Math.PI)") expr in
  let t := replace_bare_e None t in
  let t := replace_all (u "sin(") (u "Math.sin(") t in
  let t := replace_all (u "cos(") (u "Math.cos(") t in
  let t := replace_all (u "tan(") (u "Math.tan(") t in
  let t := replace_all (u "log(") (u "Math.log10(") t in
  let t := replace_all (u "ln(") (u "Math.log(") t in
  let t := replace_all (u "sqrt(") (u "Math.sqrt(") t in
  let t := replace_all (u "abs(") (u "Math.abs(") t in
  let t := replace_char 94%N (u "**") t in
  let t := rewrite_factorial [] t in
  close_parens t.

Definition evaluateExpression (E : Engine) (expr : jsstring) : outcome :=
  let transformed := transform expr in
  if sanitize_ok transformed then run_function E transformed
  else Throws.

(** [formatResult]; the argument is a Number. *)
Definition formatResult (num : number) : jsstring :=
  if Number_isInteger num && num_ltb (Math_abs num) (num_of_Z (10 ^ 15))
  then toLocaleString_default num
  else if num_leb (num_of_Z (10 ^ 15)) (Math_abs num)
          || (num_ltb (Math_abs num) (num_of_decimal 1 (-4))
              && negb (num_eqb num zero))
  then toExponential 6 num
  else toLocaleString 0 10 (parseFloat (toPrecision 12 num)).

Definition formatExpression (expr : jsstring) : jsstring :=
  replace_char 45%N [ch_minus]
    (replace_char 47%N [ch_divide] (replace_char 42%N [ch_times] expr)).

Definition isOperator (c : jsstring) : bool :=
  existsb (str_eqb c) [u "+"; u "-"; u "*"; u "/"].

(** ** Calculator state *)

Record entry := {
  e_expr : jsstring;
  e_result : jsstring;
  e_time : jsstring
}.

Record state := {
  expression : jsstring;
  currentResult : jsstring;
  history : list entry;
  historyOpen : bool;
  lastAnswer : option number;
  (** text of the expression line, text of the result line and whether the
      result line carries the [error] class *)
  exprEl : jsstring;
  resultEl : jsstring;
  resultError : bool
}.

Definition initial : state := {|
  expression := [];
  currentResult := u "0";
  history := [];
  historyOpen := false;
  lastAnswer := None;
  exprEl := [];
  resultEl := u "0";
  resultError := false
|}.

Definition set_expression (e : jsstring) (s : state) : state :=
  {| expression := e; currentResult := currentResult s; history := history s;
     historyOpen := historyOpen s; lastAnswer := lastAnswer s;
     exprEl := exprEl s; resultEl := resultEl s; resultError := resultError s |}.

Definition set_lastAnswer (a : option number) (s : state) : state :=
  {| expression := expression s; currentResult := currentResult s;
     history := history s; historyOpen := historyOpen s; lastAnswer := a;
     exprEl := exprEl s; resultEl := resultEl s; resultError := resultError s |}.

Definition set_history (h : list entry) (s : state) : state :=
  {| expression := expression s; currentResult := currentResult s;
     history := h; historyOpen := historyOpen s; lastAnswer := lastAnswer s;
     exprEl := exprEl s; resultEl := resultEl s; resultError := resultError s |}.

Definition set_exprEl (t : jsstring) (s : state) : state :=
  {| expression := expression s; currentResult := currentResult s;
     history := history s; historyOpen := historyOpen s;
     lastAnswer := lastAnswer s;
     exprEl := t; resultEl := resultEl s; resultError := resultError s |}.

(** [currentResult = r; resultEl.textContent = r; resultEl.classList.remove('error')] *)
Definition show_result (r : jsstring) (s : state) : state :=
  {| expression := expression s; currentResult := r; history := history s;
     historyOpen := historyOpen s; lastAnswer := lastAnswer s;
     exprEl := exprEl s; resultEl := r; resultError := false |}.

Definition showError (msg : jsstring) (s : state) : state :=
  {| expression := []; currentResult := currentResult s; history := history s;
     historyOpen := historyOpen s; lastAnswer := None;
     exprEl := exprEl s; resultEl := msg; resultError := true |}.

Definition updateDisplay (s : state) : state :=
  set_exprEl (formatExpression (expression s)) s.

Definition toggleHistory (s : state) : state :=
  {| expression := expression s; currentResult := currentResult s;
     history := history s; historyOpen := negb (historyOpen s);
     lastAnswer := lastAnswer s;
     exprEl := exprEl s; resultEl := resultEl s; resultError := resultError s |}.

(** *** History *)

(** [history.unshift(...)], then [history.pop()] beyond 50 entries.  The
    time stamp is read from the clock by the script; here it is an input. *)
Definition addHistory_list (h : list entry) (expr result timestamp : jsstring)
  : list entry :=
  let h' := {| e_expr := expr; e_result := result; e_time := timestamp |} :: h in
  if (50 <? length h')%nat then removelast h' else h'.

Definition addHistory (expr result timestamp : jsstring) (s : state) : state :=
  set_history (addHistory_list (history s) expr result timestamp) s.

Definition clearHistory (s : state) : state := set_history [] s.

(** *** Evaluation *)

(** [formatResult] on what the evaluator returned: on a boolean the
    method calls of [formatResult] throw. *)
Definition formatResult_val (v : jsval) : option jsstring :=
  match v with
  | VNum x => Some (formatResult x)
  | VBool _ => None
  end.

Definition liveEvaluate (E : Engine) (s : state) : state :=
  if is_empty (expression s) then show_result (u "0") s
  else
    let evalExpr := close_parens (expression s) in
    if isOperator (slice_last evalExpr) then s
    else
      match evaluateExpression E evalExpr with
      | Returns v =>
          if negb (isNaN (ToNumber v)) && isFinite (ToNumber v) then
            match formatResult_val v with
            | Some r => show_result r s
            | None => s
            end
          else s
      | Throws => s
      end.

Definition calculate (E : Engine) (now : jsstring) (s : state) : state :=
  if is_empty (expression s) then s
  else
    match evaluateExpression E (expression s) with
    | Throws => showError (u "Error") s
    | Returns v =>
        if isNaN (ToNumber v) then showError (u "Error") s
        else if negb (isFinite (ToNumber v)) then showError (u "Infinity") s
        else
          match v, formatResult_val v with
          | VNum result, Some formatted =>
              let s1 := addHistory (expression s) formatted now s in
              let s2 := set_lastAnswer (Some result) s1 in
              let s3 := set_exprEl (formatExpression (expression s) ++ u " =") s2 in
              show_result formatted (set_expression [] s3)
          | _, _ => showError (u "Error") s
          end
    end.

(** *** Input *)

Definition has_answer (s : state) : bool :=
  match lastAnswer s with Some _ => true | None => false end.

(** The answer to chain from: [lastAnswer] when it is set and the
    expression is empty. *)
Definition answer_to_chain (s : state) : option number :=
  if is_empty (expression s) then lastAnswer s else None.

Definition toggleSign (E : Engine) (s : state) : state :=
  let s' :=
    match answer_to_chain s with
    | Some a =>
        set_lastAnswer None (set_expression (Number_toString (num_neg a)) s)
    | None =>
        if starts_with (u "-") (expression s)
        then set_expression (slice_from_1 (expression s)) s
        else if negb (is_empty (expression s))
        then set_expression (u "-" ++ expression s) s
        else s
    end in
  liveEvaluate E (updateDisplay s').

Definition inputNum (E : Engine) (val : jsstring) (s : state) : state :=
  if str_eqb val [177%N] then toggleSign E s
  else if str_eqb val (u ".")
          && includes_char 46%N (last_segment (expression s))
  then s
  else
    let s1 :=
      if has_answer s && negb (isOperator (slice_last (expression s)))
      then set_lastAnswer None (set_expression [] s)
      else s in
    liveEvaluate E (updateDisplay (set_expression (expression s1 ++ val) s1)).

Definition inputOp (op : jsstring) (s : state) : state :=
  let s1 :=
    match answer_to_chain s with
    | Some a => set_expression (Number_toString a) s
    | None => s
    end in
  let s2 :=
    if (0 <? length (expression s1))%nat
       && isOperator (slice_last (expression s1))
    then set_expression (slice_drop_last 1 (expression s1)) s1
    else s1 in
  if is_empty (expression s2) && negb (str_eqb op (u "-")) then s2
  else
    updateDisplay
      (set_lastAnswer None (set_expression (expression s2 ++ op) s2)).

Definition inputParenthesis (E : Engine) (s : state) : state :=
  let openCount := count_char 40%N (expression s) in
  let closeCount := count_char 41%N (expression s) in
  let lastChar := slice_last (expression s) in
  let e' :=
    if is_empty (expression s) || str_eqb lastChar (u "(") || isOperator lastChar
    then expression s ++ u "("
    else if (closeCount <? openCount)%nat then expression s ++ u ")"
    else expression s ++ u "*(" in
  liveEvaluate E (updateDisplay (set_expression e' s)).

(** [expression.match(/(sin|cos|tan|log|ln|sqrt|abs)\($/)]: the first
    position from the left at which one of the names, tried in this
    order, is followed by [(] and the end of the text; the result is the
    name. *)
Definition function_names : list jsstring :=
  [u "sin"; u "cos"; u "tan"; u "log"; u "ln"; u "sqrt"; u "abs"].

Definition match_name_here (s : jsstring) : option jsstring :=
  find (fun name => str_eqb s (name ++ u "(")) function_names.

Fixpoint match_function_suffix (s : jsstring) : option jsstring :=
  match s with
  | [] => None
  | _ :: rest =>
      match match_name_here s with
      | Some name => Some name
      | None => match_function_suffix rest
      end
  end.

Definition backspace (E : Engine) (s : state) : state :=
  if (length (expression s) =? 0)%nat then s
  else
    let e' :=
      match match_function_suffix (expression s) with
      | Some name => slice_drop_last (length name + 1) (expression s)
      | None => slice_drop_last 1 (expression s)
      end in
    liveEvaluate E (updateDisplay (set_expression e' s)).

Definition clearAll (s : state) : state :=
  {| expression := []; currentResult := u "0"; history := history s;
     historyOpen := historyOpen s; lastAnswer := None;
     exprEl := formatExpression []; resultEl := resultEl s;
     resultError := false |}.

(** A constant is multiplied onto what precedes it: [*] is put in unless
    the expression is empty or ends in an operator or [(]. *)
Definition with_implicit_times (e : jsstring) : jsstring :=
  if negb (is_empty e) && negb (isOperator (slice_last e))
     && negb (str_eqb (slice_last e) (u "("))
  then e ++ u "*" else e.

Definition sciFunc (E : Engine) (func : jsstring) (s : state) : state :=
  let s1 :=
    match answer_to_chain s with
    | Some a => set_lastAnswer None (set_expression (Number_toString a) s)
    | None => s
    end in
  let e := expression s1 in
  let e' :=
    if str_eqb func (u "sin") then e ++ u "sin("
    else if str_eqb func (u "cos") then e ++ u "cos("
    else if str_eqb func (u "tan") then e ++ u "tan("
    else if str_eqb func (u "log") then e ++ u "log("
    else if str_eqb func (u "ln") then e ++ u "ln("
    else if str_eqb func (u "sqrt") then e ++ u "sqrt("
    else if str_eqb func (u "abs") then e ++ u "abs("
    else if str_eqb func (u "pow") then
      if negb (is_empty e) then u "(" ++ e ++ u ")^2" else e
    else if str_eqb func (u "pi") then with_implicit_times e ++ [ch_pi]
    else if str_eqb func (u "e") then with_implicit_times e ++ u "e"
    else if str_eqb func (u "factorial") then
      if negb (is_empty e) then e ++ u "!" else e
    else if str_eqb func (u "inv") then
      if negb (is_empty e) then u "1/(" ++ e ++ u ")" else e
    else e in
  liveEvaluate E (updateDisplay (set_expression e' s1)).

(** [recallHistory(index)] *)
Definition recallHistory (index : nat) (s : state) : state :=
  match nth_error (history s) index with
  | None => s
  | Some item =>
      let s1 := set_expression [] s in
      let num := parseFloat (replace_char 44%N [] (e_result item)) in
      let s2 :=
        if negb (isNaN num) then
          set_exprEl (formatExpression (e_expr item) ++ u " =")
            (show_result (e_result item) (set_lastAnswer (Some num) s1))
        else s1 in
      toggleHistory s2
  end.

(** ** Currency converter *)

Record rate_data := {
  rate : number;
  from : jsstring;
  to : jsstring;
  symbol : jsstring;
  toSymbol : jsstring
}.

Inductive pair := usd_ngn | eur_usd | nok_usd.

Definition RATES (p : pair) : rate_data :=
  match p with
  | usd_ngn => {| rate := num_of_decimal 1580 0; from := u "USD"; to := u "NGN";
                  symbol := u "$"; toSymbol := [ch_naira] |}
  | eur_usd => {| rate := num_of_decimal 109 (-2); from := u "EUR"; to := u "USD";
                  symbol := [ch_euro]; toSymbol := u "$" |}
  | nok_usd => {| rate := num_of_decimal 92 (-3); from := u "NOK"; to := u "USD";
                  symbol := u "kr"; toSymbol := u "$" |}
  end.

Record currency := {
  currencyInputStr : jsstring;
  currentPair : pair;
  pairSwapped : bool;
  currencyLabelEl : jsstring;
  currencyResultEl : jsstring;
  currencyInputEl : jsstring;
  currencySymEl : jsstring
}.

Definition arrow (a b : jsstring) : jsstring := a ++ u " " ++ [ch_arrow] ++ u " " ++ b.

Definition plain_label (p : pair) (swapped : bool) : jsstring :=
  let data := RATES p in
  if swapped then arrow (to data) (from data) else arrow (from data) (to data).

Definition updateCurrencyLabel (c : currency) : currency :=
  let data := RATES (currentPair c) in
  {| currencyInputStr := currencyInputStr c; currentPair := currentPair c;
     pairSwapped := pairSwapped c;
     currencyLabelEl := plain_label (currentPair c) (pairSwapped c);
     currencyResultEl := currencyResultEl c;
     currencyInputEl := currencyInputEl c;
     currencySymEl := if pairSwapped c then toSymbol data else symbol data |}.

Definition selectPair (p : pair) (c : currency) : currency :=
  let c1 := updateCurrencyLabel
    {| currencyInputStr := currencyInputStr c; currentPair := p;
       pairSwapped := false; currencyLabelEl := currencyLabelEl c;
       currencyResultEl := currencyResultEl c;
       currencyInputEl := currencyInputEl c;
       currencySymEl := currencySymEl c |} in
  {| currencyInputStr := u "0"; currentPair := currentPair c1;
     pairSwapped := pairSwapped c1; currencyLabelEl := currencyLabelEl c1;
     currencyResultEl := u "0"; currencyInputEl := u "0";
     currencySymEl := currencySymEl c1 |}.

(** The value of a hexadecimal digit. *)
Definition hex_digit (c : char) : option N :=
  if is_digit c then Some (c - 48)%N
  else if (97 <=? c)%N && (c <=? 102)%N then Some (c - 87)%N
  else if (65 <=? c)%N && (c <=? 70)%N then Some (c - 55)%N
  else None.

(** The value of the leading hexadecimal digits; [acc] is [None] until
    a digit has been read. *)
Fixpoint hex_run (acc : option N) (s : jsstring) : option N :=
  match s with
  | c :: rest =>
      match hex_digit c with
      | Some d =>
          hex_run (Some (16 * match acc with Some a => a | None => 0 end
                         + d)%N) rest
      | None => acc
      end
  | [] => acc
  end.

(** The text after a prefix [0x] or [0X]. *)
Definition hex_prefix (s : jsstring) : option jsstring :=
  match s with
  | c0 :: c1 :: rest =>
      if N.eqb c0 48 && (N.eqb c1 120 || N.eqb c1 88) then Some rest
      else None
  | _ => None
  end.

(** [parseInt(s)] with no radix: white space and a sign are passed over;
    after a prefix [0x] or [0X] the leading hexadecimal digits are read,
    otherwise the leading decimal digits; NaN when there are none. *)
Definition parseInt (s : jsstring) : number :=
  let '(neg, s1) := take_sign (skip_spaces s) in
  let signed (v : Z) :=
    if (v =? 0)%Z then S754_zero neg
    else num_of_Z (if neg then - v else v)%Z in
  match hex_prefix s1 with
  | Some rest =>
      match hex_run None rest with
      | Some v => signed (Z.of_N v)
      | None => NaN
      end
  | None =>
      let '(ds, _) := take_digits s1 in
      if is_empty ds then NaN
      else signed (Z.of_N (value_of_digits ds))
  end.

(** [str.split('.')]: the text before the first dot and, when there is a
    dot, the text between the first and the second. *)
Fixpoint split_dot (s : jsstring) : jsstring * option jsstring :=
  match s with
  | [] => ([], None)
  | c :: rest =>
      if N.eqb c 46 then
        ([], Some (fst (split_dot rest)))
      else let '(a, b) := split_dot rest in (c :: a, b)
  end.

Definition formatCurrencyInput (str : jsstring) : jsstring :=
  let '(intPart, second) := split_dot str in
  let formatted := toLocaleString_default (parseInt intPart) in
  match second with
  | Some frac => formatted ++ u "." ++ frac
  | None => if str_eqb formatted (u "NaN") then u "0" else formatted
  end.

Definition set_input (str : jsstring) (c : currency) : currency :=
  {| currencyInputStr := str; currentPair := currentPair c;
     pairSwapped := pairSwapped c; currencyLabelEl := currencyLabelEl c;
     currencyResultEl := currencyResultEl c;
     currencyInputEl := currencyInputEl c;
     currencySymEl := currencySymEl c |}.

Definition set_inputEl (t : jsstring) (c : currency) : currency :=
  {| currencyInputStr := currencyInputStr c; currentPair := currentPair c;
     pairSwapped := pairSwapped c; currencyLabelEl := currencyLabelEl c;
     currencyResultEl := currencyResultEl c;
     currencyInputEl := t;
     currencySymEl := currencySymEl c |}.

(** [str.replace('.', '')]: the first dot only. *)
Fixpoint remove_first_dot (s : jsstring) : jsstring :=
  match s with
  | [] => []
  | c :: rest => if N.eqb c 46 then rest else c :: remove_first_dot rest
  end.

Definition currencyNum (val : jsstring) (c : currency) : currency :=
  if str_eqb val (u ".") && includes_char 46%N (currencyInputStr c) then c
  else
    let str :=
      if str_eqb (currencyInputStr c) (u "0") && negb (str_eqb val (u "."))
      then val else currencyInputStr c ++ val in
    if (12 <? length (remove_first_dot str))%nat
    then set_input (slice_drop_last 1 str) c
    else set_inputEl (formatCurrencyInput str) (set_input str c).

Definition currencyClear (c : currency) : currency :=
  {| currencyInputStr := u "0"; currentPair := currentPair c;
     pairSwapped := pairSwapped c;
     currencyLabelEl := plain_label (currentPair c) (pairSwapped c);
     currencyResultEl := u "0"; currencyInputEl := u "0";
     currencySymEl := currencySymEl c |}.

Definition currencyBackspace (c : currency) : currency :=
  let str :=
    if (length (currencyInputStr c) <=? 1)%nat then u "0"
    else slice_drop_last 1 (currencyInputStr c) in
  set_inputEl (formatCurrencyInput str) (set_input str c).

Definition convertCurrency (c : currency) : currency :=
  let data := RATES (currentPair c) in
  let amount := parseFloat (currencyInputStr c) in
  if isNaN amount then
    {| currencyInputStr := currencyInputStr c; currentPair := currentPair c;
       pairSwapped := pairSwapped c; currencyLabelEl := currencyLabelEl c;
       currencyResultEl := u "Invalid";
       currencyInputEl := currencyInputEl c;
       currencySymEl := currencySymEl c |}
  else
    let result :=
      if pairSwapped c then num_div amount (rate data)
      else num_mul amount (rate data) in
    let toSym := if pairSwapped c then symbol data else toSymbol data in
    let formatted := toLocaleString 2 2 result in
    let fromSym := if pairSwapped c then toSymbol data else symbol data in
    let fromName := if pairSwapped c then to data else from data in
    let toName := if pairSwapped c then from data else to data in
    let inputFormatted := toLocaleString 2 2 (parseFloat (currencyInputStr c)) in
    {| currencyInputStr := currencyInputStr c; currentPair := currentPair c;
       pairSwapped := pairSwapped c;
       currencyLabelEl := fromSym ++ inputFormatted ++ u " " ++ arrow fromName toName;
       currencyResultEl := toSym ++ u " " ++ formatted;
       currencyInputEl := currencyInputEl c;
       currencySymEl := currencySymEl c |}.

Definition swapCurrency (c : currency) : currency :=
  convertCurrency
    (updateCurrencyLabel
       {| currencyInputStr := currencyInputStr c; currentPair := currentPair c;
          pairSwapped := negb (pairSwapped c);
          currencyLabelEl := currencyLabelEl c;
          currencyResultEl := currencyResultEl c;
          currencyInputEl := currencyInputEl c;
          currencySymEl := currencySymEl c |}).

(** The converter as the page starts: the module-level initialisers and
    the call of [updateCurrencyLabel] at the end of the script. *)
Definition currency_initial : currency :=
  updateCurrencyLabel
    {| currencyInputStr := u "0"; currentPair := usd_ngn; pairSwapped := false;
       currencyLabelEl := []; currencyResultEl := u "0";
       currencyInputEl := u "0"; currencySymEl := [] |}.

(** ** Events

    The arguments the buttons of the page and the key handler pass to the
    handlers. *)

Inductive digit := D0 | D1 | D2 | D3 | D4 | D5 | D6 | D7 | D8 | D9.

Definition digit_char (d : digit) : char :=
  match d with
  | D0 => 48 | D1 => 49 | D2 => 50 | D3 => 51 | D4 => 52
  | D5 => 53 | D6 => 54 | D7 => 55 | D8 => 56 | D9 => 57
  end%N.

Inductive numkey := KDigit (d : digit) | KDot | KPlusMinus.

Definition numkey_text (k : numkey) : jsstring :=
  match k with
  | KDigit d => [digit_char d]
  | KDot => u "."
  | KPlusMinus => [177%N]
  end.

Inductive operator := OpPlus | OpMinus | OpTimes | OpDivide.

Definition operator_char (o : operator) : char :=
  match o with
  | OpPlus => 43 | OpMinus => 45 | OpTimes => 42 | OpDivide => 47
  end%N.

Definition operator_text (o : operator) : jsstring := [operator_char o].

Inductive fname := Sin | Cos | Tan | Log | Ln | Sqrt | Abs.

Definition fname_text (f : fname) : jsstring :=
  match f with
  | Sin => u "sin" | Cos => u "cos" | Tan => u "tan" | Log => u "log"
  | Ln => u "ln" | Sqrt => u "sqrt" | Abs => u "abs"
  end.

Inductive sci := SciFn (f : fname) | SciPow | SciPi | SciE | SciFactorial | SciInv.

Definition sci_name (f : sci) : jsstring :=
  match f with
  | SciFn f => fname_text f
  | SciPow => u "pow"
  | SciPi => u "pi"
  | SciE => u "e"
  | SciFactorial => u "factorial"
  | SciInv => u "inv"
  end.

Inductive action :=
| InputNum (k : numkey)
| InputOp (o : operator)
| InputParenthesis
| Backspace
| ClearAll
| ToggleSign
| SciFunc (f : sci)
| Calculate (now : jsstring)
| RecallHistory (index : nat)
| ClearHistory
| ToggleHistory.

Definition step (E : Engine) (a : action) (s : state) : state :=
  match a with
  | InputNum k => inputNum E (numkey_text k) s
  | InputOp o => inputOp (operator_text o) s
  | InputParenthesis => inputParenthesis E s
  | Backspace => backspace E s
  | ClearAll => clearAll s
  | ToggleSign => toggleSign E s
  | SciFunc f => sciFunc E (sci_name f) s
  | Calculate now => calculate E now s
  | RecallHistory i => recallHistory i s
  | ClearHistory => clearHistory s
  | ToggleHistory => toggleHistory s
  end.

(** The state after a sequence of events. *)
Definition run (E : Engine) (acts : list action) (s : state) : state :=
  fold_left (fun st a => step E a st) acts s.

(** An engine to run examples on: what it is asked for is never needed on
    the texts of the examples. *)
Definition sample_engine : Engine := {|
  math_sin := fun _ => NaN;
  math_cos := fun _ => NaN;
  math_tan := fun _ => NaN;
  math_log10 := fun _ => NaN;
  math_log := fun _ => NaN;
  math_sqrt := fun _ => NaN;
  math_pow := fun _ _ => NaN;
  run_other := fun _ => Throws
|}.

(** ** The specification's wording, for comparison *)

(** Smart parenthesis, in the words of the specification. *)
Definition ends_in (c : char) (e : jsstring) : bool :=
  match rev e with
  | x :: _ => N.eqb x c
  | [] => false
  end.

Definition ends_in_operator (e : jsstring) : bool :=
  ends_in 43%N e || ends_in 45%N e || ends_in 42%N e || ends_in 47%N e.

Definition appendParenthesis_spec (e : jsstring) : jsstring :=
  match e with
  | [] => u "("
  | _ =>
      if ends_in 40%N e || ends_in_operator e then e ++ u "("
      else if (count_occ N.eq_dec e 41%N <? count_occ N.eq_dec e 40%N)%nat
      then e ++ u ")"
      else e ++ u "*("
  end.

(** The vocabulary of an expression in the data model of the
    specification: digits, the decimal point, operators, parentheses,
    function prefixes, constants, the postfix [!] and the power sign. *)
Inductive piece :=
| PDigit (d : digit)
| PDot
| POp (o : operator)
| POpen
| PClose
| PFunc (f : fname)
| PPi
| PE
| PBang
| PCaret.

Definition piece_text (p : piece) : jsstring :=
  match p with
  | PDigit d => [digit_char d]
  | PDot => u "."
  | POp o => operator_text o
  | POpen => u "("
  | PClose => u ")"
  | PFunc f => fname_text f ++ u "("
  | PPi => [ch_pi]
  | PE => u "e"
  | PBang => u "!"
  | PCaret => u "^"
  end.

Definition pieces_text (ps : list piece) : jsstring :=
  flat_map piece_text ps.

(** A text ends in a bare function name. *)
Fixpoint ends_with (suffix s : jsstring) : bool :=
  str_eqb s suffix ||
  match s with
  | [] => false
  | _ :: rest => ends_with suffix rest
  end.

Definition ends_in_bare_name (s : jsstring) : bool :=
  existsb (fun name => ends_with name s) function_names.

(** Recording a list of calculations, oldest first, into a ledger. *)
Definition record_all (l : list (jsstring * jsstring * jsstring))
  (h : list entry) : list entry :=
  fold_left (fun h '(expr, result, t) => addHistory_list h expr result t) l h.

(** Recording a list of calculations, oldest first, in the state: what
    [addHistory] does at every successful calculation. *)
Definition record_entries (l : list (jsstring * jsstring * jsstring))
  (s : state) : state :=
  fold_left (fun s '(expr, result, t) => addHistory expr result t s) l s.

(** ** Auxiliary definitions *)

(** What [inputOp] chains from, and the removal of a trailing operator. *)
Definition seed (s : state) : jsstring :=
  match answer_to_chain s with
  | Some a => Number_toString a
  | None => expression s
  end.

Definition strip_operator (e : jsstring) : jsstring :=
  if (0 <? length e)%nat && isOperator (slice_last e)
  then slice_drop_last 1 e else e.

Definition rejected (op e : jsstring) : bool :=
  is_empty e && negb (str_eqb op (u "-")).

Definition entry_of (r : jsstring * jsstring * jsstring) : entry :=
  let '(expr, result, t) := r in
  {| e_expr := expr; e_result := result; e_time := t |}.

(** The last letters of the seven function names. *)
Definition is_name_end (c : char) : bool :=
  N.eqb c 110 || N.eqb c 115 || N.eqb c 103 || N.eqb c 116.

(** The state after [2 + 2 =] and the parenthesis key; [now] is the time
    the clock shows at the calculation. *)
Definition answer_then_parenthesis (E : Engine) (now : jsstring) : state :=
  run E
    [InputNum (KDigit D2); InputOp OpPlus; InputNum (KDigit D2);
     Calculate now; InputParenthesis]
    initial.

(** A calculator left with [-] as its expression while an answer is still
    held: [2 + 2 =], then the parenthesis key, the sign key and backspace. *)
Definition stale_minus (E : Engine) (now : jsstring) : state :=
  step E Backspace (step E ToggleSign (answer_then_parenthesis E now)).

(** Fifty-one calculations to record: [1], [2], ..., [51]. *)
Definition sample_records : list (jsstring * jsstring * jsstring) :=
  map (fun n => (digits_of_N (N.of_nat n) ++ u "+0", digits_of_N (N.of_nat n),
                 u "10:00:00 AM"))
      (seq 1 51).

(** The double equal to a non-zero integer of at most 53 bits, given by
    its sign and magnitude. *)
Definition small_double (s : bool) (p : positive) : number :=
  S754_finite s (Z.to_pos (Z.pos p * 2 ^ (53 - Z.pos (digits2_pos p))))
              (Z.pos (digits2_pos p) - 53).

(** Texts made of digits and [!] only. *)
Definition plain_char (c : char) : bool := is_digit c || N.eqb c 33.

(** Structural equality of doubles. *)
Definition number_same (x y : number) : bool :=
  match x, y with
  | S754_zero s, S754_zero t => Bool.eqb s t
  | S754_infinity s, S754_infinity t => Bool.eqb s t
  | S754_nan, S754_nan => true
  | S754_finite s m e, S754_finite t n f =>
      Bool.eqb s t && Pos.eqb m n && Z.eqb e f
  | _, _ => false
  end.

(** The factorial in the integers. *)
Fixpoint fact_Z (n : nat) : Z :=
  match n with
  | O => 1%Z
  | S k => (Z.of_nat n * fact_Z k)%Z
  end.

(** The product [2 * 3 * ... * n] taken from left to right in double
    arithmetic, every partial product rounded. *)
Definition float_product (n : nat) : number :=
  fold_left (fun acc i => num_mul acc (num_of_Z (Z.of_nat i)))
            (seq 2 (n - 1)) one.

(** The factorial of the specification: 1 at 0 and 1, Infinity above
    170, the iterated product in between. *)
Definition factorial_value (n : N) : number :=
  if (n <=? 1)%N then one
  else if (170 <? n)%N then Infinity
  else float_product (N.to_nat n).

(** A text in the grouped form of the [en-US] locale: one to three
    digits, then any number of groups of a comma and three digits. *)
Fixpoint groups_of_three (s : jsstring) : bool :=
  match s with
  | [] => true
  | c :: d1 :: d2 :: d3 :: rest =>
      N.eqb c 44 && is_digit d1 && is_digit d2 && is_digit d3
      && groups_of_three rest
  | _ => false
  end.

Definition well_grouped (s : jsstring) : bool :=
  match s with
  | d1 :: rest1 =>
      is_digit d1 &&
      (groups_of_three rest1 ||
       match rest1 with
       | d2 :: rest2 =>
           is_digit d2 &&
           (groups_of_three rest2 ||
            match rest2 with
            | d3 :: rest3 => is_digit d3 && groups_of_three rest3
            | [] => false
            end)
       | [] => false
       end)
  | [] => false
  end.

(** The text without its commas. *)
Definition without_commas (s : jsstring) : jsstring :=
  filter (fun c => negb (N.eqb c 44)) s.

(** The four binary-operator characters. *)
Definition is_op_char (c : char) : bool :=
  N.eqb c 43 || N.eqb c 45 || N.eqb c 42 || N.eqb c 47.

(** No two operator characters stand next to each other. *)
Fixpoint no_adjacent_ops (s : jsstring) : bool :=
  match s with
  | c1 :: rest =>
      match rest with
      | c2 :: _ => negb (is_op_char c1 && is_op_char c2) && no_adjacent_ops rest
      | [] => true
      end
  | [] => true
  end.

Definition starts_op (s : jsstring) : bool :=
  match s with c :: _ => is_op_char c | [] => false end.

Fixpoint ends_op (s : jsstring) : bool :=
  match s with
  | [] => false
  | c :: rest => match rest with [] => is_op_char c | _ => ends_op rest end
  end.

Definition op_free (s : jsstring) : bool :=
  forallb (fun c => negb (is_op_char c)) s.

(** The text starts with [+], [*] or [/]. *)
Definition starts_bad (s : jsstring) : bool :=
  match s with
  | c :: _ => N.eqb c 43 || N.eqb c 42 || N.eqb c 47
  | [] => false
  end.

(** The invariant of the expression: no adjacent operators, and no
    operator but [-] in front. *)
Definition tidy (s : jsstring) : bool :=
  no_adjacent_ops s && negb (starts_bad s).


(** ** Converter events and the specification's wording *)

(** The keys of the converter's pad. *)
Inductive ckey := CDigit (d : digit) | CDot.

Definition ckey_text (k : ckey) : jsstring :=
  match k with
  | CDigit d => [digit_char d]
  | CDot => u "."
  end.

Inductive caction :=
| CurrencyNum (k : ckey)
| CurrencyClear
| CurrencyBackspace
| SelectPair (p : pair)
| SwapCurrency
| ConvertCurrency.

Definition cstep (a : caction) (c : currency) : currency :=
  match a with
  | CurrencyNum k => currencyNum (ckey_text k) c
  | CurrencyClear => currencyClear c
  | CurrencyBackspace => currencyBackspace c
  | SelectPair p => selectPair p c
  | SwapCurrency => swapCurrency c
  | ConvertCurrency => convertCurrency c
  end.

Definition crun (acts : list caction) (c : currency) : currency :=
  fold_left (fun st a => cstep a st) acts c.

(** The conversion in the words of the specification: the input times
    the rate of the pair, or divided by it when the direction is
    swapped. *)
Definition converted_amount (c : currency) : number :=
  let amount := parseFloat (currencyInputStr c) in
  let r := rate (RATES (currentPair c)) in
  if pairSwapped c then num_div amount r else num_mul amount r.

(** The symbol of the unit converted to. *)
Definition destination_symbol (c : currency) : jsstring :=
  let data := RATES (currentPair c) in
  if pairSwapped c then symbol data else toSymbol data.

(** The text before the first point, and the text after it. *)
Fixpoint before_point (s : jsstring) : jsstring :=
  match s with
  | [] => []
  | c :: rest => if N.eqb c 46 then [] else c :: before_point rest
  end.

Fixpoint after_point (s : jsstring) : option jsstring :=
  match s with
  | [] => None
  | c :: rest => if N.eqb c 46 then Some rest else after_point rest
  end.

(** An amount with thousands separators and exactly two fraction digits,
    after a minus sign when there is one. *)
Definition two_fraction_digits (t : jsstring) : bool :=
  let body :=
    match t with
    | c :: rest => if N.eqb c 45 then rest else t
    | [] => []
    end in
  well_grouped (before_point body) &&
  match after_point body with
  | Some [d1; d2] => is_digit d1 && is_digit d2
  | _ => false
  end.

(** The texts the pad can build: digits, then possibly a point and more
    digits. *)
Definition keypad_text (ip fp : jsstring) (dot : bool) : jsstring :=
  ip ++ (if dot then u "." ++ fp else []).

Definition keypad_input (s : jsstring) : Prop :=
  exists ip fp dot,
    s = keypad_text ip fp dot /\ ip <> [] /\
    forallb is_digit ip = true /\ forallb is_digit fp = true /\
    (dot = false -> fp = []) /\ (length ip + length fp <= 12)%nat.

(** A positive normal double with an exponent between [lo] and [hi]. *)
Definition normal_between (lo hi : Z) (x : number) : Prop :=
  exists m e,
    x = S754_finite false m e /\ Z.pos (digits2_pos m) = 53%Z /\
    (lo <= e <= hi)%Z.


(** An answer is held only while the expression is empty. *)
Definition answer_only_when_empty (s : state) : bool :=
  is_empty (expression s) || negb (has_answer s).

Definition is_parenthesis_key (a : action) : bool :=
  match a with InputParenthesis => true | _ => false end.

(** ** The glyphs of the display and the keyboard *)

(** The glyph [formatExpression] shows for a code unit. *)
Definition display_glyph (c : char) : char :=
  if N.eqb c 42 then ch_times
  else if N.eqb c 47 then ch_divide
  else if N.eqb c 45 then ch_minus
  else c.

(** [/^[0-9]$/.test(key)] *)
Definition is_digit_key (key : jsstring) : bool :=
  match key with
  | [c] => is_digit c
  | _ => false
  end.

(** The [keydown] listener, [e.key] being [key]; [currentMode] is the mode
    last set by [switchMode] and [now] the time the clock shows. *)
Definition keydown (E : Engine) (now : jsstring) (currentMode key : jsstring)
  (s : state) : state :=
  if negb (str_eqb currentMode (u "calc")) then s
  else if is_digit_key key then inputNum E key s
  else if str_eqb key (u ".") then inputNum E (u ".") s
  else if str_eqb key (u "+") then inputOp (u "+") s
  else if str_eqb key (u "-") then inputOp (u "-") s
  else if str_eqb key (u "*") then inputOp (u "*") s
  else if str_eqb key (u "/") then inputOp (u "/") s
  else if str_eqb key (u "Enter") || str_eqb key (u "=") then calculate E now s
  else if str_eqb key (u "Backspace") then backspace E s
  else if str_eqb key (u "Escape") || str_eqb key (u "Delete") then clearAll s
  else if str_eqb key (u "(") || str_eqb key (u ")") then inputParenthesis E s
  else s.

(** A sequence of key presses, each with the mode it is made in. *)
Definition type_keys (E : Engine) (now : jsstring)
  (keys : list (jsstring * jsstring)) (s : state) : state :=
  fold_left (fun st mk => keydown E now (fst mk) (snd mk) st) keys s.

(** The button event a key stands for. *)
Definition key_action (now : jsstring) (key : jsstring) : option action :=
  match key with
  | [c] =>
      if N.eqb c 48 then Some (InputNum (KDigit D0))
      else if N.eqb c 49 then Some (InputNum (KDigit D1))
      else if N.eqb c 50 then Some (InputNum (KDigit D2))
      else if N.eqb c 51 then Some (InputNum (KDigit D3))
      else if N.eqb c 52 then Some (InputNum (KDigit D4))
      else if N.eqb c 53 then Some (InputNum (KDigit D5))
      else if N.eqb c 54 then Some (InputNum (KDigit D6))
      else if N.eqb c 55 then Some (InputNum (KDigit D7))
      else if N.eqb c 56 then Some (InputNum (KDigit D8))
      else if N.eqb c 57 then Some (InputNum (KDigit D9))
      else if N.eqb c 46 then Some (InputNum KDot)
      else if N.eqb c 43 then Some (InputOp OpPlus)
      else if N.eqb c 45 then Some (InputOp OpMinus)
      else if N.eqb c 42 then Some (InputOp OpTimes)
      else if N.eqb c 47 then Some (InputOp OpDivide)
      else if N.eqb c 61 then Some (Calculate now)
      else if N.eqb c 40 || N.eqb c 41 then Some InputParenthesis
      else None
  | _ =>
      if str_eqb key (u "Enter") then Some (Calculate now)
      else if str_eqb key (u "Backspace") then Some Backspace
      else if str_eqb key (u "Escape") || str_eqb key (u "Delete")
      then Some ClearAll
      else None
  end.

(** Two presses of the sign key give the expression back. *)
Definition sign_toggles_back (e : jsstring) : bool :=
  negb (str_eqb e (u "-")) && negb (starts_with (u "--") e).

(** The button events a sequence of key presses stands for: a key counts
    in calculator mode only. *)
Definition key_events (now : jsstring) (keys : list (jsstring * jsstring))
  : list action :=
  flat_map (fun mk =>
              if str_eqb (fst mk) (u "calc") then
                match key_action now (snd mk) with
                | Some a => [a]
                | None => []
                end
              else [])
           keys.


(** ** The converter's input, as a check *)

(** A digit first, then digits and points only, at most one point and at
    most twelve digits. *)
Definition input_within_cap (s : jsstring) : bool :=
  match s with
  | d :: rest =>
      is_digit d && forallb (fun c => is_digit c || N.eqb c 46) rest
      && (count_char 46 s <=? 1)%nat
      && (length (remove_first_dot s) <=? 12)%nat
  | [] => false
  end.

(** A leading [0] is followed by the point or by nothing. *)
Definition leading_zero_ok (s : jsstring) : bool :=
  match s with
  | d :: c :: _ => negb (N.eqb d 48) || N.eqb c 46
  | _ => true
  end.


(** ** Arithmetic on two literals *)

(** Digits and the four operators. *)
Definition arith_char (c : char) : bool := is_digit c || is_op_char c.

(** The operation an operator key stands for. *)
Definition operator_value (o : operator) : number -> number -> number :=
  match o with
  | OpPlus => num_add
  | OpMinus => num_sub
  | OpTimes => num_mul
  | OpDivide => num_div
  end.


(** ** Parentheses and points in the expression, as checks *)





(** Whether the number segment being read has a point, after [s];
    [None] when a segment has two. *)
Fixpoint points_from (seen : bool) (s : jsstring) : option bool :=
  match s with
  | [] => Some seen
  | c :: rest =>
      if is_segment_sep c then points_from false rest
      else if N.eqb c 46 then
        if seen then None else points_from true rest
      else points_from seen rest
  end.

Definition single_points (s : jsstring) : bool :=
  match points_from false s with Some _ => true | None => false end.


(** * Properties *)

(** ** Strings *)

Lemma str_eqb_eq (a b : jsstring) : str_eqb a b = true <-> a = b.
Proof.
  revert b; induction a as [|x a IH]; intros [|y b]; simpl; split;
    try congruence; try reflexivity.
  - intros H. apply andb_true_iff in H as [H1 H2].
    apply N.eqb_eq in H1. apply IH in H2. congruence.
  - intros H. injection H as -> ->. rewrite N.eqb_refl. simpl. now apply IH.
Qed.

Lemma str_eqb_refl (a : jsstring) : str_eqb a a = true.
Proof. now apply str_eqb_eq. Qed.

Lemma str_eqb_neq (a b : jsstring) : str_eqb a b = false <-> a <> b.
Proof.
  split.
  - intros H Heq. apply str_eqb_eq in Heq. congruence.
  - intros H. destruct (str_eqb a b) eqn:Heq; [|reflexivity].
    apply str_eqb_eq in Heq. contradiction.
Qed.

Lemma slice_last_snoc (e : jsstring) (c : char) : slice_last (e ++ [c]) = [c].
Proof.
  induction e as [|x e IH]; [reflexivity|].
  simpl. rewrite IH. destruct (e ++ [c]) eqn:He; [|reflexivity].
  destruct e; discriminate.
Qed.

Lemma slice_drop_last_snoc (e : jsstring) (c : char) :
  slice_drop_last 1 (e ++ [c]) = e.
Proof.
  unfold slice_drop_last. rewrite length_app. simpl.
  replace (length e + 1 - 1)%nat with (length e) by lia.
  rewrite firstn_app, firstn_all, Nat.sub_diag. simpl. apply app_nil_r.
Qed.

Lemma slice_drop_last_app (k : nat) (p t : jsstring) :
  length t = k -> slice_drop_last k (p ++ t) = p.
Proof.
  intros <-. unfold slice_drop_last. rewrite length_app.
  replace (length p + length t - length t)%nat with (length p) by lia.
  rewrite firstn_app, firstn_all, Nat.sub_diag. simpl. apply app_nil_r.
Qed.

Lemma isOperator_operator (o : operator) : isOperator (operator_text o) = true.
Proof. destruct o; reflexivity. Qed.

Lemma is_empty_true (e : jsstring) : is_empty e = true <-> e = [].
Proof. destruct e; simpl; split; congruence. Qed.

Lemma is_empty_snoc (e : jsstring) (c : char) : is_empty (e ++ [c]) = false.
Proof. destruct e; reflexivity. Qed.

(** ** appendOperator *)

Lemma inputOp_expression (op : jsstring) (s : state) :
  expression (inputOp op s) =
  let e := strip_operator (seed s) in
  if rejected op e then e else e ++ op.
Proof.
  unfold inputOp, seed, strip_operator, rejected.
  destruct (answer_to_chain s); simpl;
    match goal with |- context [if ?c then set_expression _ _ else _] =>
      destruct c end; simpl;
    match goal with |- context [if ?c then _ else _] => destruct c end;
    reflexivity.
Qed.

Lemma inputOp_lastAnswer (op : jsstring) (s : state) :
  lastAnswer (inputOp op s) =
  if rejected op (strip_operator (seed s)) then lastAnswer s else None.
Proof.
  unfold inputOp, seed, strip_operator, rejected.
  destruct (answer_to_chain s); simpl;
    match goal with |- context [if ?c then set_expression _ _ else _] =>
      destruct c end; simpl;
    match goal with |- context [if ?c then _ else _] => destruct c end;
    reflexivity.
Qed.

Lemma strip_operator_snoc (e : jsstring) (o : operator) :
  strip_operator (e ++ operator_text o) = e.
Proof.
  unfold strip_operator, operator_text.
  rewrite slice_last_snoc, length_app. simpl.
  replace (0 <? length e + 1)%nat with true
    by (symmetry; apply Nat.ltb_lt; lia).
  change [operator_char o] with (operator_text o).
  rewrite isOperator_operator. simpl. apply slice_drop_last_snoc.
Qed.

Lemma strip_operator_nil_inv (e : jsstring) :
  strip_operator e = [] -> e = [] \/ isOperator e = true.
Proof.
  unfold strip_operator. destruct e as [|c e]; [now left|]. right.
  destruct e as [|d e].
  - simpl in *. destruct (isOperator [c]); [reflexivity | discriminate].
  - exfalso. destruct ((0 <? length (c :: d :: e))%nat
                       && isOperator (slice_last (c :: d :: e))).
    + unfold slice_drop_last in H. simpl in H. discriminate.
    + discriminate.
Qed.

Lemma seed_after (o : operator) (s : state) :
  rejected (operator_text o) (strip_operator (seed s)) = false ->
  seed (inputOp (operator_text o) s) =
  strip_operator (seed s) ++ operator_text o.
Proof.
  intros H. unfold seed at 1, answer_to_chain.
  rewrite inputOp_expression, inputOp_lastAnswer. cbv zeta. rewrite H.
  unfold operator_text. rewrite is_empty_snoc. reflexivity.
Qed.

Lemma seed_rejected (o : operator) (s : state) :
  lastAnswer s = None \/ isOperator (expression s) = false ->
  rejected (operator_text o) (strip_operator (seed s)) = true ->
  strip_operator (seed (inputOp (operator_text o) s)) = [].
Proof.
  intros Hs H.
  assert (He : strip_operator (seed s) = []).
  { unfold rejected in H. apply andb_true_iff in H as [H _].
    now apply is_empty_true. }
  unfold seed at 1, answer_to_chain.
  rewrite inputOp_expression, inputOp_lastAnswer. cbv zeta. rewrite H, He.
  simpl. destruct (lastAnswer s) as [a|] eqn:Ha; [|reflexivity].
  unfold seed, answer_to_chain in He. rewrite Ha in He.
  destruct (is_empty (expression s)) eqn:Hem; [exact He|].
  apply strip_operator_nil_inv in He as [He|He].
  - rewrite He in Hem. discriminate.
  - destruct Hs; congruence.
Qed.

(** ** Frames: what the display updates leave alone *)

Lemma liveEvaluate_expression (E : Engine) (s : state) :
  expression (liveEvaluate E s) = expression s.
Proof.
  unfold liveEvaluate.
  destruct (is_empty (expression s)); [reflexivity|].
  destruct (isOperator _); [reflexivity|].
  destruct (evaluateExpression E _) as [v|]; [|reflexivity].
  destruct (negb _ && _); [|reflexivity].
  destruct (formatResult_val v); reflexivity.
Qed.

Lemma liveEvaluate_lastAnswer (E : Engine) (s : state) :
  lastAnswer (liveEvaluate E s) = lastAnswer s.
Proof.
  unfold liveEvaluate.
  destruct (is_empty (expression s)); [reflexivity|].
  destruct (isOperator _); [reflexivity|].
  destruct (evaluateExpression E _) as [v|]; [|reflexivity].
  destruct (negb _ && _); [|reflexivity].
  destruct (formatResult_val v); reflexivity.
Qed.

Lemma liveEvaluate_history (E : Engine) (s : state) :
  history (liveEvaluate E s) = history s.
Proof.
  unfold liveEvaluate.
  destruct (is_empty (expression s)); [reflexivity|].
  destruct (isOperator _); [reflexivity|].
  destruct (evaluateExpression E _) as [v|]; [|reflexivity].
  destruct (negb _ && _); [|reflexivity].
  destruct (formatResult_val v); reflexivity.
Qed.

(** ** appendParenthesis *)

Lemma slice_last_rev (e : jsstring) :
  slice_last e = match rev e with x :: _ => [x] | [] => [] end.
Proof.
  induction e as [|c e _] using rev_ind; [reflexivity|].
  rewrite slice_last_snoc, rev_app_distr. reflexivity.
Qed.

Lemma isOperator_single (x : char) :
  isOperator [x] = N.eqb x 43 || N.eqb x 45 || N.eqb x 42 || N.eqb x 47.
Proof.
  unfold isOperator. simpl. rewrite !andb_true_r, orb_false_r.
  now rewrite !orb_assoc.
Qed.

Lemma count_char_count_occ (c : char) (e : jsstring) :
  count_char c e = count_occ N.eq_dec e c.
Proof.
  unfold count_char. induction e as [|x e IH]; [reflexivity|].
  simpl. destruct (N.eq_dec x c) as [->|Hne].
  - rewrite N.eqb_refl. simpl. now rewrite IH.
  - replace (N.eqb c x) with false; [exact IH|].
    symmetry. apply N.eqb_neq. congruence.
Qed.

Lemma inputParenthesis_expression (E : Engine) (s : state) :
  expression (inputParenthesis E s) = appendParenthesis_spec (expression s).
Proof.
  unfold inputParenthesis. rewrite liveEvaluate_expression. simpl.
  unfold appendParenthesis_spec, ends_in_operator, ends_in.
  rewrite !count_char_count_occ, slice_last_rev.
  destruct (expression s) as [|c e] eqn:He; [reflexivity|].
  rewrite <- He. cbn [is_empty]. rewrite He at 1. cbn [is_empty orb].
  destruct (rev (expression s)) as [|x r] eqn:Hr.
  - exfalso. apply (f_equal (@rev _)) in Hr. rewrite rev_involutive in Hr.
    rewrite He in Hr. discriminate.
  - rewrite isOperator_single. cbn [str_eqb u map list_ascii_of_string code].
    change (N_of_ascii "(") with 40%N. rewrite andb_true_r. reflexivity.
Qed.

(** ** backspace *)

Lemma fname_in_names (f : fname) : In (fname_text f) function_names.
Proof. destruct f; simpl; auto 10. Qed.

Lemma match_name_here_exact (f : fname) :
  match_name_here (fname_text f ++ u "(") = Some (fname_text f).
Proof. destruct f; reflexivity. Qed.

(** No name followed by [(] has another name followed by [(] as a proper
    suffix: a match of the pattern cannot start before the token. *)
Lemma match_name_here_longer (c : char) (p : jsstring) (f : fname) :
  match_name_here (c :: p ++ fname_text f ++ u "(") = None.
Proof.
  unfold match_name_here.
  match goal with |- ?t = None => destruct t as [name|] eqn:Hf end;
    [exfalso|reflexivity].
  apply find_some in Hf as [Hin Heq]. apply str_eqb_eq in Heq.
  rewrite app_comm_cons, app_assoc in Heq. apply app_inv_tail in Heq.
  simpl in Hin.
  destruct Hin as [<-|[<-|[<-|[<-|[<-|[<-|[<-|[]]]]]]]];
    destruct f; cbn in Heq;
    destruct p as [|? [|? [|? ?]]]; cbn in Heq; try congruence;
    apply (f_equal (@length _)) in Heq; cbn in Heq;
    rewrite ?length_app in Heq; cbn in Heq; lia.
Qed.

Lemma match_function_suffix_token (p : jsstring) (f : fname) :
  match_function_suffix (p ++ fname_text f ++ u "(") = Some (fname_text f).
Proof.
  induction p as [|c p IH].
  - destruct f; reflexivity.
  - cbn [app match_function_suffix].
    rewrite match_name_here_longer. exact IH.
Qed.

Lemma backspace_token (E : Engine) (s : state) (p : jsstring) (f : fname) :
  expression (backspace E (set_expression (p ++ fname_text f ++ u "(") s)) = p.
Proof.
  unfold backspace. cbn [expression set_expression].
  destruct (length (p ++ fname_text f ++ u "(") =? 0)%nat eqn:Hl.
  - apply Nat.eqb_eq in Hl. rewrite !length_app in Hl. simpl in Hl. lia.
  - rewrite liveEvaluate_expression. cbn [expression updateDisplay set_exprEl set_expression].
    rewrite match_function_suffix_token.
    apply slice_drop_last_app. rewrite length_app. simpl. lia.
Qed.

Lemma ends_with_split (suffix s : jsstring) :
  ends_with suffix s = true -> exists q, s = q ++ suffix.
Proof.
  induction s as [|c s IH]; cbn [ends_with]; intros H.
  - rewrite orb_false_r in H. apply str_eqb_eq in H. exists []. now subst.
  - apply orb_true_iff in H as [H|H].
    + apply str_eqb_eq in H. exists []. now subst.
    + destruct (IH H) as [q ->]. now exists (c :: q).
Qed.

Lemma name_end (name : jsstring) :
  In name function_names ->
  exists n a, name = n ++ [a] /\ is_name_end a = true.
Proof.
  simpl. intros [<-|[<-|[<-|[<-|[<-|[<-|[<-|[]]]]]]]].
  - now exists (u "si"), 110%N.
  - now exists (u "co"), 115%N.
  - now exists (u "ta"), 110%N.
  - now exists (u "lo"), 103%N.
  - now exists (u "l"), 110%N.
  - now exists (u "sqr"), 116%N.
  - now exists (u "ab"), 115%N.
Qed.

Lemma piece_end (p : piece) :
  exists w b, piece_text p = w ++ [b] /\ is_name_end b = false.
Proof.
  destruct p as [d| |o| | |f| | | |].
  - exists [], (digit_char d). now destruct d.
  - now exists [], 46%N.
  - exists [], (operator_char o). now destruct o.
  - now exists [], 40%N.
  - now exists [], 41%N.
  - exists (fname_text f), 40%N. now split.
  - now exists [], ch_pi.
  - now exists [], 101%N.
  - now exists [], 33%N.
  - now exists [], 94%N.
Qed.

Lemma pieces_no_bare_name (ps : list piece) :
  ends_in_bare_name (pieces_text ps) = false.
Proof.
  unfold ends_in_bare_name.
  destruct (existsb _ function_names) eqn:Hex; [exfalso|reflexivity].
  apply existsb_exists in Hex as (name & Hin & Hend).
  apply ends_with_split in Hend as [q Hq].
  destruct (name_end name Hin) as (n & a & -> & Ha).
  destruct ps as [|p ps _] using rev_ind.
  - simpl in Hq. symmetry in Hq.
    apply app_eq_nil in Hq as [_ Hq]. apply app_eq_nil in Hq as [_ Hq].
    discriminate.
  - unfold pieces_text in Hq. rewrite flat_map_app in Hq. simpl in Hq.
    rewrite app_nil_r in Hq.
    destruct (piece_end p) as (w & b & Hp & Hb). rewrite Hp in Hq.
    rewrite !app_assoc in Hq. apply app_inj_tail in Hq as [_ ->].
    congruence.
Qed.

(** ** History *)

Lemma addHistory_list_firstn (h : list entry) (expr result t : jsstring) :
  (length h <= 50)%nat ->
  addHistory_list h expr result t =
  firstn 50 ({| e_expr := expr; e_result := result; e_time := t |} :: h).
Proof.
  intros Hl. unfold addHistory_list.
  set (x := {| e_expr := expr; e_result := result; e_time := t |}).
  destruct (50 <? length (x :: h))%nat eqn:Hc.
  - apply Nat.ltb_lt in Hc. simpl in Hc.
    rewrite removelast_firstn_len. simpl length.
    replace (length h) with 50%nat by lia. reflexivity.
  - apply Nat.ltb_ge in Hc. symmetry. now apply firstn_all2.
Qed.

Lemma addHistory_list_bound (h : list entry) (expr result t : jsstring) :
  (length h <= 50)%nat -> (length (addHistory_list h expr result t) <= 50)%nat.
Proof.
  intros Hl. rewrite addHistory_list_firstn by assumption.
  rewrite length_firstn. lia.
Qed.

Lemma firstn_app_firstn (A : Type) (n : nat) (a b : list A) :
  firstn n (a ++ firstn n b) = firstn n (a ++ b).
Proof.
  rewrite !firstn_app, firstn_firstn.
  f_equal. f_equal. lia.
Qed.

Lemma record_all_firstn (l : list (jsstring * jsstring * jsstring))
  (h : list entry) :
  (length h <= 50)%nat ->
  record_all l h = firstn 50 (rev (map entry_of l) ++ h).
Proof.
  revert h. induction l as [|[[e r] t] l IH]; intros h Hl.
  - unfold record_all. cbn [fold_left map rev app].
    symmetry. now apply firstn_all2.
  - unfold record_all in *. cbn [fold_left].
    rewrite IH by now apply addHistory_list_bound.
    rewrite addHistory_list_firstn by assumption.
    rewrite firstn_app_firstn. cbn [map rev entry_of].
    now rewrite <- app_assoc.
Qed.

Ltac history_cases :=
  repeat first
    [ rewrite liveEvaluate_history
    | progress cbn [history updateDisplay set_exprEl set_expression
                    set_lastAnswer show_result showError toggleHistory
                    set_history addHistory clearHistory clearAll]
    | match goal with
      | |- context [history (if ?c then _ else _)] => destruct c
      | |- context [history (match ?c with _ => _ end)] => destruct c
      end ].

Lemma history_step (E : Engine) (a : action) (s : state) :
  (length (history s) <= 50)%nat ->
  (length (history (step E a s)) <= 50)%nat.
Proof.
  intros Hl. destruct a; cbn [step].
  - unfold inputNum, toggleSign. history_cases; exact Hl.
  - unfold inputOp. history_cases; exact Hl.
  - unfold inputParenthesis. history_cases; exact Hl.
  - unfold backspace. history_cases; exact Hl.
  - exact Hl.
  - unfold toggleSign. history_cases; exact Hl.
  - unfold sciFunc. history_cases; exact Hl.
  - unfold calculate. history_cases; try exact Hl.
    now apply addHistory_list_bound.
  - unfold recallHistory. history_cases; exact Hl.
  - cbn. lia.
  - exact Hl.
Qed.

Lemma history_run (E : Engine) (acts : list action) (s : state) :
  (length (history s) <= 50)%nat ->
  (length (history (run E acts s)) <= 50)%nat.
Proof.
  revert s. induction acts as [|a acts IH]; intros s Hl; [exact Hl|].
  cbn [run fold_left]. apply IH. now apply history_step.
Qed.

(** ** Results on the expression builder and the history *)

(** Pressing an operator key twice leaves the expression that pressing
    the second operator alone leaves, in every state in which no answer
    is held or the expression is not a lone operator: the states in which
    the replacement of C3 holds. *)
Theorem appendOperator_replaces (s : state) (o1 o2 : operator)
  (H : lastAnswer s = None \/ isOperator (expression s) = false) :
  expression (inputOp (operator_text o2) (inputOp (operator_text o1) s)) =
  expression (inputOp (operator_text o2) s).
Proof.
  rewrite (inputOp_expression (operator_text o2) (inputOp _ s)).
  rewrite (inputOp_expression (operator_text o2) s). cbv zeta.
  destruct (rejected (operator_text o1) (strip_operator (seed s))) eqn:Hr.
  - rewrite (seed_rejected o1 s H Hr).
    unfold rejected in Hr. apply andb_true_iff in Hr as [Hr _].
    apply is_empty_true in Hr. rewrite Hr. reflexivity.
  - rewrite (seed_after o1 s Hr), strip_operator_snoc. reflexivity.
Qed.

Lemma appendOperator_replaces_witness :
  (lastAnswer (set_expression (u "5+") initial) = None \/
   isOperator (expression (set_expression (u "5+") initial)) = false) /\
  expression (inputOp (operator_text OpTimes)
               (inputOp (operator_text OpMinus)
                        (set_expression (u "5+") initial))) =
  expression (inputOp (operator_text OpTimes)
                      (set_expression (u "5+") initial)).
Proof.
  split; [left; reflexivity|].
  apply (appendOperator_replaces (set_expression (u "5+") initial)
           OpMinus OpTimes).
  left; reflexivity.
Defined.

(** C4.  The parenthesis key appends [(] when the expression is empty,
    ends in [(] or ends in an operator, else [)] when more [(] than [)]
    have been typed, else [*(]; from the empty expression it gives [(],
    from [(] it gives [((], from [(5] it gives [(5)] and from [(5)] it
    gives [(5)*(]. *)
Theorem appendParenthesis_smart (E : Engine) (s : state) :
  expression (inputParenthesis E s) = appendParenthesis_spec (expression s) /\
  expression (inputParenthesis E (set_expression [] s)) = u "(" /\
  expression (inputParenthesis E (set_expression (u "(") s)) = u "((" /\
  expression (inputParenthesis E (set_expression (u "(5") s)) = u "(5)" /\
  expression (inputParenthesis E (set_expression (u "(5)") s)) = u "(5)*(".
Proof. repeat split; rewrite inputParenthesis_expression; reflexivity. Qed.

(** C5.  On an expression that ends in a function prefix, backspace
    removes the name together with its parenthesis and leaves the text
    before it; when that text is made of expression tokens the result
    does not end in a bare function name; backspace on [sin(] gives the
    empty expression. *)
Theorem backspace_function_prefix (E : Engine) (s : state) (p : jsstring)
  (ps : list piece) (f : fname) :
  expression (backspace E (set_expression (p ++ fname_text f ++ u "(") s)) = p /\
  ends_in_bare_name
    (expression
       (backspace E
          (set_expression (pieces_text ps ++ fname_text f ++ u "(") s))) = false /\
  expression (backspace E (set_expression (u "sin(") s)) = [].
Proof.
  split; [apply backspace_token|]. split.
  - rewrite backspace_token. apply pieces_no_bare_name.
  - apply (backspace_token E s [] Sin).
Qed.

Lemma record_entries_history (l : list (jsstring * jsstring * jsstring))
  (s : state) :
  history (record_entries l s) = record_all l (history s).
Proof.
  revert s. induction l as [|[[e r] t] l IH]; intros s; [reflexivity|].
  unfold record_entries, record_all in *. cbn [fold_left].
  rewrite IH. reflexivity.
Qed.

Lemma record_all_51 (l : list (jsstring * jsstring * jsstring))
  (h : list entry) :
  length l = 51%nat -> (length h <= 50)%nat ->
  record_all l h = rev (map entry_of (tl l)).
Proof.
  intros H Hh. rewrite record_all_firstn by exact Hh.
  destruct l as [|x l]; [discriminate|]. cbn [tl map rev].
  injection H as H.
  rewrite <- app_assoc, firstn_app.
  rewrite firstn_all2 by (rewrite length_rev, length_map; lia).
  rewrite length_rev, length_map, H. cbn [Nat.sub firstn]. apply app_nil_r.
Qed.

(** C7.  The history of the calculator never holds more than 50 entries,
    and recording 51 calculations in it, whatever went before, leaves 50
    of them: the last one recorded at index 0 and all but the first one
    recorded, newest first. *)
Theorem history_capacity (E : Engine) (acts : list action)
  (l : list (jsstring * jsstring * jsstring)) (H : length l = 51%nat) :
  (length (history (run E acts initial)) <= 50)%nat /\
  length (history (record_entries l (run E acts initial))) = 50%nat /\
  nth_error (history (record_entries l (run E acts initial))) 0 =
    option_map entry_of (nth_error l 50) /\
  history (record_entries l (run E acts initial)) =
    rev (map entry_of (tl l)).
Proof.
  assert (Hl : (length (history (run E acts initial)) <= 50)%nat)
    by (apply history_run; simpl; lia).
  split; [exact Hl|].
  rewrite record_entries_history, (record_all_51 l _ H Hl).
  split; [|split; [|reflexivity]].
  - rewrite length_rev, length_map. destruct l; [discriminate|].
    simpl in *. lia.
  - destruct l as [|x l]; [discriminate|]. injection H as H. cbn [tl].
    destruct l as [|y l _] using rev_ind; [discriminate|].
    rewrite length_app in H. simpl in H.
    rewrite map_app, rev_app_distr. cbn [map rev app].
    change (x :: l ++ [y]) with ((x :: l) ++ [y]).
    rewrite nth_error_app2 by (cbn [length]; lia).
    replace (50 - length (x :: l))%nat with 0%nat by (cbn [length]; lia).
    reflexivity.
Qed.

Lemma history_capacity_witness :
  length sample_records = 51%nat /\
  length (history
            (record_entries sample_records
               (run sample_engine
                  [InputNum (KDigit D7); Calculate (u "09:59:59 AM")]
                  initial))) = 50%nat /\
  nth_error (history
               (record_entries sample_records
                  (run sample_engine
                     [InputNum (KDigit D7); Calculate (u "09:59:59 AM")]
                     initial))) 0 =
    Some {| e_expr := u "51+0"; e_result := u "51";
            e_time := u "10:00:00 AM" |}.
Proof.
  split; [reflexivity|].
  destruct (history_capacity sample_engine
              [InputNum (KDigit D7); Calculate (u "09:59:59 AM")]
              sample_records eq_refl) as (_ & Hlen & Hnth & _).
  split; [exact Hlen|]. rewrite Hnth. vm_compute. reflexivity.
Defined.

Local Open Scope Z_scope.

(** ** Binary64 rounding *)

Lemma digits2_pos_bounds (p : positive) :
  2 ^ (Z.pos (digits2_pos p) - 1) <= Z.pos p < 2 ^ Z.pos (digits2_pos p).
Proof.
  induction p as [p IH|p IH|]; cbn [digits2_pos].
  - rewrite Pos2Z.inj_succ, (Pos2Z.inj_xI p).
    replace (Z.succ (Z.pos (digits2_pos p)) - 1)
      with (Z.succ (Z.pos (digits2_pos p) - 1)) by lia.
    rewrite !Z.pow_succ_r by lia. lia.
  - rewrite Pos2Z.inj_succ, (Pos2Z.inj_xO p).
    replace (Z.succ (Z.pos (digits2_pos p)) - 1)
      with (Z.succ (Z.pos (digits2_pos p) - 1)) by lia.
    rewrite !Z.pow_succ_r by lia. lia.
  - simpl. lia.
Qed.

Lemma Zdigits2_bounds (m : Z) :
  0 < m -> 2 ^ (Zdigits2 m - 1) <= m < 2 ^ Zdigits2 m.
Proof. destruct m; try lia. intros _. apply digits2_pos_bounds. Qed.

Lemma Zdigits2_pos (m : Z) : 0 < m -> 0 < Zdigits2 m.
Proof. destruct m; simpl; lia. Qed.

Lemma Zdigits2_unique (m n : Z) :
  2 ^ (n - 1) <= m < 2 ^ n -> 0 < n -> Zdigits2 m = n.
Proof.
  intros [Hlo Hhi] Hn.
  assert (Hm : 0 < m) by (pose proof (Z.pow_pos_nonneg 2 (n - 1)); lia).
  pose proof (Zdigits2_bounds m Hm) as [Hlo' Hhi'].
  pose proof (Zdigits2_pos m Hm) as Hd.
  destruct (Z.lt_trichotomy (Zdigits2 m) n) as [Hlt|[Heq|Hgt]]; [|exact Heq|].
  - exfalso.
    assert (2 ^ Zdigits2 m <= 2 ^ (n - 1)) by (apply Z.pow_le_mono_r; lia).
    lia.
  - exfalso.
    assert (2 ^ n <= 2 ^ (Zdigits2 m - 1)) by (apply Z.pow_le_mono_r; lia).
    lia.
Qed.

Lemma iter_xO_value (m p : positive) :
  Z.pos (Pos.iter xO m p) = Z.pos m * 2 ^ Z.pos p.
Proof.
  induction p as [|p IH] using Pos.peano_ind.
  - simpl. lia.
  - rewrite Pos.iter_succ, (Pos2Z.inj_xO (Pos.iter xO m p)), IH, Pos2Z.inj_succ.
    rewrite Z.pow_succ_r by lia. lia.
Qed.

Lemma shr_1_m (r : shr_record) :
  0 <= shr_m r -> shr_m (shr_1 r) = shr_m r / 2.
Proof.
  rewrite <- Z.div2_div.
  destruct r as [[|[p|p|]|[p|p|]] rb sb]; cbn [shr_m];
    try reflexivity; lia.
Qed.

Lemma shr_1_nonneg (r : shr_record) : 0 <= shr_m r -> 0 <= shr_m (shr_1 r).
Proof. intros H. rewrite shr_1_m by exact H. apply Z.div_pos; lia. Qed.

Lemma iter_shr_1_m (p : positive) (r : shr_record) :
  0 <= shr_m r ->
  shr_m (iter_pos shr_1 p r) = shr_m r / 2 ^ Z.pos p /\
  0 <= shr_m (iter_pos shr_1 p r).
Proof.
  revert r. induction p as [p IH|p IH|]; intros r Hr; cbn [iter_pos].
  - destruct (IH (shr_1 r) (shr_1_nonneg r Hr)) as [H1 H1'].
    destruct (IH _ H1') as [H2 H2'].
    split; [|exact H2'].
    rewrite H2, H1, shr_1_m, (Pos2Z.inj_xI p) by exact Hr.
    rewrite !Z.div_div by (try apply Z.pow_pos_nonneg; lia).
    f_equal. replace (2 * Z.pos p + 1) with (1 + Z.pos p + Z.pos p) by lia.
    rewrite !Z.pow_add_r by lia. lia.
  - destruct (IH r Hr) as [H1 H1'].
    destruct (IH _ H1') as [H2 H2'].
    split; [|exact H2'].
    rewrite H2, H1, (Pos2Z.inj_xO p).
    rewrite !Z.div_div by (try apply Z.pow_pos_nonneg; lia).
    f_equal. replace (2 * Z.pos p) with (Z.pos p + Z.pos p) by lia.
    rewrite !Z.pow_add_r by lia. lia.
  - split; [now apply shr_1_m | now apply shr_1_nonneg].
Qed.

Lemma shr_record_of_loc_m (m : Z) (l : location) :
  shr_m (shr_record_of_loc m l) = m.
Proof. destruct l as [|[]]; reflexivity. Qed.

(** Shifting the mantissa right to the exponent [fexp] asks for. *)
Lemma shr_fexp_spec (m e : Z) (l : location) :
  0 < m -> e <= fexp prec emax (Zdigits2 m + e) ->
  exists r,
    shr_fexp prec emax m e l = (r, fexp prec emax (Zdigits2 m + e)) /\
    shr_m r = m / 2 ^ (fexp prec emax (Zdigits2 m + e) - e).
Proof.
  intros Hm He. unfold shr_fexp, shr.
  destruct (fexp prec emax (Zdigits2 m + e) - e) as [|k|k] eqn:Hk; try lia.
  - exists (shr_record_of_loc m l). split.
    + f_equal. lia.
    + rewrite shr_record_of_loc_m, Z.div_1_r. reflexivity.
  - exists (iter_pos shr_1 k (shr_record_of_loc m l)). split.
    + f_equal. lia.
    + pose proof (iter_shr_1_m k (shr_record_of_loc m l)) as H.
      rewrite shr_record_of_loc_m in H. apply H. lia.
Qed.

Lemma round_nearest_even_bounds (m : Z) (l : location) :
  m <= round_nearest_even m l <= m + 1.
Proof.
  destruct l as [|[]]; simpl; try lia. destruct (Z.even m); lia.
Qed.

(** Rounding a mantissa of at least 53 bits in the normal range: the
    result is infinite, or finite with the exponent [fexp] asks for or the
    next one. *)
Lemma binary_round_aux_normal (s : bool) (m e : Z) (l : location) :
  0 < m -> 53 <= Zdigits2 m -> -1074 <= Zdigits2 m + e - 53 ->
  let e1 := Zdigits2 m + e - 53 in
  (binary_round_aux prec emax s m e l = S754_infinity s /\ 971 <= e1) \/
  exists m' e',
    binary_round_aux prec emax s m e l = S754_finite s m' e' /\
    e1 <= e' <= e1 + 1 /\ e' <= 971 /\ Z.pos (digits2_pos m') = 53.
Proof.
  intros Hm Hd Hn e1.
  assert (Hf : fexp prec emax (Zdigits2 m + e) = e1).
  { unfold fexp, emin, prec, emax, e1. lia. }
  destruct (shr_fexp_spec m e l Hm) as (r1 & Hr1 & Hm1).
  { rewrite Hf. unfold e1. lia. }
  unfold binary_round_aux. rewrite Hr1, Hf.
  rewrite Hf in Hm1.
  pose proof (Zdigits2_bounds m Hm) as [Hlo Hhi].
  set (k := e1 - e) in *.
  assert (Hk : 0 <= k) by (unfold k, e1; lia).
  assert (Hm1b : 2 ^ 52 <= shr_m r1 < 2 ^ 53).
  { rewrite Hm1.
    replace (Zdigits2 m - 1) with (52 + k) in Hlo by (unfold k, e1; lia).
    replace (Zdigits2 m) with (53 + k) in Hhi by (unfold k, e1; lia).
    rewrite Z.pow_add_r in Hlo, Hhi by lia.
    pose proof (Z.pow_pos_nonneg 2 k ltac:(lia) Hk) as Hp.
    split.
    - apply Z.div_le_lower_bound; lia.
    - apply Z.div_lt_upper_bound; lia. }
  set (m2 := round_nearest_even (shr_m r1) (loc_of_shr_record r1)).
  pose proof (round_nearest_even_bounds (shr_m r1) (loc_of_shr_record r1)) as Hm2.
  fold m2 in Hm2.
  assert (Hm2pos : 0 < m2) by lia.
  destruct (Z.eq_dec m2 (2 ^ 53)) as [Heq|Hne].
  - (* the mantissa rounded up to 2^53: one more shift *)
    assert (Hd2 : Zdigits2 m2 = 54).
    { apply Zdigits2_unique; [|lia]. rewrite Heq. simpl. lia. }
    destruct (shr_fexp_spec m2 e1 loc_Exact Hm2pos) as (r2 & Hr2 & Hm2').
    { unfold fexp, emin, prec, emax. lia. }
    rewrite Hr2.
    assert (Hf2 : fexp prec emax (Zdigits2 m2 + e1) = e1 + 1).
    { unfold fexp, emin, prec, emax. unfold e1 in *. lia. }
    rewrite Hf2 in *.
    replace (e1 + 1 - e1) with 1 in Hm2' by lia.
    rewrite Heq in Hm2'. change (2 ^ 53 / 2 ^ 1) with (Z.pos (2 ^ 52)) in Hm2'.
    rewrite Hm2'.
    destruct (e1 + 1 <=? emax - prec) eqn:Hle.
    + right. exists (2 ^ 52)%positive, (e1 + 1).
      apply Z.leb_le in Hle. unfold emax, prec in Hle.
      repeat split; try lia.
    + left. apply Z.leb_gt in Hle. unfold emax, prec in Hle. split; [reflexivity|lia].
  - assert (Hd2 : Zdigits2 m2 = 53).
    { apply Zdigits2_unique; [|lia]. change (53 - 1) with 52. lia. }
    destruct (shr_fexp_spec m2 e1 loc_Exact Hm2pos) as (r2 & Hr2 & Hm2').
    { unfold fexp, emin, prec, emax. lia. }
    rewrite Hr2.
    assert (Hf2 : fexp prec emax (Zdigits2 m2 + e1) = e1).
    { unfold fexp, emin, prec, emax. unfold e1 in *. lia. }
    rewrite Hf2 in *.
    rewrite Z.sub_diag, Z.div_1_r in Hm2'. rewrite Hm2'.
    destruct m2 as [|p2|p2]; try lia.
    destruct (e1 <=? emax - prec) eqn:Hle.
    + right. exists p2, e1.
      apply Z.leb_le in Hle. unfold emax, prec in Hle.
      repeat split; try lia. exact Hd2.
    + left. apply Z.leb_gt in Hle. unfold emax, prec in Hle. split; [reflexivity|lia].
Qed.

Lemma binary_round_aux_canonical (s : bool) (m : positive) (e : Z) :
  fexp prec emax (Z.pos (digits2_pos m) + e) = e -> e <= 971 ->
  binary_round_aux prec emax s (Z.pos m) e loc_Exact = S754_finite s m e.
Proof.
  intros Hf He. unfold binary_round_aux, shr_fexp. cbn [Zdigits2].
  rewrite Hf, Z.sub_diag. cbn [shr shr_record_of_loc shr_m loc_of_shr_record
                               round_nearest_even Zdigits2].
  rewrite Hf, Z.sub_diag. cbn [shr shr_record_of_loc shr_m].
  replace (e <=? emax - prec) with true; [reflexivity|].
  symmetry. apply Z.leb_le. unfold emax, prec. lia.
Qed.

Lemma digits2_pos_iter_xO (m p : positive) :
  Z.pos (digits2_pos (Pos.iter xO m p)) = Z.pos (digits2_pos m) + Z.pos p.
Proof.
  induction p as [|p IH] using Pos.peano_ind.
  - simpl. lia.
  - rewrite Pos.iter_succ. cbn [digits2_pos].
    rewrite Pos2Z.inj_succ, IH, Pos2Z.inj_succ. lia.
Qed.

(** An integer of at most 53 bits is a double: the mantissa is the
    integer shifted left to 53 bits. *)
Lemma binary_round_small (s : bool) (z : positive) :
  Z.pos (digits2_pos z) <= 53 ->
  binary_round prec emax s z 0 = small_double s z.
Proof.
  intros Hd. unfold binary_round, small_double.
  assert (Hf : fexp prec emax (Z.pos (digits2_pos z) + 0)
               = Z.pos (digits2_pos z) - 53).
  { unfold fexp, emin, prec, emax. lia. }
  rewrite Hf. unfold shl_align.
  destruct (Z.pos (digits2_pos z) - 53 - 0) as [|k|k] eqn:Hk; try lia.
  - replace (Z.pos (digits2_pos z)) with 53 by lia.
    change (53 - 53) with 0. rewrite Z.mul_1_r. cbn [Z.to_pos].
    apply binary_round_aux_canonical; [|lia].
    unfold fexp, emin, prec, emax. lia.
  - replace (53 - Z.pos (digits2_pos z)) with (Z.pos k) by lia.
    rewrite <- iter_xO_value. cbn [Z.to_pos].
    apply binary_round_aux_canonical; [|lia].
    rewrite digits2_pos_iter_xO. unfold fexp, emin, prec, emax. lia.
Qed.

Lemma num_of_Z_small (z : Z) :
  z <> 0 -> Zdigits2 z <= 53 ->
  num_of_Z z = small_double (z <? 0) (Z.to_pos (Z.abs z)).
Proof.
  intros Hz Hd. destruct z as [|p|p]; [congruence| |];
    apply binary_round_small; exact Hd.
Qed.

(** An integer of more than 53 bits rounds to a double with a positive
    exponent, or to infinity. *)
Lemma num_of_Z_large (z : positive) :
  53 < Z.pos (digits2_pos z) ->
  num_of_Z (Z.pos z) = S754_infinity false \/
  exists m e, num_of_Z (Z.pos z) = S754_finite false m e /\ 1 <= e.
Proof.
  intros Hd. unfold num_of_Z, binary_normalize, binary_round.
  assert (Hf : fexp prec emax (Z.pos (digits2_pos z) + 0)
               = Z.pos (digits2_pos z) - 53).
  { unfold fexp, emin, prec, emax. lia. }
  rewrite Hf. unfold shl_align.
  destruct (Z.pos (digits2_pos z) - 53 - 0) as [|k|k] eqn:Hk; try lia.
  destruct (binary_round_aux_normal false (Z.pos z) 0 loc_Exact)
    as [[H _]|(m & e & H & He & _)]; cbn [Zdigits2]; try lia.
  - now left.
  - right. exists m, e. split; [exact H|]. cbn [Zdigits2] in He. lia.
Qed.

(** ** Factorial *)

Lemma Math_round_small (s : bool) (z : positive) :
  Z.pos (digits2_pos z) <= 53 ->
  Math_round (small_double s z) = small_double s z.
Proof.
  intros Hd. unfold small_double at 1, Math_round.
  destruct (0 <=? Z.pos (digits2_pos z) - 53) eqn:He; [reflexivity|].
  apply Z.leb_gt in He.
  set (k := 53 - Z.pos (digits2_pos z)).
  assert (Hk : 0 < k) by (unfold k; lia).
  pose proof (Z.pow_pos_nonneg 2 k ltac:(lia) ltac:(lia)) as Hp.
  assert (Hnum : exact_num (S754_finite s (Z.to_pos (Z.pos z * 2 ^ k))
                              (Z.pos (digits2_pos z) - 53))
                 = (if s then - (Z.pos z * 2 ^ k) else Z.pos z * 2 ^ k)).
  { unfold exact_num.
    replace (0 <=? Z.pos (digits2_pos z) - 53) with false
      by (symmetry; apply Z.leb_gt; lia).
    rewrite Z2Pos.id by lia. reflexivity. }
  assert (Hden : exact_den (S754_finite s (Z.to_pos (Z.pos z * 2 ^ k))
                              (Z.pos (digits2_pos z) - 53)) = 2 ^ k).
  { unfold exact_den.
    replace (0 <=? Z.pos (digits2_pos z) - 53) with false
      by (symmetry; apply Z.leb_gt; lia).
    f_equal. unfold k. lia. }
  rewrite Hnum, Hden.
  assert (Hq : (2 * (if s then - (Z.pos z * 2 ^ k) else Z.pos z * 2 ^ k)
                + 2 ^ k) / (2 * 2 ^ k)
               = if s then Z.neg z else Z.pos z).
  { destruct s.
    - symmetry. apply (Z.div_unique_pos _ _ _ (2 ^ k)); lia.
    - symmetry. apply (Z.div_unique_pos _ _ _ (2 ^ k)); lia. }
  rewrite Hq. destruct s; cbn [Z.eqb];
    apply (binary_round_small _ z Hd).
Qed.

Lemma SFcompare_positive (m1 m2 : positive) (e1 e2 : Z) :
  SFcompare (S754_finite false m1 e1) (S754_finite false m2 e2) =
  Some match e1 ?= e2 with
       | Lt => Lt
       | Gt => Gt
       | Eq => (m1 ?= m2)%positive
       end.
Proof.
  cbn [SFcompare]. destruct (e1 ?= e2); reflexivity.
Qed.

Lemma factorialFn_large_double (x : number) :
  x = S754_infinity false \/
  (exists m e, x = S754_finite false m e /\ -45 < e) \/
  (exists m, x = S754_finite false m (-45) /\ (170 * 2 ^ 45 < m)%positive) ->
  Math_round x = x ->
  factorialFn x = Infinity.
Proof.
  intros Hx Hr. unfold factorialFn. rewrite Hr.
  change (num_of_Z 170) with (S754_finite false 5981343255101440 (-45)).
  unfold one. change (num_of_Z 1) with (S754_finite false 4503599627370496 (-52)).
  destruct Hx as [->|[(m & e & -> & He)|(m & -> & Hm)]].
  - reflexivity.
  - unfold num_ltb, num_eqb, SFltb, SFeqb, zero.
    rewrite !SFcompare_positive. cbn [SFcompare orb].
    replace (e ?= -52) with Gt by (symmetry; apply Z.compare_gt_iff; lia).
    replace (-45 ?= e) with Lt by (symmetry; apply Z.compare_lt_iff; lia).
    reflexivity.
  - unfold num_ltb, num_eqb, SFltb, SFeqb, zero.
    rewrite !SFcompare_positive. cbn [SFcompare orb].
    change (-45 ?= -52) with Gt. change (-45 ?= -45) with Eq. cbv iota.
    assert (Hc : (5981343255101440 ?= m)%positive = Lt) by exact Hm.
    rewrite Hc. reflexivity.
Qed.

(** The factorial of every integer above 170 is reported as Infinity,
    however many digits the integer has. *)
Lemma factorialFn_above_170 (n : Z) :
  170 < n -> factorialFn (num_of_Z n) = Infinity.
Proof.
  intros Hn. destruct n as [|p|p]; try lia.
  destruct (Z_le_gt_dec (Z.pos (digits2_pos p)) 53) as [Hd|Hd].
  - rewrite (num_of_Z_small (Z.pos p)) by (cbn [Zdigits2]; lia).
    cbn [Z.ltb Z.compare Z.abs Z.to_pos].
    apply factorialFn_large_double; [|now apply Math_round_small].
    pose proof (digits2_pos_bounds p) as [Hlo Hhi].
    unfold small_double.
    destruct (Z.eq_dec (Z.pos (digits2_pos p)) 8) as [H8|H8].
    + right; right. rewrite H8. change (8 - 53) with (-45).
      eexists; split; [reflexivity|].
      change (53 - 8) with 45.
      change (Z.pos (170 * 2 ^ 45) < Z.pos (Z.to_pos (Z.pos p * 2 ^ 45))).
      rewrite Z2Pos.id by lia. lia.
    + right; left. do 2 eexists; split; [reflexivity|].
      assert (8 <= Z.pos (digits2_pos p)); [|lia].
      destruct (Z_lt_le_dec (Z.pos (digits2_pos p)) 8) as [Hlt|]; [|lia].
      exfalso.
      assert (2 ^ Z.pos (digits2_pos p) <= 2 ^ 7)
        by (apply Z.pow_le_mono_r; lia).
      change (2 ^ 7) with 128 in *. lia.
  - destruct (num_of_Z_large p) as [H|(m & e & H & He)]; [lia| |]; rewrite H.
    + reflexivity.
    + apply factorialFn_large_double.
      * right; left. exists m, e. split; [reflexivity|lia].
      * unfold Math_round.
        replace (0 <=? e) with true by (symmetry; apply Z.leb_le; lia).
        reflexivity.
Qed.

Local Close Scope Z_scope.

(** ** Decimal digits *)

Lemma value_of_digits_snoc (ds : jsstring) (c : char) :
  value_of_digits (ds ++ [c]) = (10 * value_of_digits ds + (c - 48))%N.
Proof. unfold value_of_digits. now rewrite fold_left_app. Qed.

Lemma digits_fuel_spec (fuel : nat) (n : N) (acc : jsstring) :
  (n < 2 ^ N.of_nat fuel)%N -> (0 < fuel)%nat ->
  exists ds,
    digits_fuel fuel n acc = ds ++ acc /\
    value_of_digits ds = n /\
    forallb is_digit ds = true /\
    (exists d rest, ds = d :: rest /\ (n = 0%N -> rest = []) /\
                    (n <> 0%N -> d <> 48%N)).
Proof.
  revert n acc. induction fuel as [|f IH]; intros n acc Hn Hf; [lia|].
  cbn [digits_fuel].
  assert (Hmod : (n mod 10 < 10)%N) by (apply N.mod_lt; lia).
  assert (Hdm : n = (10 * (n / 10) + n mod 10)%N) by (apply N.div_mod; lia).
  remember (n mod 10)%N as r eqn:Hr. remember (n / 10)%N as q eqn:Hq'.
  assert (Hdig : is_digit (48 + r)%N = true).
  { unfold is_digit. apply andb_true_iff. split; apply N.leb_le; lia. }
  destruct (q =? 0)%N eqn:Hq.
  - apply N.eqb_eq in Hq.
    exists [(48 + r)%N]. repeat split.
    + unfold value_of_digits. cbn [fold_left]. lia.
    + cbn [forallb]. now rewrite Hdig.
    + exists (48 + r)%N, []. repeat split. lia.
  - apply N.eqb_neq in Hq.
    assert (Hf' : (0 < f)%nat).
    { destruct f; [|lia]. exfalso. change (2 ^ N.of_nat 1)%N with 2%N in Hn.
      lia. }
    assert (Hn' : (q < 2 ^ N.of_nat f)%N).
    { replace (N.of_nat (S f)) with (N.succ (N.of_nat f)) in Hn by lia.
      rewrite N.pow_succ_r' in Hn. lia. }
    destruct (IH q ((48 + r)%N :: acc) Hn' Hf')
      as (ds & Hds & Hval & Hall & d & rest & Hshape & _ & Hd).
    exists (ds ++ [(48 + r)%N]). repeat split.
    + rewrite Hds, <- app_assoc. reflexivity.
    + rewrite value_of_digits_snoc, Hval. lia.
    + rewrite forallb_app, Hall. cbn [forallb]. now rewrite Hdig.
    + exists d, (rest ++ [(48 + r)%N]). rewrite Hshape.
      repeat split.
      * intros ->. lia.
      * intros _. now apply Hd.
Qed.

Lemma digits_of_N_spec (n : N) :
  value_of_digits (digits_of_N n) = n /\
  forallb is_digit (digits_of_N n) = true /\
  exists d rest, digits_of_N n = d :: rest /\ (n = 0%N -> rest = []) /\
                 (n <> 0%N -> d <> 48%N).
Proof.
  unfold digits_of_N.
  destruct (digits_fuel_spec (S (N.to_nat (N.log2 n))) n [])
    as (ds & Hds & H); [|lia|].
  - replace (N.of_nat (S (N.to_nat (N.log2 n)))) with (N.succ (N.log2 n))
      by lia.
    destruct n as [|p]; [reflexivity|]. apply N.log2_spec. lia.
  - rewrite Hds, app_nil_r. exact H.
Qed.

Lemma take_digits_all (ds : jsstring) :
  forallb is_digit ds = true -> take_digits ds = (ds, []).
Proof.
  induction ds as [|c ds IH]; [reflexivity|]. cbn [forallb take_digits].
  intros H. apply andb_true_iff in H as [Hc Hds].
  now rewrite Hc, IH.
Qed.

Lemma number_of_text_digits (n : N) :
  number_of_text (digits_of_N n) = Some (num_of_Z (Z.of_N n)).
Proof.
  destruct (digits_of_N_spec n) as (Hval & Hall & d & rest & Hshape & H0 & Hd).
  unfold number_of_text. rewrite (take_digits_all _ Hall).
  rewrite app_nil_r, Hval. cbn [length].
  assert (Hnum : num_of_decimal (Z.of_N n) (- Z.of_nat 0) = num_of_Z (Z.of_N n)).
  { unfold num_of_decimal. cbn. now rewrite Z.mul_1_r. }
  rewrite Hnum, Hshape.
  replace (has_leading_zero (d :: rest)) with false; [reflexivity|].
  symmetry. destruct rest as [|c rest]; [reflexivity|]. cbn [has_leading_zero].
  apply N.eqb_neq, Hd. intros Hn. specialize (H0 Hn). discriminate.
Qed.

(** ** The rewriting of [n!] *)

Lemma replace_char_absent (x : char) (rep s : jsstring) :
  includes_char x s = false -> replace_char x rep s = s.
Proof.
  unfold includes_char, replace_char.
  induction s as [|c s IH]; [reflexivity|]. cbn [existsb flat_map].
  intros H. apply orb_false_iff in H as [Hc Hs].
  rewrite N.eqb_sym, Hc. cbn [app]. now rewrite IH.
Qed.

Lemma replace_all_absent (c : char) (pat rep s : jsstring) :
  includes_char c s = false -> replace_all (c :: pat) rep s = s.
Proof.
  unfold includes_char, replace_all.
  induction s as [|x s IH]; [reflexivity|]. cbn [existsb replace_all_from].
  intros H. apply orb_false_iff in H as [Hc Hs].
  cbn [starts_with]. rewrite Hc. cbn [andb]. now rewrite IH.
Qed.

Lemma plain_excludes (c : char) (s : jsstring) :
  forallb plain_char s = true -> plain_char c = false ->
  includes_char c s = false.
Proof.
  unfold includes_char. intros Hs Hc.
  induction s as [|x s IH]; [reflexivity|]. cbn [forallb existsb] in *.
  apply andb_true_iff in Hs as [Hx Hs]. rewrite (IH Hs), orb_false_r.
  apply N.eqb_neq. intros ->. congruence.
Qed.

Lemma replace_bare_e_plain (prev : option char) (s : jsstring) :
  forallb plain_char s = true -> replace_bare_e prev s = s.
Proof.
  revert prev. induction s as [|c s IH]; intros prev H; [reflexivity|].
  cbn [forallb replace_bare_e] in *. apply andb_true_iff in H as [Hc Hs].
  replace (N.eqb c 101) with false.
  - cbn [andb]. now rewrite IH.
  - symmetry. apply N.eqb_neq. intros ->. discriminate.
Qed.

Lemma rewrite_factorial_digits (ds run rest : jsstring) :
  forallb is_digit ds = true ->
  rewrite_factorial run (ds ++ rest) = rewrite_factorial (run ++ ds) rest.
Proof.
  revert run. induction ds as [|c ds IH]; intros run H.
  - now rewrite app_nil_r.
  - cbn [forallb app rewrite_factorial] in *.
    apply andb_true_iff in H as [Hc Hds].
    rewrite Hc, IH, <- app_assoc by exact Hds. reflexivity.
Qed.

Lemma digits_plain (ds : jsstring) :
  forallb is_digit ds = true -> forallb plain_char (ds ++ u "!") = true.
Proof.
  intros H. rewrite forallb_app. apply andb_true_iff. split; [|reflexivity].
  rewrite forallb_forall in *. intros c Hc. unfold plain_char.
  now rewrite (H c Hc).
Qed.

Lemma count_char_app (c : char) (a b : jsstring) :
  count_char c (a ++ b) = (count_char c a + count_char c b)%nat.
Proof. unfold count_char. now rewrite filter_app, length_app. Qed.

Lemma count_char_absent (c : char) (s : jsstring) :
  includes_char c s = false -> count_char c s = 0%nat.
Proof.
  unfold includes_char, count_char.
  induction s as [|x s IH]; [reflexivity|]. cbn [existsb filter].
  intros H. apply orb_false_iff in H as [Hc Hs]. rewrite Hc. now apply IH.
Qed.

Lemma digits_exclude (c : char) (ds : jsstring) :
  forallb is_digit ds = true -> is_digit c = false ->
  includes_char c ds = false.
Proof.
  unfold includes_char. intros Hs Hc.
  induction ds as [|x s IH]; [reflexivity|]. cbn [forallb existsb] in *.
  apply andb_true_iff in Hs as [Hx Hs]. rewrite (IH Hs), orb_false_r.
  apply N.eqb_neq. intros ->. congruence.
Qed.

Lemma rewrite_factorial_bang (run : jsstring) :
  run <> [] ->
  rewrite_factorial run (u "!") = u "factorial(" ++ run ++ u ")".
Proof.
  intros Hne. destruct run as [|c run]; [congruence|].
  change (u "!") with [33%N]. cbn [rewrite_factorial].
  change (is_digit 33) with false. cbn [N.eqb Pos.eqb is_empty negb andb].
  now rewrite app_nil_r.
Qed.

Lemma close_parens_factorial (ds : jsstring) :
  forallb is_digit ds = true ->
  close_parens (u "factorial(" ++ ds ++ u ")") = u "factorial(" ++ ds ++ u ")".
Proof.
  intros Hds. unfold close_parens. rewrite !count_char_app.
  rewrite !(count_char_absent _ ds)
    by (apply digits_exclude; [exact Hds | reflexivity]).
  change (count_char 40 (u "factorial(")) with 1%nat.
  change (count_char 41 (u "factorial(")) with 0%nat.
  change (count_char 40 (u ")")) with 0%nat.
  change (count_char 41 (u ")")) with 1%nat.
  cbn [Nat.add Nat.sub repeat]. apply app_nil_r.
Qed.

Lemma transform_factorial (ds : jsstring) :
  forallb is_digit ds = true -> ds <> [] ->
  transform (ds ++ u "!") = u "factorial(" ++ ds ++ u ")".
Proof.
  intros Hds Hne. pose proof (digits_plain ds Hds) as Hp.
  unfold transform.
  rewrite (replace_char_absent ch_pi)
    by (apply plain_excludes; [exact Hp | reflexivity]).
  rewrite replace_bare_e_plain by exact Hp.
  change (u "sin(") with (115%N :: u "in(").
  change (u "cos(") with (99%N :: u "os(").
  change (u "tan(") with (116%N :: u "an(").
  change (u "log(") with (108%N :: u "og(").
  change (u "ln(") with (108%N :: u "n(").
  change (u "sqrt(") with (115%N :: u "qrt(").
  change (u "abs(") with (97%N :: u "bs(").
  rewrite (replace_all_absent 115%N (u "in("))
    by (apply plain_excludes; [exact Hp | reflexivity]).
  rewrite (replace_all_absent 99%N (u "os("))
    by (apply plain_excludes; [exact Hp | reflexivity]).
  rewrite (replace_all_absent 116%N (u "an("))
    by (apply plain_excludes; [exact Hp | reflexivity]).
  rewrite (replace_all_absent 108%N (u "og("))
    by (apply plain_excludes; [exact Hp | reflexivity]).
  rewrite (replace_all_absent 108%N (u "n("))
    by (apply plain_excludes; [exact Hp | reflexivity]).
  rewrite (replace_all_absent 115%N (u "qrt("))
    by (apply plain_excludes; [exact Hp | reflexivity]).
  rewrite (replace_all_absent 97%N (u "bs("))
    by (apply plain_excludes; [exact Hp | reflexivity]).
  rewrite (replace_char_absent 94%N)
    by (apply plain_excludes; [exact Hp | reflexivity]).
  rewrite rewrite_factorial_digits by exact Hds.
  cbn [app]. rewrite rewrite_factorial_bang by exact Hne.
  now apply close_parens_factorial.
Qed.

Lemma remove_math_absent (s : jsstring) :
  includes_char 77 s = false -> remove_math_from 0 s = s.
Proof.
  unfold includes_char.
  induction s as [|c s IH]; [reflexivity|]. cbn [existsb remove_math_from].
  intros H. apply orb_false_iff in H as [Hc Hs].
  change (u "Math.") with (77%N :: u "ath."). cbn [starts_with].
  rewrite Hc. cbn [andb]. now rewrite IH.
Qed.

Lemma includes_char_app (c : char) (a b : jsstring) :
  includes_char c (a ++ b) = includes_char c a || includes_char c b.
Proof. unfold includes_char. apply existsb_app. Qed.

Lemma sanitize_factorial (ds : jsstring) :
  forallb is_digit ds = true ->
  sanitize_ok (u "factorial(" ++ ds ++ u ")") = true.
Proof.
  intros Hds. unfold sanitize_ok.
  rewrite remove_math_absent.
  2:{ rewrite !includes_char_app.
      rewrite (digits_exclude 77 ds Hds) by reflexivity. reflexivity. }
  assert (Hr : replace_all (u "factorial") [] (u "factorial(" ++ ds ++ u ")")
               = u "(" ++ ds ++ u ")").
  { change (u "factorial(" ++ ds ++ u ")")
      with (u "factorial" ++ 40%N :: ds ++ u ")").
    unfold replace_all.
    change (replace_all_from (u "factorial") [] 0
              (u "factorial" ++ 40%N :: ds ++ u ")"))
      with (40%N :: replace_all_from (u "factorial") [] 0 (ds ++ u ")")).
    change (u "factorial") with (102%N :: u "actorial").
    fold (replace_all (102%N :: u "actorial") [] (ds ++ u ")")).
    rewrite replace_all_absent; [reflexivity|].
    rewrite includes_char_app.
    rewrite (digits_exclude 102 ds Hds) by reflexivity. reflexivity. }
  rewrite Hr, !forallb_app. cbn [u map list_ascii_of_string forallb].
  rewrite andb_true_r. cbn [andb].
  change (allowed_char (code "(")) with true.
  change (allowed_char (code ")")) with true.
  cbn [andb]. rewrite andb_true_r.
  rewrite forallb_forall in *. intros c Hc. unfold allowed_char.
  now rewrite (Hds c Hc).
Qed.

(** ** Lexing and parsing [factorial(n)] *)

Lemma option_map_app_nil (A : Type) (o : option (list A)) :
  option_map (app []) o = o.
Proof. now destruct o. Qed.

Lemma lex_digits (ds acc rest : jsstring) :
  forallb is_digit ds = true ->
  lex_from (InNum acc) (ds ++ rest) = lex_from (InNum (acc ++ ds)) rest.
Proof.
  revert acc. induction ds as [|c ds IH]; intros acc H.
  - now rewrite app_nil_r.
  - cbn [forallb app lex_from lex_step] in *.
    apply andb_true_iff in H as [Hc Hds].
    rewrite Hc, option_map_app_nil, IH, <- app_assoc by exact Hds.
    reflexivity.
Qed.

Lemma lex_wrapped_factorial (n : N) :
  lex (u "(" ++ (u "factorial(" ++ digits_of_N n ++ u ")") ++ u ")") =
  Some [TLParen; TIdent (u "factorial"); TLParen;
        TNum (num_of_Z (Z.of_N n)); TRParen; TRParen].
Proof.
  destruct (digits_of_N_spec n) as (_ & Hall & d & rest & Hshape & _).
  pose proof (number_of_text_digits n) as Hnum.
  rewrite Hshape in *. cbn [forallb] in Hall.
  apply andb_true_iff in Hall as [Hd Hrest].
  unfold lex.
  cbn. rewrite !option_map_app_nil.
  unfold fresh. rewrite Hd. cbn [orb]. rewrite option_map_app_nil.
  rewrite <- app_assoc. rewrite lex_digits by exact Hrest. cbn [app].
  cbn [lex_from lex_step].
  change (is_digit 41) with false. change (is_letter 41) with false.
  change (N.eqb 41 46) with false. cbn [andb].
  unfold flush_then_fresh. cbn [flush].
  replace (str_eqb (d :: rest) (u ".")) with false.
  2:{ symmetry. apply str_eqb_neq. intros Heq. injection Heq as -> _.
      discriminate. }
  rewrite Hnum. cbn [option_map]. reflexivity.
Qed.

Lemma parse_factorial_call (x : number) :
  parse [TLParen; TIdent (u "factorial"); TLParen; TNum x; TRParen; TRParen] =
  Some (ECall FFactorial (ENum x)).
Proof. reflexivity. Qed.

(** The text [n!] evaluates to what [factorial] returns on the double
    nearest to [n]. *)
Lemma evaluate_factorial_literal (E : Engine) (n : N) :
  evaluateExpression E (digits_of_N n ++ u "!") =
  Returns (VNum (factorialFn (num_of_Z (Z.of_N n)))).
Proof.
  destruct (digits_of_N_spec n) as (_ & Hall & d & rest & Hshape & _).
  unfold evaluateExpression.
  rewrite transform_factorial by (try exact Hall; rewrite Hshape; discriminate).
  rewrite sanitize_factorial by exact Hall.
  unfold run_function. rewrite lex_wrapped_factorial, parse_factorial_call.
  reflexivity.
Qed.

(** ** The factorial of a literal *)

Lemma number_same_eq (x y : number) : number_same x y = true -> x = y.
Proof.
  destruct x as [s|s| |s m e], y as [t|t| |t n f]; cbn [number_same];
    try discriminate; try reflexivity.
  - intros H. apply eqb_prop in H. now subst.
  - intros H. apply eqb_prop in H. now subst.
  - intros H. apply andb_true_iff in H as [H He].
    apply andb_true_iff in H as [Hs Hm].
    apply eqb_prop in Hs. apply Pos.eqb_eq in Hm. apply Z.eqb_eq in He.
    now subst.
Qed.

(** Below 171 the script's function is checked value by value. *)
Lemma factorial_table :
  forallb (fun k => number_same (factorialFn (num_of_Z (Z.of_nat k)))
                                (factorial_value (N.of_nat k)))
          (seq 0 171) = true.
Proof. vm_compute. reflexivity. Qed.

Lemma factorial_exact_table :
  forallb (fun k => match to_integer (factorial_value (N.of_nat k)) with
                    | Some z => Z.eqb z (fact_Z k)
                    | None => false
                    end)
          (seq 0 23) = true.
Proof. vm_compute. reflexivity. Qed.

Lemma factorial_finite_table :
  forallb (fun k => isFinite (factorial_value (N.of_nat k))) (seq 0 171) = true.
Proof. vm_compute. reflexivity. Qed.

Lemma factorialFn_value (n : N) :
  factorialFn (num_of_Z (Z.of_N n)) = factorial_value n.
Proof.
  destruct (N.leb_spec n 170) as [Hle|Hgt].
  - pose proof factorial_table as H. rewrite forallb_forall in H.
    specialize (H (N.to_nat n)). rewrite N2Nat.id in H.
    replace (Z.of_nat (N.to_nat n)) with (Z.of_N n) in H by lia.
    apply number_same_eq, H, in_seq. lia.
  - unfold factorial_value.
    replace (n <=? 1)%N with false by (symmetry; apply N.leb_gt; lia).
    replace (170 <? n)%N with true by (symmetry; apply N.ltb_lt; lia).
    apply factorialFn_above_170. lia.
Qed.

Lemma factorial_value_exact (n : N) :
  (n <= 22)%N ->
  to_integer (factorial_value n) = Some (fact_Z (N.to_nat n)).
Proof.
  intros Hle. pose proof factorial_exact_table as H.
  rewrite forallb_forall in H. specialize (H (N.to_nat n)).
  rewrite N2Nat.id in H.
  destruct (to_integer (factorial_value n)) as [z|].
  - f_equal. apply Z.eqb_eq, H, in_seq. lia.
  - discriminate H. apply in_seq. lia.
Qed.

Lemma factorial_value_finite (n : N) :
  (n <= 170)%N -> isFinite (factorial_value n) = true.
Proof.
  intros Hle. pose proof factorial_finite_table as H.
  rewrite forallb_forall in H. specialize (H (N.to_nat n)).
  rewrite N2Nat.id in H. apply H, in_seq. lia.
Qed.

Lemma factorial_rounded_table :
  forallb (fun k => match to_integer (factorial_value (N.of_nat k)) with
                    | Some z => negb (Z.eqb z (fact_Z k))
                    | None => false
                    end)
          (seq 23 148) = true.
Proof. vm_compute. reflexivity. Qed.

Lemma factorial_value_rounded (n : N) :
  (22 < n)%N -> (n <= 170)%N ->
  option_map (Z.eqb (fact_Z (N.to_nat n))) (to_integer (factorial_value n))
  = Some false.
Proof.
  intros Hlo Hhi. pose proof factorial_rounded_table as H.
  rewrite forallb_forall in H. specialize (H (N.to_nat n)).
  rewrite N2Nat.id in H.
  assert (Hin : In (N.to_nat n) (seq 23 148)) by (apply in_seq; lia).
  specialize (H Hin).
  destruct (to_integer (factorial_value n)) as [z|]; [|discriminate].
  cbn [option_map]. apply negb_true_iff in H. now rewrite Z.eqb_sym, H.
Qed.

(** C2 (as amended).  A nonnegative integer literal followed by [!]
    evaluates to 1 when the integer is 0 or 1, to Infinity when it is above
    170, and otherwise to the product [2 * 3 * ... * n] taken by iteration
    in double arithmetic; that product is finite up to 170, equal to the
    factorial up to 22, and from 23 to 170 an integer other than the
    factorial.  [5!] is 120 and [171!] is Infinity. *)
Theorem factorial_of_literal (E : Engine) (n : N) :
  evaluateExpression E (digits_of_N n ++ u "!") =
    Returns (VNum (factorial_value n)) /\
  (if (n <=? 170)%N then isFinite (factorial_value n) = true
   else factorial_value n = Infinity) /\
  (if (n <=? 22)%N
   then to_integer (factorial_value n) = Some (fact_Z (N.to_nat n))
   else if (n <=? 170)%N
   then option_map (Z.eqb (fact_Z (N.to_nat n)))
          (to_integer (factorial_value n)) = Some false
   else to_integer (factorial_value n) = None) /\
  evaluateExpression E (u "5!") = Returns (VNum (num_of_Z 120)) /\
  evaluateExpression E (u "171!") = Returns (VNum Infinity).
Proof.
  assert (Hinf : (170 < n)%N -> factorial_value n = Infinity).
  { intros Hgt. unfold factorial_value.
    replace (n <=? 1)%N with false by (symmetry; apply N.leb_gt; lia).
    replace (170 <? n)%N with true by (symmetry; apply N.ltb_lt; lia).
    reflexivity. }
  split; [|split; [|split; [|split]]].
  - rewrite evaluate_factorial_literal. now rewrite factorialFn_value.
  - destruct (N.leb_spec n 170) as [Hle|Hgt].
    + now apply factorial_value_finite.
    + now apply Hinf.
  - destruct (N.leb_spec n 22) as [Hle|Hgt].
    + now apply factorial_value_exact.
    + destruct (N.leb_spec n 170) as [Hle'|Hgt'].
      * now apply factorial_value_rounded.
      * now rewrite Hinf.
  - change (u "5!") with (digits_of_N 5 ++ u "!").
    rewrite evaluate_factorial_literal, factorialFn_value.
    vm_compute. reflexivity.
  - change (u "171!") with (digits_of_N 171 ++ u "!").
    rewrite evaluate_factorial_literal, factorialFn_value. reflexivity.
Qed.

(** C2 (as stated) fails at [23!]: the value returned is the double
    25852016738884978212864, while 23! is 25852016738884976640000. *)
Lemma factorial_23_rounded :
  evaluateExpression sample_engine (u "23!") =
    Returns (VNum (S754_finite false 6163601097794766 22)) /\
  to_integer (S754_finite false 6163601097794766 22) =
    Some 25852016738884978212864%Z /\
  fact_Z 23 = 25852016738884976640000%Z.
Proof. vm_compute. repeat split. Qed.

(** ** The factorial under a minus sign *)

Local Open Scope Z_scope.

Lemma add_one_table :
  forallb (fun k => number_same (num_add (num_of_Z (Z.of_nat k)) one)
                                (num_of_Z (Z.of_nat (S k))))
          (seq 2 171) = true.
Proof. vm_compute. reflexivity. Qed.

Lemma add_one_small (k : nat) :
  (2 <= k <= 172)%nat ->
  num_add (num_of_Z (Z.of_nat k)) one = num_of_Z (Z.of_nat (S k)).
Proof.
  intros Hk. pose proof add_one_table as H. rewrite forallb_forall in H.
  apply number_same_eq, H, in_seq. lia.
Qed.

(** The loop multiplies by 2, 3, ... and stops somewhere. *)
Lemma factorial_loop_product (n : number) (fuel k : nat) (r : number) :
  (2 <= k)%nat -> (k + fuel <= 172)%nat ->
  exists j, (j <= fuel)%nat /\
    factorial_loop fuel (num_of_Z (Z.of_nat k)) n r =
    fold_left (fun acc i => num_mul acc (num_of_Z (Z.of_nat i))) (seq k j) r.
Proof.
  revert k r. induction fuel as [|f IH]; intros k r Hk Hf.
  - exists 0%nat. split; [lia|reflexivity].
  - cbn [factorial_loop].
    destruct (num_leb (num_of_Z (Z.of_nat k)) n).
    + rewrite add_one_small by lia.
      destruct (IH (S k) (num_mul r (num_of_Z (Z.of_nat k)))) as (j & Hj & Hl);
        [lia|lia|].
      exists (S j). split; [lia|]. rewrite Hl. reflexivity.
    + exists 0%nat. split; [lia|reflexivity].
Qed.

Lemma float_product_table :
  forallb (fun j => negb (isNaN (float_product (S j)))) (seq 0 171) = true.
Proof. vm_compute. reflexivity. Qed.

Lemma factorial_loop_not_NaN (n : number) :
  isNaN (factorial_loop 170 (num_of_Z 2) n one) = false.
Proof.
  destruct (factorial_loop_product n 170 2 one) as (j & Hj & Hl);
    [lia|lia|].
  change (Z.of_nat 2) with 2 in Hl. rewrite Hl.
  pose proof float_product_table as H. rewrite forallb_forall in H.
  specialize (H j). apply negb_true_iff. rewrite <- H by (apply in_seq; lia).
  unfold float_product. cbn [Nat.sub]. now rewrite Nat.sub_0_r.
Qed.

(** [factorial] returns NaN exactly when its rounded argument is below
    zero. *)
Lemma factorialFn_NaN (x : number) :
  isNaN (factorialFn x) = num_ltb (Math_round x) zero.
Proof.
  unfold factorialFn. cbv zeta.
  destruct (num_ltb (Math_round x) zero); [reflexivity|].
  destruct (_ || _)%bool; [reflexivity|].
  destruct (num_ltb (num_of_Z 170) _); [reflexivity|].
  apply factorial_loop_not_NaN.
Qed.

Lemma replace_char_cons_other (c : char) (rep : jsstring) (x : char)
  (s : jsstring) :
  N.eqb x c = false ->
  replace_char c rep (x :: s) = x :: replace_char c rep s.
Proof. intros H. unfold replace_char. cbn [flat_map]. now rewrite H. Qed.

Lemma replace_all_cons_other (p0 : char) (pat rep : jsstring) (x : char)
  (s : jsstring) :
  N.eqb p0 x = false ->
  replace_all (p0 :: pat) rep (x :: s) = x :: replace_all (p0 :: pat) rep s.
Proof.
  intros H. unfold replace_all. cbn [replace_all_from starts_with].
  now rewrite H.
Qed.

Lemma replace_bare_e_cons_other (x : char) (s : jsstring) :
  N.eqb x 101 = false -> is_letter x = false ->
  replace_bare_e None (x :: s) = x :: replace_bare_e None s.
Proof.
  intros He Hl. cbn [replace_bare_e]. rewrite He. cbn [andb].
  destruct s as [|c s]; [reflexivity|]. cbn [replace_bare_e is_letter_opt].
  now rewrite Hl.
Qed.

Lemma rewrite_factorial_cons_other (x : char) (s : jsstring) :
  is_digit x = false -> N.eqb x 33 = false ->
  rewrite_factorial [] (x :: s) = x :: rewrite_factorial [] s.
Proof. intros Hd Hb. cbn [rewrite_factorial]. now rewrite Hd, Hb. Qed.

Lemma close_parens_cons_other (x : char) (s : jsstring) :
  N.eqb 40 x = false -> N.eqb 41 x = false ->
  close_parens (x :: s) = x :: close_parens s.
Proof.
  intros H0 H1. unfold close_parens, count_char. cbn [filter].
  now rewrite H0, H1.
Qed.

(** A leading minus sign passes through the rewriting untouched. *)
Lemma transform_minus (s : jsstring) :
  transform (u "-" ++ s) = u "-" ++ transform s.
Proof.
  unfold transform. cbv zeta.
  change (u "-" ++ s) with (code "-" :: s).
  change (u "sin(") with (115%N :: u "in(").
  change (u "cos(") with (99%N :: u "os(").
  change (u "tan(") with (116%N :: u "an(").
  change (u "log(") with (108%N :: u "og(").
  change (u "ln(") with (108%N :: u "n(").
  change (u "sqrt(") with (115%N :: u "qrt(").
  change (u "abs(") with (97%N :: u "bs(").
  rewrite (replace_char_cons_other ch_pi) by reflexivity.
  rewrite replace_bare_e_cons_other by reflexivity.
  rewrite !replace_all_cons_other by reflexivity.
  rewrite (replace_char_cons_other 94) by reflexivity.
  rewrite rewrite_factorial_cons_other by reflexivity.
  rewrite close_parens_cons_other by reflexivity.
  reflexivity.
Qed.

Lemma sanitize_minus (t : jsstring) :
  sanitize_ok (u "-" ++ t) = sanitize_ok t.
Proof.
  unfold sanitize_ok. change (u "-" ++ t) with (code "-" :: t).
  cbn [remove_math_from].
  change (u "Math.") with (77%N :: u "ath."). cbn [starts_with].
  change (N.eqb 77 (code "-")) with false. cbn [andb].
  change (u "factorial") with (102%N :: u "actorial").
  rewrite replace_all_cons_other by reflexivity.
  cbn [forallb]. reflexivity.
Qed.

Lemma lex_minus_factorial (n : N) :
  lex (u "(" ++ (u "-" ++ u "factorial(" ++ digits_of_N n ++ u ")") ++ u ")") =
  Some [TLParen; TMinus; TIdent (u "factorial"); TLParen;
        TNum (num_of_Z (Z.of_N n)); TRParen; TRParen].
Proof.
  destruct (digits_of_N_spec n) as (_ & Hall & d & rest & Hshape & _).
  pose proof (number_of_text_digits n) as Hnum.
  rewrite Hshape in *. cbn [forallb] in Hall.
  apply andb_true_iff in Hall as [Hd Hrest].
  unfold lex.
  cbn. rewrite !option_map_app_nil.
  unfold fresh. rewrite Hd. cbn [orb]. rewrite option_map_app_nil.
  rewrite <- app_assoc. rewrite lex_digits by exact Hrest. cbn [app].
  cbn [lex_from lex_step].
  change (is_digit 41) with false. change (is_letter 41) with false.
  change (N.eqb 41 46) with false. cbn [andb].
  unfold flush_then_fresh. cbn [flush].
  replace (str_eqb (d :: rest) (u ".")) with false.
  2:{ symmetry. apply str_eqb_neq. intros Heq. injection Heq as -> _.
      discriminate. }
  rewrite Hnum. cbn [option_map]. reflexivity.
Qed.

Lemma evaluate_minus_factorial (E : Engine) (n : N) :
  transform (u "-" ++ digits_of_N n ++ u "!") =
    u "-factorial(" ++ digits_of_N n ++ u ")" /\
  evaluateExpression E (u "-" ++ digits_of_N n ++ u "!") =
    Returns (VNum (num_neg (factorial_value n))).
Proof.
  destruct (digits_of_N_spec n) as (_ & Hall & d & rest & Hshape & _).
  assert (Ht : transform (u "-" ++ digits_of_N n ++ u "!") =
               u "-" ++ u "factorial(" ++ digits_of_N n ++ u ")").
  { rewrite transform_minus, transform_factorial
      by (try exact Hall; rewrite Hshape; discriminate).
    reflexivity. }
  split; [exact Ht|].
  unfold evaluateExpression. rewrite Ht.
  rewrite sanitize_minus, sanitize_factorial by exact Hall.
  unfold run_function. rewrite lex_minus_factorial.
  cbn [parse]. rewrite <- factorialFn_value. reflexivity.
Qed.

Lemma factorial_value_not_NaN (n : N) :
  isNaN (num_neg (factorial_value n)) = false.
Proof.
  destruct (N.leb_spec n 170) as [Hle|Hgt].
  - pose proof (factorial_value_finite n Hle) as Hf.
    destruct (factorial_value n); try discriminate; reflexivity.
  - unfold factorial_value.
    replace (n <=? 1)%N with false by (symmetry; apply N.leb_gt; lia).
    replace (170 <? n)%N with true by (symmetry; apply N.ltb_lt; lia).
    reflexivity.
Qed.

Local Close Scope Z_scope.

(** C1 (as amended).  [-1!] is rewritten to [-factorial(1)] and
    evaluates to -1; committing it shows [-1], without the error mark, and
    keeps -1 as the answer.  For every nonnegative integer literal [n],
    [-n!] is rewritten to [-factorial(n)] and evaluates to minus the
    value of [n!], which is not NaN.  The function [factorial] itself
    returns NaN exactly when its argument, rounded, is below zero, as it
    is for -1. *)
Theorem minus_one_factorial (E : Engine) (now : jsstring) (s : state)
    (n : N) (x : number) :
  transform (u "-1!") = u "-factorial(1)" /\
  evaluateExpression E (u "-1!") = Returns (VNum (num_of_Z (-1))) /\
  resultEl (calculate E now (set_expression (u "-1!") s)) = u "-1" /\
  resultError (calculate E now (set_expression (u "-1!") s)) = false /\
  lastAnswer (calculate E now (set_expression (u "-1!") s)) =
    Some (num_of_Z (-1)) /\
  transform (u "-" ++ digits_of_N n ++ u "!") =
    u "-factorial(" ++ digits_of_N n ++ u ")" /\
  evaluateExpression E (u "-" ++ digits_of_N n ++ u "!") =
    Returns (VNum (num_neg (factorial_value n))) /\
  isNaN (num_neg (factorial_value n)) = false /\
  isNaN (factorialFn x) = num_ltb (Math_round x) zero /\
  factorialFn (num_of_Z (-1)) = NaN.
Proof.
  assert (He : evaluateExpression E (u "-1!") = Returns (VNum (num_of_Z (-1))))
    by (vm_compute; reflexivity).
  destruct (evaluate_minus_factorial E n) as [Ht Hv].
  split; [|split; [|split; [|split; [|split; [|split; [|split; [|split;
    [|split]]]]]]]].
  - vm_compute. reflexivity.
  - exact He.
  - unfold calculate; cbn [expression set_expression is_empty u map
                           list_ascii_of_string];
    change (code "-" :: code "1" :: code "!" :: nil) with (u "-1!");
    rewrite He; vm_compute; reflexivity.
  - unfold calculate; cbn [expression set_expression is_empty u map
                           list_ascii_of_string];
    change (code "-" :: code "1" :: code "!" :: nil) with (u "-1!");
    rewrite He; vm_compute; reflexivity.
  - unfold calculate; cbn [expression set_expression is_empty u map
                           list_ascii_of_string];
    change (code "-" :: code "1" :: code "!" :: nil) with (u "-1!");
    rewrite He; vm_compute; reflexivity.
  - exact Ht.
  - exact Hv.
  - apply factorial_value_not_NaN.
  - apply factorialFn_NaN.
  - vm_compute. reflexivity.
Qed.

(** C1 (as stated) fails: the value of [-1!] is the number -1, not NaN,
    and the commit shows [-1], not [Error]. *)
Lemma minus_one_factorial_is_a_number :
  evaluateExpression sample_engine (u "-1!") =
    Returns (VNum (S754_finite true 4503599627370496 (-52))) /\
  isNaN (S754_finite true 4503599627370496 (-52)) = false /\
  resultEl (calculate sample_engine (u "10:00:00 AM")
              (set_expression (u "-1!") initial)) = u "-1" /\
  resultError (calculate sample_engine (u "10:00:00 AM")
                 (set_expression (u "-1!") initial)) = false.
Proof. vm_compute. repeat split. Qed.

Local Open Scope Z_scope.

(** ** Integers below 2^53 as doubles *)

Lemma small_double_den (s : bool) (p : positive) :
  Z.pos (digits2_pos p) <= 53 ->
  exact_den (small_double s p) = 2 ^ (53 - Z.pos (digits2_pos p)).
Proof.
  intros Hd. unfold small_double, exact_den.
  destruct (0 <=? Z.pos (digits2_pos p) - 53) eqn:He.
  - apply Z.leb_le in He. replace (53 - Z.pos (digits2_pos p)) with 0 by lia.
    reflexivity.
  - f_equal. lia.
Qed.

Lemma small_double_num (s : bool) (p : positive) :
  Z.pos (digits2_pos p) <= 53 ->
  exact_num (small_double s p) =
  (if s then - Z.pos p else Z.pos p) * 2 ^ (53 - Z.pos (digits2_pos p)).
Proof.
  intros Hd. unfold small_double, exact_num.
  pose proof (Z.pow_pos_nonneg 2 (53 - Z.pos (digits2_pos p))
                ltac:(lia) ltac:(lia)) as Hp.
  rewrite Z2Pos.id by lia.
  destruct (0 <=? Z.pos (digits2_pos p) - 53) eqn:He.
  - apply Z.leb_le in He.
    replace (Z.pos (digits2_pos p) - 53) with 0 by lia.
    replace (53 - Z.pos (digits2_pos p)) with 0 by lia.
    destruct s; lia.
  - destruct s; lia.
Qed.

Lemma small_double_integer (s : bool) (p : positive) :
  Z.pos (digits2_pos p) <= 53 ->
  to_integer (small_double s p) = Some (if s then Z.neg p else Z.pos p).
Proof.
  intros Hd. unfold to_integer. unfold small_double at 1.
  rewrite small_double_num, small_double_den by exact Hd.
  pose proof (Z.pow_pos_nonneg 2 (53 - Z.pos (digits2_pos p))
                ltac:(lia) ltac:(lia)) as Hp.
  rewrite Z.mod_mul, Z.div_mul by lia. cbn [Z.eqb].
  now destruct s.
Qed.

Lemma digits2_pos_mono (p q : positive) :
  (p <= q)%positive -> Z.pos (digits2_pos p) <= Z.pos (digits2_pos q).
Proof.
  intros Hpq.
  pose proof (digits2_pos_bounds p) as [Hp _].
  pose proof (digits2_pos_bounds q) as [_ Hq].
  destruct (Z_le_gt_dec (Z.pos (digits2_pos p)) (Z.pos (digits2_pos q)))
    as [H|H]; [exact H|exfalso].
  assert (2 ^ Z.pos (digits2_pos q) <= 2 ^ (Z.pos (digits2_pos p) - 1))
    by (apply Z.pow_le_mono_r; lia).
  lia.
Qed.

(** Doubles of integers are ordered as the integers. *)
Lemma SFcompare_small_double (p q : positive) :
  Z.pos (digits2_pos p) <= 53 -> Z.pos (digits2_pos q) <= 53 ->
  SFcompare (small_double false p) (small_double false q) =
  Some (p ?= q)%positive.
Proof.
  intros Hp Hq. unfold small_double. rewrite SFcompare_positive. f_equal.
  pose proof (digits2_pos_bounds p) as [Hp1 Hp2].
  pose proof (digits2_pos_bounds q) as [Hq1 Hq2].
  destruct (Z.compare_spec (Z.pos (digits2_pos p) - 53)
                           (Z.pos (digits2_pos q) - 53)) as [He|He|He].
  - assert (Hd : Z.pos (digits2_pos p) = Z.pos (digits2_pos q)) by lia.
    rewrite Hd.
    pose proof (Z.pow_pos_nonneg 2 (53 - Z.pos (digits2_pos q))
                  ltac:(lia) ltac:(lia)) as Hpow.
    change ((?a ?= ?b)%positive) with (Z.pos a ?= Z.pos b).
    rewrite !Z2Pos.id by lia.
    destruct (Z.compare_spec (Z.pos p) (Z.pos q)) as [Hc|Hc|Hc].
    + rewrite Hc. apply Z.compare_refl.
    + apply Z.compare_lt_iff. nia.
    + apply Z.compare_gt_iff. nia.
  - symmetry. apply Pos.compare_lt_iff.
    destruct (Pos.lt_total p q) as [H|[H|H]]; [exact H| |]; exfalso.
    + subst. lia.
    + pose proof (digits2_pos_mono q p ltac:(lia)). lia.
  - symmetry. apply Pos.compare_gt_iff.
    destruct (Pos.lt_total p q) as [H|[H|H]]; [|subst; lia|exact H]; exfalso.
    pose proof (digits2_pos_mono p q ltac:(lia)). lia.
Qed.

Lemma digits2_below_2_53 (p : positive) :
  Z.pos p < 2 ^ 53 -> Z.pos (digits2_pos p) <= 53.
Proof.
  intros H. pose proof (digits2_pos_bounds p) as [Hlo _].
  destruct (Z_le_gt_dec (Z.pos (digits2_pos p)) 53) as [Hd|Hd]; [exact Hd|].
  exfalso.
  assert (2 ^ 53 <= 2 ^ (Z.pos (digits2_pos p) - 1))
    by (apply Z.pow_le_mono_r; lia).
  lia.
Qed.

(** A positive integer below 2^53 reads back as the double of [p] exactly
    when it is [p]. *)
Lemma roundtrips_integer (p : positive) (c t : Z) :
  Z.pos p < 2 ^ 53 -> 0 < c -> 0 <= t -> c * 10 ^ t < 2 ^ 53 ->
  roundtrips (small_double false p) c t = (c * 10 ^ t =? Z.pos p).
Proof.
  intros Hp Hc Ht Hb. unfold roundtrips, num_of_decimal.
  replace (0 <=? t) with true by (symmetry; apply Z.leb_le; lia).
  pose proof (Z.pow_pos_nonneg 10 t ltac:(lia) Ht) as Hpow.
  destruct (c * 10 ^ t) as [|v|v] eqn:Hv; try lia.
  rewrite (num_of_Z_small (Z.pos v))
    by (try discriminate; cbn [Zdigits2]; now apply digits2_below_2_53).
  cbn [Z.ltb Z.compare Z.abs Z.to_pos].
  rewrite SFcompare_small_double by now apply digits2_below_2_53.
  change (Z.pos v =? Z.pos p) with (Pos.eqb v p).
  rewrite Pos.eqb_compare. now destruct (v ?= p)%positive.
Qed.

(** ** The decimal digits of an integer double *)

Lemma digits_fuel_length (fuel : nat) (n : N) (acc : jsstring) :
  (n < 2 ^ N.of_nat fuel)%N -> (0 < fuel)%nat -> n <> 0%N ->
  exists len : nat,
    length (digits_fuel fuel n acc) = (len + length acc)%nat /\
    (0 < len)%nat /\
    10 ^ (Z.of_nat len - 1) <= Z.of_N n < 10 ^ Z.of_nat len.
Proof.
  revert n acc. induction fuel as [|f IH]; intros n acc Hn Hf Hn0; [lia|].
  cbn [digits_fuel].
  assert (Hmod : (n mod 10 < 10)%N) by (apply N.mod_lt; lia).
  assert (Hdm : n = (10 * (n / 10) + n mod 10)%N) by (apply N.div_mod; lia).
  remember (n mod 10)%N as r eqn:Hr. remember (n / 10)%N as q eqn:Hq'.
  destruct (q =? 0)%N eqn:Hq.
  - apply N.eqb_eq in Hq. exists 1%nat. cbn [length Nat.add].
    repeat split; lia.
  - apply N.eqb_neq in Hq.
    assert (Hf' : (0 < f)%nat).
    { destruct f; [|lia]. exfalso. change (2 ^ N.of_nat 1)%N with 2%N in Hn.
      lia. }
    assert (Hn' : (q < 2 ^ N.of_nat f)%N).
    { replace (N.of_nat (S f)) with (N.succ (N.of_nat f)) in Hn by lia.
      rewrite N.pow_succ_r' in Hn. lia. }
    destruct (IH q ((48 + r)%N :: acc) Hn' Hf' Hq) as (len & Hlen & Hpos & Hb).
    exists (S len). cbn [length] in Hlen. repeat split; try lia.
    + replace (Z.of_nat (S len) - 1) with (Z.succ (Z.of_nat len - 1)) by lia.
      rewrite Z.pow_succ_r by lia. lia.
    + replace (Z.of_nat (S len)) with (Z.succ (Z.of_nat len)) by lia.
      rewrite Z.pow_succ_r by lia. lia.
Qed.

Lemma digits_of_N_length (n : N) :
  n <> 0%N ->
  10 ^ (Z.of_nat (length (digits_of_N n)) - 1) <= Z.of_N n
    < 10 ^ Z.of_nat (length (digits_of_N n)).
Proof.
  intros Hn0. unfold digits_of_N.
  destruct (digits_fuel_length (S (N.to_nat (N.log2 n))) n [])
    as (len & Hlen & _ & Hb); [|lia|exact Hn0|].
  - replace (N.of_nat (S (N.to_nat (N.log2 n)))) with (N.succ (N.log2 n))
      by lia.
    destruct n as [|p]; [congruence|]. apply N.log2_spec. lia.
  - cbn [length] in Hlen. rewrite Nat.add_0_r in Hlen. now rewrite Hlen.
Qed.

Lemma decimal_length_unique (n a b : Z) :
  10 ^ (a - 1) <= n < 10 ^ a -> 10 ^ (b - 1) <= n < 10 ^ b ->
  0 < a -> 0 < b -> a = b.
Proof.
  intros [Ha1 Ha2] [Hb1 Hb2] Ha Hb.
  destruct (Z.lt_trichotomy a b) as [H|[H|H]]; [exfalso|exact H|exfalso].
  - assert (10 ^ a <= 10 ^ (b - 1)) by (apply Z.pow_le_mono_r; lia). lia.
  - assert (10 ^ b <= 10 ^ (a - 1)) by (apply Z.pow_le_mono_r; lia). lia.
Qed.

Lemma digits_of_Z_length (c k : Z) :
  0 < k -> 10 ^ (k - 1) <= c < 10 ^ k ->
  Z.of_nat (length (digits_of_Z c)) = k.
Proof.
  intros Hk Hc.
  assert (Hpos : 0 < c)
    by (pose proof (Z.pow_pos_nonneg 10 (k - 1) ltac:(lia) ltac:(lia)); lia).
  unfold digits_of_Z. rewrite Z.abs_eq by lia.
  pose proof (digits_of_N_length (Z.to_N c) ltac:(lia)) as Hb.
  rewrite Z2N.id in Hb by lia.
  apply (decimal_length_unique c); try assumption.
  destruct (length (digits_of_N (Z.to_N c))) eqn:Hl; [|lia].
  exfalso. simpl in Hb. lia.
Qed.

Lemma value_of_digits_of_Z (c : Z) :
  0 <= c -> Z.of_N (value_of_digits (digits_of_Z c)) = c.
Proof.
  intros Hc. unfold digits_of_Z.
  destruct (digits_of_N_spec (Z.to_N (Z.abs c))) as [-> _]. lia.
Qed.

Section ShortestInteger.

Variable p : positive.
Hypothesis Hp : Z.pos p < 10 ^ 15.

Let K := 53 - Z.pos (digits2_pos p).
Let L := Z.of_nat (length (digits_of_N (Npos p))).

Lemma integer_below_2_53 : Z.pos p < 2 ^ 53.
Proof. assert (10 ^ 15 < 2 ^ 53) by reflexivity. lia. Qed.

Lemma integer_bits : Z.pos (digits2_pos p) <= 53.
Proof. apply digits2_below_2_53, integer_below_2_53. Qed.

Lemma integer_decimal_bounds : 10 ^ (L - 1) <= Z.pos p < 10 ^ L /\ 1 <= L <= 15.
Proof.
  pose proof (digits_of_N_length (Npos p) ltac:(discriminate)) as Hb.
  fold L in Hb. change (Z.of_N (N.pos p)) with (Z.pos p) in Hb.
  split; [exact Hb|]. split.
  - subst L. destruct (digits_of_N_spec (N.pos p)) as (_ & _ & d & r & -> & _).
    cbn [length]. lia.
  - destruct (Z_le_gt_dec L 15) as [H|H]; [exact H|exfalso].
    assert (10 ^ 15 <= 10 ^ (L - 1)) by (apply Z.pow_le_mono_r; lia). lia.
Qed.

Lemma floor_scaled_integer (t : Z) :
  0 <= t ->
  floor_scaled (Z.pos p * 2 ^ K) (2 ^ K) (- t) = Z.pos p / 10 ^ t.
Proof.
  intros Ht. unfold floor_scaled.
  pose proof integer_bits as Hb.
  pose proof (Z.pow_pos_nonneg 2 K ltac:(lia) ltac:(unfold K; lia)) as H2.
  pose proof (Z.pow_pos_nonneg 10 t ltac:(lia) Ht) as H10.
  destruct (0 <=? - t) eqn:Hs.
  - apply Z.leb_le in Hs. replace t with 0 by lia.
    change (- 0) with 0. change (10 ^ 0) with 1.
    rewrite Z.div_1_r, Z.mul_1_r. apply Z.div_mul. lia.
  - rewrite Z.opp_involutive.
    rewrite (Z.mul_comm (Z.pos p)). apply Z.div_mul_cancel_l; lia.
Qed.

(** The search stops at the digits of [p] without its trailing zeros. *)
Lemma shortest_integer_loop (fuel : nat) (k : Z) :
  1 <= k <= L -> L - k < Z.of_nat fuel ->
  exists c j,
    shortest_digits fuel (small_double false p) (Z.pos p * 2 ^ K) (2 ^ K)
                    (L - 1) k = (digits_of_Z c, L - 1) /\
    0 < c /\ 0 <= j /\ c * 10 ^ j = Z.pos p /\
    Z.of_nat (length (digits_of_Z c)) = L - j.
Proof.
  revert k. induction fuel as [|f IH]; intros k Hk Hf; [lia|].
  destruct integer_decimal_bounds as [[HL1 HL2] HL].
  pose proof integer_below_2_53 as H53.
  cbn [shortest_digits]. cbv zeta.
  replace (k - 1 - (L - 1)) with (- (L - k)) by lia.
  rewrite Z.opp_involutive, floor_scaled_integer by lia.
  set (t := L - k). assert (Ht : 0 <= t) by (unfold t; lia).
  pose proof (Z.pow_pos_nonneg 10 t ltac:(lia) Ht) as H10.
  set (lo := Z.pos p / 10 ^ t).
  assert (Hsplit : 10 ^ (L - 1) = 10 ^ (k - 1) * 10 ^ t).
  { rewrite <- Z.pow_add_r by lia. f_equal. unfold t. lia. }
  assert (Hsplit' : 10 ^ L = 10 ^ k * 10 ^ t).
  { rewrite <- Z.pow_add_r by lia. f_equal. unfold t. lia. }
  pose proof (Z.pow_pos_nonneg 10 (k - 1) ltac:(lia) ltac:(lia)) as Hk1.
  assert (Hlo : 10 ^ (k - 1) <= lo < 10 ^ k).
  { unfold lo. split.
    - apply Z.div_le_lower_bound; lia.
    - apply Z.div_lt_upper_bound; lia. }
  assert (Hdm : Z.pos p = 10 ^ t * lo + Z.pos p mod 10 ^ t)
    by (apply Z.div_mod; lia).
  assert (Hmod : 0 <= Z.pos p mod 10 ^ t < 10 ^ t)
    by (apply Z.mod_pos_bound; lia).
  assert (Hlo_le : lo * 10 ^ t <= Z.pos p) by lia.
  assert (Hhi_gt : Z.pos p < (lo + 1) * 10 ^ t) by lia.
  assert (Hhi_b : (lo + 1) * 10 ^ t < 2 ^ 53).
  { assert (10 ^ t <= Z.pos p) by nia.
    assert (2 * 10 ^ 15 < 2 ^ 53) by reflexivity. lia. }
  rewrite (roundtrips_integer p lo t) by lia.
  rewrite (roundtrips_integer p (lo + 1) t) by lia.
  replace ((lo + 1) * 10 ^ t =? Z.pos p) with false
    by (symmetry; apply Z.eqb_neq; lia).
  destruct (lo * 10 ^ t =? Z.pos p) eqn:Heq.
  - apply Z.eqb_eq in Heq. exists lo, t. unfold pick_digits.
    replace (lo =? 10 ^ k) with false by (symmetry; apply Z.eqb_neq; lia).
    repeat split; try lia.
    rewrite (digits_of_Z_length lo k) by lia. unfold t. lia.
  - apply Z.eqb_neq in Heq.
    assert (Hkl : k < L).
    { destruct (Z.eq_dec k L) as [->|]; [|lia]. exfalso. apply Heq.
      unfold lo, t. rewrite Z.sub_diag. change (10 ^ 0) with 1.
      rewrite Z.div_1_r. lia. }
    apply IH; lia.
Qed.

Lemma shortest_decimal_integer (s : bool) :
  exists c j,
    shortest_decimal (small_double s p) = (digits_of_Z c, L - 1) /\
    0 < c /\ 0 <= j /\ c * 10 ^ j = Z.pos p /\
    Z.of_nat (length (digits_of_Z c)) = L - j.
Proof.
  destruct integer_decimal_bounds as [[HL1 HL2] HL].
  pose proof integer_bits as Hb.
  unfold shortest_decimal.
  change (Math_abs (small_double s p)) with (small_double false p).
  rewrite small_double_num, small_double_den by exact Hb. fold K.
  pose proof (Z.pow_pos_nonneg 2 K ltac:(lia) ltac:(unfold K; lia)) as H2.
  assert (Hde : decimal_exponent (Z.pos p * 2 ^ K) (2 ^ K) = L - 1).
  { unfold decimal_exponent.
    replace (2 ^ K <=? Z.pos p * 2 ^ K) with true
      by (symmetry; apply Z.leb_le; nia).
    rewrite Z.div_mul by lia. reflexivity. }
  rewrite Hde. apply shortest_integer_loop; simpl; lia.
Qed.

Lemma rounded_fixed_integer (s : bool) (fd : nat) :
  rounded_fixed fd (small_double s p) = Z.pos p * 10 ^ Z.of_nat fd.
Proof.
  unfold rounded_fixed. unfold small_double at 1.
  destruct (shortest_decimal_integer s) as (c & j & -> & Hc & Hj & Hcj & Hlen).
  rewrite value_of_digits_of_Z, Hlen by lia.
  replace (L - 1 - (L - j - 1) + Z.of_nat fd) with (j + Z.of_nat fd) by lia.
  unfold round_scaled.
  replace (0 <=? j + Z.of_nat fd) with true by (symmetry; apply Z.leb_le; lia).
  rewrite Z.pow_add_r by lia. rewrite <- Hcj.
  pose proof (Z.pow_pos_nonneg 10 j ltac:(lia) Hj) as H1.
  pose proof (Z.pow_pos_nonneg 10 (Z.of_nat fd) ltac:(lia) ltac:(lia)) as H2.
  symmetry. apply (Z.div_unique_pos _ _ _ 1); nia.
Qed.

End ShortestInteger.

(** ** Formatting an integer *)

Lemma toLocaleString_integer (s : bool) (p : positive) :
  Z.pos p < 10 ^ 15 ->
  toLocaleString_default (small_double s p) =
  (if s then u "-" else []) ++ group_thousands (digits_of_Z (Z.pos p)).
Proof.
  intros Hp. unfold toLocaleString_default, toLocaleString.
  unfold small_double at 1. fold (small_double s p).
  rewrite (rounded_fixed_integer p Hp s 3).
  change (10 ^ Z.of_nat 3) with 1000.
  rewrite Z.div_mul, Z.mod_mul by lia.
  change (is_negative (small_double s p)) with s.
  change (is_empty (rev (drop_zeros (3 - 0)
            (rev (firstn 3 (pad_left_zeros 3 (digits_of_Z 0)))))))
    with true.
  cbv iota. now rewrite app_nil_r.
Qed.

Lemma formatResult_small (s : bool) (p : positive) :
  Z.pos p < 10 ^ 15 ->
  formatResult (small_double s p) =
  (if s then u "-" else []) ++ group_thousands (digits_of_Z (Z.pos p)).
Proof.
  intros Hp. pose proof (integer_bits p Hp) as Hb.
  unfold formatResult, Number_isInteger.
  rewrite small_double_integer by exact Hb.
  change (Math_abs (small_double s p)) with (small_double false p).
  change (num_of_Z (10 ^ 15)) with (small_double false (10 ^ 15)).
  unfold num_ltb, SFltb.
  rewrite SFcompare_small_double by (try exact Hb; vm_compute; discriminate).
  replace (p ?= 10 ^ 15)%positive with Lt by (symmetry; exact Hp).
  cbn [andb]. now apply toLocaleString_integer.
Qed.

Lemma formatResult_num_of_Z (z : Z) :
  Z.abs z < 10 ^ 15 ->
  formatResult (num_of_Z z) =
  (if z <? 0 then u "-" else []) ++ group_thousands (digits_of_Z z).
Proof.
  intros Hz. destruct z as [|p|p].
  - vm_compute. reflexivity.
  - change (num_of_Z (Z.pos p)) with (binary_round prec emax false p 0).
    rewrite binary_round_small by (apply integer_bits; exact Hz).
    now apply formatResult_small.
  - change (num_of_Z (Z.neg p)) with (binary_round prec emax true p 0).
    rewrite binary_round_small by (apply integer_bits; exact Hz).
    now apply formatResult_small.
Qed.

Local Close Scope Z_scope.

(** ** Digit grouping *)

Lemma group_thousands_triple (m : nat) (ds : jsstring) :
  length ds = 3 * m -> forallb is_digit ds = true ->
  groups_of_three
    (match ds with [] => [] | _ => u "," ++ group_thousands ds end) = true.
Proof.
  revert ds. induction m as [|m IH]; intros ds Hl Hd.
  - destruct ds; [reflexivity|discriminate].
  - destruct ds as [|d1 [|d2 [|d3 rest]]]; try (cbn in Hl; lia).
    cbn [length] in Hl. assert (Hr : length rest = 3 * m) by lia.
    cbn [forallb] in Hd.
    apply andb_true_iff in Hd as [H1 Hd]. apply andb_true_iff in Hd as [H2 Hd].
    apply andb_true_iff in Hd as [H3 Hd].
    cbn [group_thousands length].
    replace (S (S (length rest)) mod 3 =? 0) with false
      by (symmetry; apply Nat.eqb_neq; rewrite Hr;
          replace (S (S (3 * m))) with (2 + m * 3) by lia;
          rewrite Nat.Div0.mod_add; discriminate).
    replace (S (length rest) mod 3 =? 0) with false
      by (symmetry; apply Nat.eqb_neq; rewrite Hr;
          replace (S (3 * m)) with (1 + m * 3) by lia;
          rewrite Nat.Div0.mod_add; discriminate).
    rewrite !andb_false_r.
    replace (length rest mod 3 =? 0) with true
      by (symmetry; apply Nat.eqb_eq; rewrite Hr, Nat.mul_comm;
          apply Nat.Div0.mod_mul).
    rewrite andb_true_r.
    change (u "," ++ d1 :: d2 :: d3 ::
              (if 0 <? length rest then u "," ++ group_thousands rest
               else group_thousands rest))
      with (44%N :: d1 :: d2 :: d3 ::
              (if 0 <? length rest then u "," ++ group_thousands rest
               else group_thousands rest)).
    cbn [groups_of_three]. rewrite H1, H2, H3. cbn [N.eqb Pos.eqb andb].
    specialize (IH rest Hr Hd).
    destruct rest as [|r rest']; [reflexivity|]. exact IH.
Qed.

Lemma group_thousands_tail (d : char) (rest : jsstring) :
  group_thousands (d :: rest) =
  d :: (if (0 <? length rest) && (length rest mod 3 =? 0)
        then u "," ++ group_thousands rest else group_thousands rest).
Proof. reflexivity. Qed.

Lemma well_grouped_group_thousands (ds : jsstring) :
  ds <> [] -> forallb is_digit ds = true ->
  well_grouped (group_thousands ds) = true.
Proof.
  intros Hne Hd.
  assert (Hcases : exists m, length ds = 3 * m + 1 \/ length ds = 3 * m + 2
                             \/ length ds = 3 * m + 3).
  { destruct ds as [|d ds]; [congruence|]. cbn [length].
    exists (length ds / 3).
    pose proof (Nat.div_mod_eq (length ds) 3) as Hdm.
    pose proof (Nat.mod_upper_bound (length ds) 3 ltac:(lia)) as Hm.
    lia. }
  destruct Hcases as [m Hlen].
  assert (Hgroup : forall rest, length rest = 3 * m ->
                   forallb is_digit rest = true ->
                   groups_of_three
                     (if (0 <? length rest) && (length rest mod 3 =? 0)
                      then u "," ++ group_thousands rest
                      else group_thousands rest) = true).
  { intros rest Hr Hrd. pose proof (group_thousands_triple m rest Hr Hrd) as G.
    destruct rest as [|r rest']; [reflexivity|].
    replace (length (r :: rest') mod 3 =? 0) with true
      by (symmetry; apply Nat.eqb_eq; rewrite Hr, Nat.mul_comm;
          apply Nat.Div0.mod_mul).
    exact G. }
  assert (Hno : forall (rest : jsstring) k,
                length rest = 3 * m + k -> 0 < k < 3 ->
                (0 <? length rest) && (length rest mod 3 =? 0) = false).
  { intros rest k Hr Hk. apply andb_false_iff. right. apply Nat.eqb_neq.
    rewrite Hr. replace (3 * m + k) with (k + m * 3) by lia.
    rewrite Nat.Div0.mod_add, Nat.mod_small; lia. }
  destruct ds as [|d1 rest1]; [congruence|].
  cbn [forallb] in Hd. apply andb_true_iff in Hd as [H1 Hd1].
  rewrite group_thousands_tail. cbn [well_grouped]. rewrite H1, andb_true_l.
  cbn [length] in Hlen.
  destruct Hlen as [Hlen|[Hlen|Hlen]].
  - apply orb_true_iff. left. apply Hgroup; [lia | exact Hd1].
  - rewrite (Hno rest1 1) by lia.
    destruct rest1 as [|d2 rest2]; [cbn in Hlen; lia|].
    cbn [forallb] in Hd1. apply andb_true_iff in Hd1 as [H2 Hd2].
    rewrite group_thousands_tail. cbn [length] in Hlen.
    apply orb_true_iff. right. rewrite H2, andb_true_l.
    apply orb_true_iff. left. apply Hgroup; [lia | exact Hd2].
  - rewrite (Hno rest1 2) by lia.
    destruct rest1 as [|d2 rest2]; [cbn in Hlen; lia|].
    cbn [forallb] in Hd1. apply andb_true_iff in Hd1 as [H2 Hd2].
    rewrite group_thousands_tail. cbn [length] in Hlen.
    apply orb_true_iff. right. rewrite H2, andb_true_l.
    rewrite (Hno rest2 1) by lia.
    destruct rest2 as [|d3 rest3]; [cbn in Hlen; lia|].
    cbn [forallb] in Hd2. apply andb_true_iff in Hd2 as [H3 Hd3].
    rewrite group_thousands_tail. cbn [length] in Hlen.
    apply orb_true_iff. right. rewrite H3, andb_true_l.
    apply Hgroup; [lia | exact Hd3].
Qed.

Lemma without_commas_group_thousands (ds : jsstring) :
  forallb is_digit ds = true ->
  without_commas (group_thousands ds) = ds.
Proof.
  unfold without_commas.
  induction ds as [|d ds IH]; [reflexivity|]. intros Hd.
  cbn [forallb] in Hd. apply andb_true_iff in Hd as [H1 Hd].
  rewrite group_thousands_tail. cbn [filter].
  replace (N.eqb d 44) with false
    by (symmetry; apply N.eqb_neq; intros ->; discriminate).
  cbn [negb]. f_equal.
  destruct ((0 <? length ds) && (length ds mod 3 =? 0)); [|now apply IH].
  cbn [u map list_ascii_of_string app filter].
  change (negb (N.eqb (code ",") 44)) with false. cbv iota. now apply IH.
Qed.

Lemma group_thousands_no_point (ds : jsstring) :
  forallb is_digit ds = true ->
  includes_char 46 (group_thousands ds) = false.
Proof.
  unfold includes_char.
  induction ds as [|d ds IH]; [reflexivity|]. intros Hd.
  cbn [forallb] in Hd. apply andb_true_iff in Hd as [H1 Hd].
  rewrite group_thousands_tail. cbn [existsb].
  replace (N.eqb 46 d) with false
    by (symmetry; apply N.eqb_neq; intros <-; discriminate).
  cbn [orb].
  destruct ((0 <? length ds) && (length ds mod 3 =? 0)); [|now apply IH].
  cbn [u map list_ascii_of_string app existsb].
  change (N.eqb 46 (code ",")) with false. cbn [orb]. now apply IH.
Qed.

Lemma digits_of_Z_digits (z : Z) :
  forallb is_digit (digits_of_Z z) = true /\ digits_of_Z z <> [].
Proof.
  unfold digits_of_Z.
  destruct (digits_of_N_spec (Z.to_N (Z.abs z)))
    as (_ & Hall & d & rest & Hshape & _).
  split; [exact Hall|]. rewrite Hshape. discriminate.
Qed.

(** C8.  An integer of magnitude below 1e15 is rendered as its decimal
    digits in groups of three separated by commas, after a minus sign
    when it is negative, and without a decimal point; [2+2] evaluates to
    4, which is rendered [4]. *)
Theorem formatResult_integer (E : Engine) (z : Z)
  (H : (Z.abs z < 10 ^ 15)%Z) :
  formatResult (num_of_Z z) =
    (if (z <? 0)%Z then u "-" else []) ++ group_thousands (digits_of_Z z) /\
  well_grouped (group_thousands (digits_of_Z z)) = true /\
  without_commas (group_thousands (digits_of_Z z)) = digits_of_Z z /\
  includes_char 46 (formatResult (num_of_Z z)) = false /\
  evaluateExpression E (u "2+2") = Returns (VNum (num_of_Z 4)) /\
  formatResult (num_of_Z 4) = u "4".
Proof.
  destruct (digits_of_Z_digits z) as [Hd Hne].
  split; [now apply formatResult_num_of_Z|].
  split; [now apply well_grouped_group_thousands|].
  split; [now apply without_commas_group_thousands|].
  split; [|split; vm_compute; reflexivity].
  rewrite formatResult_num_of_Z by exact H.
  rewrite includes_char_app, group_thousands_no_point by exact Hd.
  now destruct (z <? 0)%Z.
Qed.

Lemma formatResult_integer_witness :
  (Z.abs (-1234567) < 10 ^ 15)%Z /\
  formatResult (num_of_Z (-1234567)) = u "-1,234,567".
Proof.
  split; [reflexivity|].
  exact (proj1 (formatResult_integer sample_engine (-1234567) eq_refl)).
Defined.

(** ** Operators in the expression *)

Lemma no_adjacent_ops_cons (c d : char) (r : jsstring) :
  no_adjacent_ops (c :: d :: r) =
  negb (is_op_char c && is_op_char d) && no_adjacent_ops (d :: r).
Proof. reflexivity. Qed.

Lemma ends_op_cons (c d : char) (r : jsstring) :
  ends_op (c :: d :: r) = ends_op (d :: r).
Proof. reflexivity. Qed.

Lemma no_adjacent_ops_app (a b : jsstring) :
  no_adjacent_ops (a ++ b) =
  no_adjacent_ops a && no_adjacent_ops b && negb (ends_op a && starts_op b).
Proof.
  induction a as [|c a IH]; [cbn; now rewrite andb_true_r|].
  destruct a as [|c' a].
  - destruct b as [|d b].
    + cbn [app no_adjacent_ops ends_op starts_op]. now rewrite andb_false_r.
    + change ([c] ++ d :: b) with (c :: d :: b).
      rewrite no_adjacent_ops_cons. cbn [no_adjacent_ops ends_op starts_op].
      now rewrite andb_comm.
  - change ((c :: c' :: a) ++ b) with (c :: c' :: (a ++ b)).
    rewrite !no_adjacent_ops_cons, ends_op_cons.
    change (c' :: a ++ b) with ((c' :: a) ++ b). rewrite IH.
    now rewrite !andb_assoc.
Qed.

Lemma ends_op_app (a b : jsstring) :
  b <> [] -> ends_op (a ++ b) = ends_op b.
Proof.
  intros Hb. induction a as [|c a IH]; [reflexivity|].
  cbn [app ends_op]. destruct (a ++ b) eqn:Hab; [|exact IH].
  apply app_eq_nil in Hab as [_ ->]. congruence.
Qed.

Lemma ends_op_snoc (a : jsstring) (c : char) :
  ends_op (a ++ [c]) = is_op_char c.
Proof. now rewrite ends_op_app. Qed.

Lemma isOperator_is_op_char (c : char) : isOperator [c] = is_op_char c.
Proof. apply isOperator_single. Qed.

Lemma isOperator_slice_last (e : jsstring) :
  isOperator (slice_last e) = ends_op e.
Proof.
  induction e as [|c e IH] using rev_ind; [reflexivity|].
  now rewrite slice_last_snoc, ends_op_snoc, isOperator_is_op_char.
Qed.

Lemma op_free_no_adjacent (s : jsstring) :
  op_free s = true -> no_adjacent_ops s = true.
Proof.
  unfold op_free. induction s as [|c s IH]; [reflexivity|].
  cbn [forallb no_adjacent_ops]. intros H.
  apply andb_true_iff in H as [Hc Hs].
  destruct s as [|d s]; [reflexivity|].
  apply negb_true_iff in Hc. rewrite Hc. cbn [andb negb]. now apply IH.
Qed.

Lemma op_free_starts (s : jsstring) : op_free s = true -> starts_op s = false.
Proof.
  destruct s as [|c s]; [reflexivity|]. cbn [op_free forallb starts_op].
  intros H. apply andb_true_iff in H as [Hc _]. now apply negb_true_iff.
Qed.

Lemma op_free_ends (s : jsstring) : op_free s = true -> ends_op s = false.
Proof.
  unfold op_free. induction s as [|c s IH]; [reflexivity|].
  cbn [forallb ends_op]. intros H. apply andb_true_iff in H as [Hc Hs].
  destruct s; [now apply negb_true_iff|now apply IH].
Qed.

Lemma op_free_app (a b : jsstring) :
  op_free (a ++ b) = op_free a && op_free b.
Proof. apply forallb_app. Qed.

Lemma digits_op_free (ds : jsstring) :
  forallb is_digit ds = true -> op_free ds = true.
Proof.
  unfold op_free. rewrite !forallb_forall. intros H c Hc.
  specialize (H c Hc). apply negb_true_iff.
  unfold is_digit in H. apply andb_true_iff in H as [H1 H2].
  apply N.leb_le in H1. apply N.leb_le in H2.
  unfold is_op_char. rewrite !orb_false_iff. repeat split; apply N.eqb_neq; lia.
Qed.

Lemma starts_bad_le (s : jsstring) : starts_op s = false -> starts_bad s = false.
Proof.
  destruct s as [|c s]; [reflexivity|]. cbn [starts_op starts_bad].
  unfold is_op_char. rewrite !orb_false_iff. intros [[[H1 H2] H3] H4].
  now rewrite H1, H3, H4.
Qed.

Lemma tidy_intro (s : jsstring) :
  no_adjacent_ops s = true -> starts_bad s = false -> tidy s = true.
Proof. unfold tidy. now intros -> ->. Qed.

Lemma tidy_elim (s : jsstring) :
  tidy s = true -> no_adjacent_ops s = true /\ starts_bad s = false.
Proof.
  unfold tidy. intros H. apply andb_true_iff in H as [H1 H2].
  split; [exact H1|now apply negb_true_iff].
Qed.

Lemma starts_bad_app (a b : jsstring) :
  a <> [] -> starts_bad (a ++ b) = starts_bad a.
Proof. destruct a; [congruence|reflexivity]. Qed.

(** Appending a text without operators. *)
Lemma tidy_app_plain (e t : jsstring) :
  tidy e = true -> op_free t = true -> tidy (e ++ t) = true.
Proof.
  intros He Ht. apply tidy_elim in He as [H1 H2]. apply tidy_intro.
  - rewrite no_adjacent_ops_app, H1, (op_free_no_adjacent t Ht),
      (op_free_starts t Ht), andb_false_r. reflexivity.
  - destruct e as [|c e]; [|exact H2].
    apply starts_bad_le. now apply op_free_starts.
Qed.

(** Appending an operator after something that is not one. *)
Lemma tidy_app_op (e : jsstring) (o : operator) :
  tidy e = true -> ends_op e = false -> e <> [] ->
  tidy (e ++ operator_text o) = true.
Proof.
  intros He Hend Hne. apply tidy_elim in He as [H1 H2]. apply tidy_intro.
  - rewrite no_adjacent_ops_app, H1, Hend. reflexivity.
  - now rewrite starts_bad_app.
Qed.

Lemma tidy_prefix (a b : jsstring) : tidy (a ++ b) = true -> tidy a = true.
Proof.
  intros H. apply tidy_elim in H as [H1 H2]. apply tidy_intro.
  - rewrite no_adjacent_ops_app in H1.
    apply andb_true_iff in H1 as [H1 _]. now apply andb_true_iff in H1 as [H1 _].
  - destruct a; [reflexivity|exact H2].
Qed.

Lemma tidy_slice_drop_last (k : nat) (e : jsstring) :
  tidy e = true -> tidy (slice_drop_last k e) = true.
Proof.
  intros H. unfold slice_drop_last.
  rewrite <- (firstn_skipn (length e - k) e) in H. now apply tidy_prefix in H.
Qed.

Lemma tidy_strip_operator (e : jsstring) :
  tidy e = true ->
  tidy (strip_operator e) = true /\ ends_op (strip_operator e) = false.
Proof.
  intros H. unfold strip_operator. rewrite isOperator_slice_last.
  destruct e as [|c e _] using rev_ind; [split; reflexivity|].
  rewrite length_app, ends_op_snoc. cbn [length].
  replace (0 <? length e + 1) with true by (symmetry; apply Nat.ltb_lt; lia).
  cbn [andb]. destruct (is_op_char c) eqn:Hc.
  - rewrite slice_drop_last_snoc. split; [now apply tidy_prefix in H|].
    apply tidy_elim in H as [H _]. rewrite no_adjacent_ops_app in H.
    cbn [starts_op] in H. rewrite Hc in H.
    apply andb_true_iff in H as [_ H]. rewrite andb_true_r in H.
    now apply negb_true_iff.
  - split; [exact H|]. now rewrite ends_op_snoc.
Qed.

Lemma tidy_negate (e : jsstring) :
  tidy e = true -> starts_with (u "-") e = false -> e <> [] ->
  tidy (u "-" ++ e) = true.
Proof.
  intros H Hs Hne. apply tidy_elim in H as [H1 H2].
  assert (Hst : starts_op e = false).
  { destruct e as [|c e]; [congruence|]. cbn [starts_bad starts_op] in *.
    change (u "-") with [45%N] in Hs. cbn [starts_with] in Hs.
    rewrite andb_true_r in Hs.
    unfold is_op_char. rewrite !orb_false_iff in H2. destruct H2 as [[A B] C].
    rewrite N.eqb_sym in Hs. now rewrite A, B, C, Hs. }
  apply tidy_intro; [|reflexivity].
  rewrite no_adjacent_ops_app, H1, Hst, andb_false_r. reflexivity.
Qed.

Lemma tidy_tail (e : jsstring) :
  tidy e = true -> starts_with (u "-") e = true ->
  tidy (slice_from_1 e) = true.
Proof.
  intros H Hs. apply tidy_elim in H as [H1 _].
  destruct e as [|c e]; [discriminate|]. cbn [slice_from_1 tl].
  change (u "-") with [45%N] in Hs. cbn [starts_with] in Hs.
  rewrite andb_true_r in Hs. apply N.eqb_eq in Hs. subst c.
  destruct e as [|d e]; [reflexivity|].
  cbn [no_adjacent_ops] in H1. apply andb_true_iff in H1 as [Hd H1].
  change (is_op_char 45) with true in Hd. cbn [andb] in Hd.
  apply negb_true_iff in Hd.
  apply tidy_intro; [exact H1|]. apply starts_bad_le. exact Hd.
Qed.

Lemma tidy_wrap (a e b : jsstring) :
  tidy e = true -> tidy a = true -> a <> [] -> ends_op a = false ->
  op_free b = true -> tidy (a ++ e ++ b) = true.
Proof.
  intros He Ha Hne Hend Hb.
  pose proof (tidy_app_plain e b He Hb) as H.
  apply tidy_elim in H as [H1 _]. apply tidy_elim in Ha as [A1 A2].
  apply tidy_intro.
  - rewrite no_adjacent_ops_app, A1, H1, Hend. reflexivity.
  - now rewrite starts_bad_app.
Qed.

(** ** The text of a number *)

Lemma pick_digits_digits (k e c : Z) :
  forallb is_digit (fst (pick_digits k e c)) = true.
Proof.
  unfold pick_digits. destruct (c =? 10 ^ k)%Z; [reflexivity|].
  apply digits_of_Z_digits.
Qed.

Lemma shortest_digits_digits (fuel : nat) (x : number) (num den e k : Z) :
  forallb is_digit (fst (shortest_digits fuel x num den e k)) = true.
Proof.
  revert k. induction fuel as [|f IH]; intros k; cbn [shortest_digits].
  - apply pick_digits_digits.
  - cbv zeta.
    destruct (roundtrips x _ _), (roundtrips x _ _);
      try apply pick_digits_digits; [|apply IH].
    destruct (twice_fraction _ _ _ _); try apply pick_digits_digits.
    destruct (Z.even _); apply pick_digits_digits.
Qed.

Lemma zeros_op_free (n : nat) : op_free (zeros n) = true.
Proof. induction n; [reflexivity|exact IHn]. Qed.

Lemma op_free_firstn (n : nat) (s : jsstring) :
  op_free s = true -> op_free (firstn n s) = true.
Proof.
  intros H. rewrite <- (firstn_skipn n s), op_free_app in H.
  now apply andb_true_iff in H as [H _].
Qed.

Lemma op_free_skipn (n : nat) (s : jsstring) :
  op_free s = true -> op_free (skipn n s) = true.
Proof.
  intros H. rewrite <- (firstn_skipn n s), op_free_app in H.
  now apply andb_true_iff in H as [_ H].
Qed.

Lemma point_after_first_op_free (ds : jsstring) :
  op_free ds = true -> op_free (point_after_first ds) = true.
Proof.
  destruct ds as [|d [|d' ds]]; intros H; exact H.
Qed.

(** A text that neither starts with an operator nor has two in a row. *)
Lemma exponent_suffix_shape (p : jsstring) (e : Z) :
  op_free p = true ->
  no_adjacent_ops (p ++ exponent_suffix e) = true /\
  starts_op (p ++ exponent_suffix e) = false.
Proof.
  intros Hp. unfold exponent_suffix.
  pose proof (digits_op_free _ (proj1 (digits_of_Z_digits e))) as Hd.
  split.
  - destruct (e <? 0)%Z;
      rewrite !no_adjacent_ops_app, (op_free_no_adjacent p Hp),
        (op_free_ends p Hp), (op_free_no_adjacent _ Hd),
        (op_free_starts _ Hd), !andb_false_r; reflexivity.
  - destruct p as [|c p]; [reflexivity|]. now apply (op_free_starts (c :: p)).
Qed.

Lemma format_shortest_shape (ds : jsstring) (e : Z) :
  forallb is_digit ds = true ->
  no_adjacent_ops (format_shortest ds e) = true /\
  starts_op (format_shortest ds e) = false.
Proof.
  intros Hd. apply digits_op_free in Hd. unfold format_shortest.
  assert (Hplain : forall t, op_free t = true ->
            no_adjacent_ops t = true /\ starts_op t = false).
  { intros t Ht. split; [now apply op_free_no_adjacent|now apply op_free_starts]. }
  destruct (_ && _)%bool.
  { apply Hplain. now rewrite op_free_app, Hd, zeros_op_free. }
  destruct (_ && _)%bool.
  { apply Hplain. rewrite !op_free_app, op_free_firstn, op_free_skipn by exact Hd.
    reflexivity. }
  destruct (_ && _)%bool.
  { apply Hplain. now rewrite !op_free_app, zeros_op_free, Hd. }
  apply exponent_suffix_shape. now apply point_after_first_op_free.
Qed.

Lemma tidy_signed (neg : bool) (body : jsstring) :
  no_adjacent_ops body = true -> starts_op body = false ->
  tidy ((if neg then u "-" else []) ++ body) = true.
Proof.
  intros H1 H2. destruct neg.
  - apply tidy_intro; [|reflexivity].
    rewrite no_adjacent_ops_app, H1, H2, andb_false_r. reflexivity.
  - apply tidy_intro; [exact H1|now apply starts_bad_le].
Qed.

Lemma tidy_Number_toString (x : number) : tidy (Number_toString x) = true.
Proof.
  destruct x as [s|s| |s m e]; cbn [Number_toString]; try reflexivity.
  - now destruct s.
  - destruct (shortest_decimal (S754_finite s m e)) as [ds e'] eqn:Hsd.
    assert (Hd : forallb is_digit ds = true).
    { change ds with (fst (ds, e')). rewrite <- Hsd.
      apply shortest_digits_digits. }
    destruct (format_shortest_shape ds e' Hd) as [H1 H2].
    now apply tidy_signed.
Qed.

(** ** The invariant along the events *)

Lemma with_implicit_times_tidy (e : jsstring) (c : char) :
  tidy e = true -> is_op_char c = false ->
  tidy (with_implicit_times e ++ [c]) = true.
Proof.
  intros He Hc.
  assert (Hplain : op_free [c] = true) by (cbn; now rewrite Hc).
  unfold with_implicit_times. rewrite isOperator_slice_last.
  destruct (negb (is_empty e) && negb (ends_op e)
            && negb (str_eqb (slice_last e) (u "("))) eqn:Hcond.
  - apply andb_true_iff in Hcond as [Hcond _].
    apply andb_true_iff in Hcond as [Hne Hend].
    apply negb_true_iff in Hne, Hend.
    apply tidy_app_plain; [|exact Hplain].
    apply (tidy_app_op e OpTimes He Hend). intros ->. discriminate.
  - now apply tidy_app_plain.
Qed.

Lemma tidy_seed_answer (s : state) :
  tidy (expression s) = true ->
  tidy (expression
          match answer_to_chain s with
          | Some a => set_lastAnswer None (set_expression (Number_toString a) s)
          | None => s
          end) = true.
Proof.
  intros H. destruct (answer_to_chain s); [apply tidy_Number_toString|exact H].
Qed.

Lemma toggleSign_tidy (E : Engine) (s : state) :
  tidy (expression s) = true -> tidy (expression (toggleSign E s)) = true.
Proof.
  intros H. unfold toggleSign. rewrite liveEvaluate_expression.
  cbn [expression updateDisplay set_exprEl].
  destruct (answer_to_chain s); [apply tidy_Number_toString|].
  destruct (starts_with (u "-") (expression s)) eqn:Hs.
  - now apply tidy_tail.
  - destruct (is_empty (expression s)) eqn:Hem; cbn [negb]; [exact H|].
    apply tidy_negate; try assumption. intros Heq. rewrite Heq in Hem.
    discriminate.
Qed.

Lemma inputNum_tidy (E : Engine) (k : numkey) (s : state) :
  tidy (expression s) = true ->
  tidy (expression (inputNum E (numkey_text k) s)) = true.
Proof.
  intros H. unfold inputNum.
  destruct (str_eqb (numkey_text k) [177%N]) eqn:Hpm;
    [now apply toggleSign_tidy|].
  destruct (_ && _)%bool; [exact H|].
  rewrite liveEvaluate_expression. cbn [expression updateDisplay set_exprEl set_expression].
  assert (Hplain : op_free (numkey_text k) = true).
  { destruct k as [d| |]; [now destruct d|reflexivity|discriminate]. }
  destruct (has_answer s && _)%bool; cbn [expression set_lastAnswer set_expression].
  - now apply (tidy_app_plain []).
  - now apply tidy_app_plain.
Qed.

Lemma tidy_seed (s : state) : tidy (expression s) = true -> tidy (seed s) = true.
Proof.
  intros H. unfold seed.
  destruct (answer_to_chain s); [apply tidy_Number_toString|exact H].
Qed.

Lemma inputOp_tidy (o : operator) (s : state) :
  tidy (expression s) = true ->
  tidy (expression (inputOp (operator_text o) s)) = true.
Proof.
  intros H. rewrite inputOp_expression. cbv zeta.
  destruct (tidy_strip_operator (seed s) (tidy_seed s H)) as [Ht Hend].
  destruct (rejected (operator_text o) (strip_operator (seed s))) eqn:Hr;
    [exact Ht|].
  destruct (strip_operator (seed s)) as [|c e] eqn:He.
  - unfold rejected in Hr. cbn [is_empty andb] in Hr.
    apply negb_false_iff, str_eqb_eq in Hr. now rewrite Hr.
  - rewrite <- He in *. apply tidy_app_op; try assumption.
    rewrite He. discriminate.
Qed.

Lemma inputParenthesis_tidy (E : Engine) (s : state) :
  tidy (expression s) = true ->
  tidy (expression (inputParenthesis E s)) = true.
Proof.
  intros H. unfold inputParenthesis. rewrite liveEvaluate_expression.
  cbn [expression updateDisplay set_exprEl set_expression].
  rewrite isOperator_slice_last.
  destruct (is_empty (expression s) || str_eqb (slice_last (expression s)) (u "(")
            || ends_op (expression s)) eqn:Hc.
  - now apply tidy_app_plain.
  - destruct (_ <? _); [now apply tidy_app_plain|].
    apply orb_false_iff in Hc as [Hc Hend].
    apply orb_false_iff in Hc as [Hne _].
    change (u "*(") with (operator_text OpTimes ++ u "(").
    rewrite app_assoc. apply tidy_app_plain; [|reflexivity].
    apply tidy_app_op; try assumption. intros Heq. rewrite Heq in Hne.
    discriminate.
Qed.

Lemma backspace_tidy (E : Engine) (s : state) :
  tidy (expression s) = true -> tidy (expression (backspace E s)) = true.
Proof.
  intros H. unfold backspace. destruct (_ =? _); [exact H|].
  rewrite liveEvaluate_expression.
  cbn [expression updateDisplay set_exprEl set_expression].
  destruct (match_function_suffix _); now apply tidy_slice_drop_last.
Qed.

Lemma sciFunc_tidy (E : Engine) (f : sci) (s : state) :
  tidy (expression s) = true ->
  tidy (expression (sciFunc E (sci_name f) s)) = true.
Proof.
  intros H. unfold sciFunc. rewrite liveEvaluate_expression.
  cbn [expression updateDisplay set_exprEl set_expression].
  pose proof (tidy_seed_answer s H) as Hs. clear H.
  set (e := expression _) in *. clearbody e.
  destruct f as [[]| | | | |]; cbn [sci_name fname_text];
    cbv beta iota delta [str_eqb u map list_ascii_of_string code N_of_ascii
                         N.eqb Pos.eqb andb N_of_digits N.add N.mul
                         Pos.add Pos.mul Pos.succ];
    try (now apply tidy_app_plain).
  - destruct (is_empty e) eqn:Hem; cbn [negb]; [exact Hs|].
    now apply tidy_wrap.
  - now apply with_implicit_times_tidy.
  - now apply with_implicit_times_tidy.
  - destruct (is_empty e); cbn [negb]; [exact Hs|]. now apply tidy_app_plain.
  - destruct (is_empty e) eqn:Hem; cbn [negb]; [exact Hs|].
    now apply tidy_wrap.
Qed.

Lemma calculate_expression (E : Engine) (now : jsstring) (s : state) :
  expression (calculate E now s) = [].
Proof.
  unfold calculate. destruct (is_empty (expression s)) eqn:Hem.
  - now apply is_empty_true.
  - destruct (evaluateExpression E _) as [v|]; [|reflexivity].
    destruct (isNaN _); [reflexivity|]. destruct (negb _); [reflexivity|].
    destruct v; reflexivity.
Qed.

Lemma recallHistory_expression (i : nat) (s : state) :
  expression (recallHistory i s) = expression s \/
  expression (recallHistory i s) = [].
Proof.
  unfold recallHistory. destruct (nth_error _ _); [right|now left].
  destruct (negb _); reflexivity.
Qed.

Lemma step_tidy (E : Engine) (a : action) (s : state) :
  tidy (expression s) = true -> tidy (expression (step E a s)) = true.
Proof.
  intros H. destruct a; cbn [step].
  - now apply inputNum_tidy.
  - now apply inputOp_tidy.
  - now apply inputParenthesis_tidy.
  - now apply backspace_tidy.
  - reflexivity.
  - now apply toggleSign_tidy.
  - now apply sciFunc_tidy.
  - now rewrite calculate_expression.
  - destruct (recallHistory_expression index s) as [-> | ->]; [exact H|reflexivity].
  - exact H.
  - exact H.
Qed.

Lemma run_tidy (E : Engine) (acts : list action) (s : state) :
  tidy (expression s) = true -> tidy (expression (run E acts s)) = true.
Proof.
  revert s. induction acts as [|a acts IH]; intros s H; [exact H|].
  cbn [run fold_left]. apply IH. now apply step_tidy.
Qed.

(** C6.  Whatever events the calculator has handled since it was loaded,
    its expression has no two operator characters in a row. *)
Theorem no_consecutive_operators (E : Engine) (acts : list action) :
  no_adjacent_ops (expression (run E acts initial)) = true.
Proof.
  pose proof (run_tidy E acts initial eq_refl) as H.
  now apply tidy_elim in H.
Qed.

(** ** The answer held after a calculation *)

Lemma inputParenthesis_lastAnswer (E : Engine) (s : state) :
  lastAnswer (inputParenthesis E s) = lastAnswer s.
Proof.
  unfold inputParenthesis. rewrite liveEvaluate_lastAnswer.
  cbn [updateDisplay lastAnswer set_exprEl set_expression]. reflexivity.
Qed.

Lemma inputParenthesis_not_empty (E : Engine) (s : state) :
  is_empty (expression (inputParenthesis E s)) = false.
Proof.
  unfold inputParenthesis. rewrite liveEvaluate_expression.
  cbn [expression updateDisplay set_exprEl set_expression].
  destruct (_ || _)%bool; [|destruct (_ <? _)%nat];
    destruct (expression s); reflexivity.
Qed.

(** A digit key starts a new expression when an answer is held and the
    expression does not end in an operator, else it is appended. *)
Lemma inputNum_digit (E : Engine) (d : digit) (s : state) :
  let fresh_start :=
    has_answer s && negb (isOperator (slice_last (expression s))) in
  expression (inputNum E [digit_char d] s) =
    (if fresh_start then [] else expression s) ++ [digit_char d] /\
  lastAnswer (inputNum E [digit_char d] s) =
    (if fresh_start then None else lastAnswer s).
Proof.
  intros fresh_start. unfold inputNum.
  assert (H1 : str_eqb [digit_char d] [177%N] = false) by now destruct d.
  assert (H2 : str_eqb [digit_char d] (u ".") = false) by now destruct d.
  rewrite H1, H2. cbn [andb].
  rewrite liveEvaluate_expression, liveEvaluate_lastAnswer.
  fold fresh_start. destruct fresh_start; split; reflexivity.
Qed.

Lemma calculate_lastAnswer (E : Engine) (now : jsstring) (s : state)
  (x : number) :
  is_empty (expression s) = false ->
  evaluateExpression E (expression s) = Returns (VNum x) ->
  isNaN x = false -> isFinite x = true ->
  lastAnswer (calculate E now s) = Some x.
Proof.
  intros Hne Hev Hnan Hfin. unfold calculate.
  rewrite Hne, Hev. cbn [ToNumber]. rewrite Hnan, Hfin. reflexivity.
Qed.

(** After [2 + 2 =] and the parenthesis key the expression is [(] and
    the answer 4 is held. *)
Lemma answer_then_parenthesis_state (E : Engine) (now : jsstring) :
  expression (answer_then_parenthesis E now) = u "(" /\
  lastAnswer (answer_then_parenthesis E now) = Some (num_of_Z 4).
Proof.
  unfold answer_then_parenthesis, run. cbn [fold_left step numkey_text].
  set (s1 := inputNum E [digit_char D2] initial).
  set (s2 := inputOp (operator_text OpPlus) s1).
  set (s3 := inputNum E [digit_char D2] s2).
  set (s4 := calculate E now s3).
  destruct (inputNum_digit E D2 initial) as [He1 Ha1]. fold s1 in He1, Ha1.
  assert (He2 : expression s2 = u "2+").
  { unfold s2. rewrite inputOp_expression. unfold seed, answer_to_chain.
    rewrite He1. reflexivity. }
  assert (Ha2 : lastAnswer s2 = None).
  { unfold s2, inputOp, answer_to_chain. rewrite He1. reflexivity. }
  destruct (inputNum_digit E D2 s2) as [He3 Ha3]. fold s3 in He3, Ha3.
  unfold has_answer in He3, Ha3. rewrite Ha2, He2 in He3.
  rewrite Ha2 in Ha3. cbn [andb] in He3, Ha3.
  assert (Ha4 : lastAnswer s4 = Some (num_of_Z 4)).
  { apply calculate_lastAnswer; rewrite ?He3; reflexivity. }
  assert (He4 : expression s4 = []) by apply calculate_expression.
  split.
  - rewrite inputParenthesis_expression, He4. reflexivity.
  - now rewrite inputParenthesis_lastAnswer.
Qed.

Lemma backspace_lastAnswer (E : Engine) (s : state) :
  lastAnswer (backspace E s) = lastAnswer s.
Proof.
  unfold backspace. destruct (_ =? _)%nat; [reflexivity|].
  rewrite liveEvaluate_lastAnswer. reflexivity.
Qed.

(** The sign key on a non-empty expression: a leading [-] is removed or
    put in front, and the answer held is kept. *)
Lemma toggleSign_expression (E : Engine) (s : state) :
  is_empty (expression s) = false ->
  expression (toggleSign E s) =
    (if starts_with (u "-") (expression s) then slice_from_1 (expression s)
     else u "-" ++ expression s) /\
  lastAnswer (toggleSign E s) = lastAnswer s.
Proof.
  intros Hne. unfold toggleSign, answer_to_chain.
  rewrite liveEvaluate_expression, liveEvaluate_lastAnswer, Hne.
  cbn [negb]. destruct (starts_with (u "-") (expression s)); split; reflexivity.
Qed.

Lemma backspace_expression_plain (E : Engine) (s : state) :
  is_empty (expression s) = false ->
  match_function_suffix (expression s) = None ->
  expression (backspace E s) = slice_drop_last 1 (expression s).
Proof.
  intros Hne Hm. unfold backspace.
  destruct (expression s) as [|c e] eqn:He; [discriminate|].
  cbn [length Nat.eqb]. rewrite liveEvaluate_expression, Hm. reflexivity.
Qed.

(** The sign key and backspace after that leave [-] as the expression,
    the answer still held. *)
Lemma stale_minus_state (E : Engine) (now : jsstring) :
  expression (stale_minus E now) = u "-" /\
  lastAnswer (stale_minus E now) = Some (num_of_Z 4).
Proof.
  destruct (answer_then_parenthesis_state E now) as [He Ha].
  destruct (toggleSign_expression E (answer_then_parenthesis E now))
    as [He6 Ha6]; [now rewrite He|].
  rewrite He in He6. rewrite Ha in Ha6.
  unfold stale_minus. cbn [step]. split.
  - rewrite backspace_expression_plain; rewrite He6; reflexivity.
  - now rewrite backspace_lastAnswer.
Qed.

(** C3 (fails in the code).  After [2 + 2 =], the parenthesis key, the
    sign key and backspace the expression is [-] and the answer 4 is
    still held.  There [*] pressed twice gives [4*]: the first empties
    the expression and the second chains from the answer; [*] pressed
    once leaves the expression empty. *)
Theorem appendOperator_stale_answer (E : Engine) (now : jsstring) :
  expression (stale_minus E now) = u "-" /\
  lastAnswer (stale_minus E now) = Some (num_of_Z 4) /\
  expression (inputOp (operator_text OpTimes)
               (inputOp (operator_text OpTimes) (stale_minus E now)))
  = u "4*" /\
  expression (inputOp (operator_text OpTimes) (stale_minus E now)) = [].
Proof.
  destruct (stale_minus_state E now) as [He Ha].
  set (s := stale_minus E now) in *. clearbody s.
  split; [exact He|]. split; [exact Ha|].
  assert (H1 : expression (inputOp (operator_text OpTimes) s) = []).
  { rewrite inputOp_expression. unfold seed, answer_to_chain.
    rewrite He. reflexivity. }
  assert (A1 : lastAnswer (inputOp (operator_text OpTimes) s)
               = Some (num_of_Z 4)).
  { rewrite inputOp_lastAnswer. unfold seed, answer_to_chain. rewrite He.
    change (is_empty (u "-")) with false. cbv iota.
    change (rejected (operator_text OpTimes) (strip_operator (u "-")))
      with true.
    exact Ha. }
  set (s' := inputOp (operator_text OpTimes) s) in *. clearbody s'.
  split; [|exact H1].
  rewrite inputOp_expression. unfold seed, answer_to_chain.
  rewrite H1, A1. cbn [is_empty]. vm_compute. reflexivity.
Qed.

(** ** The events that keep the answer and the expression apart

    Every event but the parenthesis key leaves an answer held only with
    an empty expression. *)

Lemma answer_only_when_empty_cases (s : state) :
  answer_only_when_empty s = true ->
  lastAnswer s = None \/ expression s = [].
Proof.
  unfold answer_only_when_empty, has_answer. intros H.
  destruct (lastAnswer s); [right|now left].
  apply orb_true_iff in H as [H|H]; [now apply is_empty_true|discriminate].
Qed.

Lemma answer_only_when_empty_intro (s : state) :
  lastAnswer s = None \/ expression s = [] ->
  answer_only_when_empty s = true.
Proof.
  unfold answer_only_when_empty, has_answer. intros [H|H]; rewrite H.
  - apply orb_true_r.
  - reflexivity.
Qed.

Lemma toggleSign_answer (E : Engine) (s : state) :
  answer_only_when_empty s = true ->
  lastAnswer (toggleSign E s) = None.
Proof.
  intros H. apply answer_only_when_empty_cases in H.
  unfold toggleSign. rewrite liveEvaluate_lastAnswer.
  destruct (answer_to_chain s) eqn:Hc; [reflexivity|].
  assert (Ha : lastAnswer s = None).
  { unfold answer_to_chain in Hc. destruct H as [H|H]; [exact H|].
    rewrite H in Hc. exact Hc. }
  destruct (starts_with _ _); [exact Ha|].
  destruct (negb _); exact Ha.
Qed.

Lemma inputNum_answer (E : Engine) (k : numkey) (s : state) :
  answer_only_when_empty s = true ->
  answer_only_when_empty (inputNum E (numkey_text k) s) = true.
Proof.
  intros H. unfold inputNum.
  destruct (str_eqb (numkey_text k) [177%N]).
  { apply answer_only_when_empty_intro. left. now apply toggleSign_answer. }
  destruct (_ && _)%bool; [exact H|].
  apply answer_only_when_empty_intro. left.
  rewrite liveEvaluate_lastAnswer.
  cbn [lastAnswer updateDisplay set_exprEl set_expression].
  apply answer_only_when_empty_cases in H. unfold has_answer.
  destruct H as [H|H]; rewrite H.
  - exact H.
  - cbn [slice_last]. destruct (lastAnswer s) eqn:Ha; [reflexivity|exact Ha].
Qed.

Lemma inputOp_answer (o : operator) (s : state) :
  answer_only_when_empty s = true ->
  answer_only_when_empty (inputOp (operator_text o) s) = true.
Proof.
  intros H. apply answer_only_when_empty_intro.
  rewrite inputOp_lastAnswer, inputOp_expression. cbv zeta.
  destruct (rejected (operator_text o) (strip_operator (seed s))) eqn:Hr;
    [right|now left].
  unfold rejected in Hr. apply andb_true_iff in Hr as [Hr _].
  now apply is_empty_true.
Qed.

Lemma backspace_answer (E : Engine) (s : state) :
  answer_only_when_empty s = true ->
  answer_only_when_empty (backspace E s) = true.
Proof.
  intros H. apply answer_only_when_empty_intro.
  rewrite backspace_lastAnswer.
  destruct (answer_only_when_empty_cases s H) as [Ha|He]; [now left|right].
  unfold backspace. rewrite He. cbn [length Nat.eqb]. exact He.
Qed.

Lemma sciFunc_answer (E : Engine) (f : sci) (s : state) :
  answer_only_when_empty s = true ->
  answer_only_when_empty (sciFunc E (sci_name f) s) = true.
Proof.
  intros H. apply answer_only_when_empty_intro. left.
  unfold sciFunc, answer_to_chain. rewrite liveEvaluate_lastAnswer.
  cbn [lastAnswer updateDisplay set_exprEl set_expression].
  destruct (answer_only_when_empty_cases s H) as [Ha|He].
  - rewrite Ha. destruct (is_empty (expression s)); exact Ha.
  - rewrite He. cbn [is_empty].
    destruct (lastAnswer s) eqn:Ha; [reflexivity|exact Ha].
Qed.

Lemma recallHistory_answer (i : nat) (s : state) :
  answer_only_when_empty s = true ->
  answer_only_when_empty (recallHistory i s) = true.
Proof.
  intros H. unfold recallHistory.
  destruct (nth_error (history s) i); [|exact H].
  apply answer_only_when_empty_intro. right.
  destruct (negb _); reflexivity.
Qed.

Lemma step_answer (E : Engine) (a : action) (s : state) :
  is_parenthesis_key a = false ->
  answer_only_when_empty s = true ->
  answer_only_when_empty (step E a s) = true.
Proof.
  intros Ha H. destruct a; try discriminate; cbn [step].
  - now apply inputNum_answer.
  - now apply inputOp_answer.
  - now apply backspace_answer.
  - reflexivity.
  - apply answer_only_when_empty_intro. left. now apply toggleSign_answer.
  - now apply sciFunc_answer.
  - apply answer_only_when_empty_intro. right. apply calculate_expression.
  - now apply recallHistory_answer.
  - exact H.
  - exact H.
Qed.

(** Without the parenthesis key the answer is never held together with
    a non-empty expression. *)
Lemma run_answer (E : Engine) (acts : list action) (s : state) :
  forallb (fun a => negb (is_parenthesis_key a)) acts = true ->
  answer_only_when_empty s = true ->
  answer_only_when_empty (run E acts s) = true.
Proof.
  revert s. induction acts as [|a acts IH]; intros s Hk H; [exact H|].
  cbn [forallb] in Hk. apply andb_true_iff in Hk as [Ha Hk].
  apply negb_true_iff in Ha.
  cbn [run fold_left]. apply IH; [exact Hk|]. now apply step_answer.
Qed.

(** C10 (fails in the code).  The parenthesis key keeps the answer of the
    last calculation while it makes the expression non-empty: after
    [2 + 2 =] and the parenthesis key the expression is [(] and the
    answer 4 is still held, and the digit 5 typed next replaces the
    parenthesis instead of following it.  The other events keep the
    invariant: along any events without the parenthesis key an answer
    is held only with an empty expression. *)
Theorem parenthesis_keeps_answer (E : Engine) (now : jsstring) (s : state)
  (acts : list action) :
  answer_only_when_empty
    (run E (filter (fun a => negb (is_parenthesis_key a)) acts) initial)
  = true /\
  lastAnswer (inputParenthesis E s) = lastAnswer s /\
  is_empty (expression (inputParenthesis E s)) = false /\
  expression (answer_then_parenthesis E now) = u "(" /\
  lastAnswer (answer_then_parenthesis E now) = Some (num_of_Z 4) /\
  expression (step E (InputNum (KDigit D5)) (answer_then_parenthesis E now))
  = u "5".
Proof.
  split.
  { apply run_answer; [|reflexivity].
    apply forallb_forall. intros a Ha. now apply filter_In in Ha. }
  split; [apply inputParenthesis_lastAnswer|].
  split; [apply inputParenthesis_not_empty|].
  destruct (answer_then_parenthesis_state E now) as [He Ha].
  set (s5 := answer_then_parenthesis E now) in *. clearbody s5.
  split; [exact He|]. split; [exact Ha|].
  cbn [step numkey_text].
  destruct (inputNum_digit E D5 s5) as [He6 _].
  rewrite He6. unfold has_answer. rewrite Ha, He. reflexivity.
Qed.

(** ** Products and quotients of doubles *)

Local Open Scope Z_scope.

Lemma Zdigits2_range (m a b : Z) :
  0 < m -> 0 <= a -> 2 ^ a <= m < 2 ^ b -> a < Zdigits2 m <= b.
Proof.
  intros Hm Ha [Hlo Hhi].
  pose proof (Zdigits2_bounds m Hm) as [Hlo' Hhi'].
  pose proof (Zdigits2_pos m Hm) as Hd.
  split.
  - destruct (Z_lt_le_dec a (Zdigits2 m)) as [H|H]; [exact H|exfalso].
    pose proof (Z.pow_le_mono_r 2 (Zdigits2 m) a ltac:(lia) H). lia.
  - destruct (Z_le_gt_dec (Zdigits2 m) b) as [H|H]; [exact H|exfalso].
    assert (0 <= b).
    { destruct (Z_le_gt_dec 0 b) as [Hb|Hb]; [exact Hb|].
      rewrite (Z.pow_neg_r 2 b) in Hhi by lia. lia. }
    pose proof (Z.pow_le_mono_r 2 b (Zdigits2 m - 1) ltac:(lia) ltac:(lia)).
    lia.
Qed.

(** The product of two normal doubles of moderate size is a normal
    double. *)
Lemma num_mul_normal (s1 s2 : bool) (m1 m2 : positive) (e1 e2 : Z) :
  Z.pos (digits2_pos m1) = 53 -> Z.pos (digits2_pos m2) = 53 ->
  -1126 <= e1 + e2 <= 900 ->
  exists m e,
    num_mul (S754_finite s1 m1 e1) (S754_finite s2 m2 e2) =
    S754_finite (xorb s1 s2) m e /\
    Z.pos (digits2_pos m) = 53 /\ e1 + e2 + 52 <= e <= e1 + e2 + 54.
Proof.
  intros H1 H2 He. unfold num_mul, SFmul.
  pose proof (digits2_pos_bounds m1) as B1. rewrite H1 in B1.
  pose proof (digits2_pos_bounds m2) as B2. rewrite H2 in B2.
  change (53 - 1) with 52 in B1, B2.
  assert (Hprod : 2 ^ 104 <= Z.pos (m1 * m2) < 2 ^ 106).
  { rewrite Pos2Z.inj_mul.
    change (2 ^ 104) with (2 ^ 52 * 2 ^ 52).
    change (2 ^ 106) with (2 ^ 53 * 2 ^ 53).
    split; [apply Z.mul_le_mono_nonneg|apply Z.mul_lt_mono_nonneg]; lia. }
  pose proof (Zdigits2_range (Z.pos (m1 * m2)) 104 106 ltac:(lia) ltac:(lia)
                Hprod) as Hd.
  destruct (binary_round_aux_normal (xorb s1 s2) (Z.pos (m1 * m2)) (e1 + e2)
              loc_Exact ltac:(lia) ltac:(lia) ltac:(lia))
    as [[_ Hbig]|(m & e & Hr & Hb & _ & Hm)]; [lia|].
  exists m, e. repeat split; try assumption; lia.
Qed.

Lemma shiftl_pow (m s : Z) : 0 <= s -> Z.shiftl m s = m * 2 ^ s.
Proof. intros Hs. now apply Z.shiftl_mul_pow2. Qed.

(** The quotient of two finite doubles of moderate size is a normal
    double, whether or not the operands are normalised. *)
Lemma num_div_normal (s1 s2 : bool) (m1 m2 : positive) (e1 e2 : Z) :
  let d1 := Z.pos (digits2_pos m1) in
  let d2 := Z.pos (digits2_pos m2) in
  d1 - d2 <= 52 -> -1020 <= d1 + e1 - (d2 + e2) <= 1020 ->
  exists m e,
    num_div (S754_finite s1 m1 e1) (S754_finite s2 m2 e2) =
    S754_finite (xorb s1 s2) m e /\
    Z.pos (digits2_pos m) = 53 /\
    d1 + e1 - (d2 + e2) - 53 <= e <= d1 + e1 - (d2 + e2) - 51.
Proof.
  intros d1 d2 Hdd Hd. unfold num_div, SFdiv, SFdiv_core_binary.
  change (Zdigits2 (Z.pos m1)) with d1. change (Zdigits2 (Z.pos m2)) with d2.
  set (d := d1 + e1 - (d2 + e2)) in *.
  assert (Hf : fexp prec emax d = d - 53)
    by (unfold fexp, emin, prec, emax; lia).
  rewrite Hf.
  assert (Hmin : Z.min (d - 53) (e1 - e2) = d - 53) by (unfold d; lia).
  change (IntDef.Z.min (d - 53) (e1 - e2)) with (Z.min (d - 53) (e1 - e2)).
  rewrite Hmin.
  set (s := e1 - e2 - (d - 53)).
  assert (Hs : s = 53 - d1 + d2) by (unfold s, d; lia).
  assert (Hspos : 0 < s) by lia.
  destruct s as [|sp|sp] eqn:Es; try lia.
  rewrite <- Es. clear Es.
  change (IntDef.Z.shiftl (Z.pos m1) s) with (Z.shiftl (Z.pos m1) s).
  rewrite shiftl_pow by lia.
  change (IntDef.Z.div_eucl (Z.pos m1 * 2 ^ s) (Z.pos m2))
    with (Z.div_eucl (Z.pos m1 * 2 ^ s) (Z.pos m2)).
  pose proof (Z_div_mod (Z.pos m1 * 2 ^ s) (Z.pos m2) ltac:(lia)) as Hdiv.
  destruct (Z.div_eucl (Z.pos m1 * 2 ^ s) (Z.pos m2)) as [q r].
  destruct Hdiv as [Heq Hr].
  pose proof (digits2_pos_bounds m1) as B1. fold d1 in B1.
  pose proof (digits2_pos_bounds m2) as B2. fold d2 in B2.
  assert (Hd1 : 0 < d1) by (unfold d1; lia).
  assert (Hd2 : 0 < d2) by (unfold d2; lia).
  assert (Hq : 2 ^ 52 <= q < 2 ^ 54).
  { assert (Hlow : 2 ^ 52 * 2 ^ d2 <= Z.pos m1 * 2 ^ s).
    { rewrite <- Z.pow_add_r by lia.
      replace (52 + d2) with (d1 - 1 + s) by lia.
      rewrite Z.pow_add_r by lia.
      apply Z.mul_le_mono_nonneg_r; [apply Z.pow_nonneg|]; lia. }
    assert (Hup : Z.pos m1 * 2 ^ s < 2 ^ 54 * 2 ^ (d2 - 1)).
    { rewrite <- Z.pow_add_r by lia.
      replace (54 + (d2 - 1)) with (d1 + s) by lia.
      rewrite Z.pow_add_r by lia.
      apply Z.mul_lt_mono_pos_r; [apply Z.pow_pos_nonneg|]; lia. }
    remember (2 ^ 52) as a. remember (2 ^ 54) as b.
    assert (0 < a) by (subst a; reflexivity).
    assert (0 < b) by (subst b; reflexivity).
    remember (2 ^ d2) as u2. remember (2 ^ (d2 - 1)) as l2.
    remember (Z.pos m1 * 2 ^ s) as num.
    split.
    - destruct (Z_le_gt_dec a q) as [Hle|Hgt]; [exact Hle|exfalso].
      assert (q + 1 <= a) by lia.
      assert (Z.pos m2 * (q + 1) <= Z.pos m2 * a)
        by (apply Z.mul_le_mono_nonneg_l; lia).
      assert (Z.pos m2 * a < u2 * a) by (apply Z.mul_lt_mono_pos_r; lia).
      lia.
    - destruct (Z_lt_le_dec q b) as [Hlt|Hge]; [exact Hlt|exfalso].
      assert (Z.pos m2 * b <= Z.pos m2 * q)
        by (apply Z.mul_le_mono_nonneg_l; lia).
      assert (l2 * b <= Z.pos m2 * b) by (apply Z.mul_le_mono_nonneg_r; lia).
      lia. }
  assert (Hqpos : 0 < q).
  { pose proof (Z.pow_pos_nonneg 2 52 ltac:(lia) ltac:(lia)). lia. }
  pose proof (Zdigits2_range q 52 54 Hqpos ltac:(lia) Hq) as Hdq.
  destruct (binary_round_aux_normal (xorb s1 s2) q (d - 53)
              (new_location (Z.pos m2) r)
              Hqpos ltac:(lia) ltac:(lia))
    as [[_ Hbig]|(m & e & Hres & Hb & _ & Hm)]; [lia|].
  exists m, e. repeat split; try assumption; lia.
Qed.

Local Close Scope Z_scope.

(** ** The input of the converter *)

Lemma is_digit_range (c : char) :
  is_digit c = true -> (48 <= c <= 57)%N.
Proof.
  unfold is_digit. intros H. apply andb_true_iff in H as [H1 H2].
  apply N.leb_le in H1, H2. split; assumption.
Qed.

Lemma is_digit_not (c x : char) :
  is_digit c = true -> (x < 48 \/ 57 < x)%N -> N.eqb c x = false.
Proof.
  intros H Hx. apply is_digit_range in H. apply N.eqb_neq. lia.
Qed.

Lemma digit_char_digit (d : digit) : is_digit (digit_char d) = true.
Proof. now destruct d. Qed.

Lemma includes_point_digits (ds : jsstring) :
  forallb is_digit ds = true -> includes_char 46 ds = false.
Proof.
  unfold includes_char. induction ds as [|c ds IH]; [reflexivity|].
  cbn [forallb existsb]. intros H. apply andb_true_iff in H as [Hc Hds].
  rewrite (IH Hds), N.eqb_sym, (is_digit_not c 46 Hc) by (left; reflexivity).
  reflexivity.
Qed.

Lemma includes_point_keypad (ip fp : jsstring) (dot : bool) :
  forallb is_digit ip = true ->
  includes_char 46 (keypad_text ip fp dot) = dot.
Proof.
  intros Hip. unfold keypad_text.
  rewrite includes_char_app, (includes_point_digits ip Hip).
  now destruct dot.
Qed.

Lemma remove_first_dot_digits (ds t : jsstring) :
  forallb is_digit ds = true ->
  remove_first_dot (ds ++ t) = ds ++ remove_first_dot t.
Proof.
  induction ds as [|c ds IH]; [reflexivity|].
  cbn [forallb app remove_first_dot]. intros H.
  apply andb_true_iff in H as [Hc Hds].
  rewrite (is_digit_not c 46 Hc) by (left; reflexivity).
  now rewrite IH.
Qed.

Lemma remove_first_dot_keypad (ip fp : jsstring) (dot : bool) :
  forallb is_digit ip = true -> (dot = false -> fp = []) ->
  remove_first_dot (keypad_text ip fp dot) = ip ++ fp.
Proof.
  intros Hip Hfp. unfold keypad_text. rewrite remove_first_dot_digits by exact Hip.
  destruct dot; [reflexivity|]. now rewrite Hfp.
Qed.

Lemma keypad_input_zero : keypad_input (u "0").
Proof.
  exists (u "0"), [], false. repeat split; try reflexivity; try discriminate.
  cbn. lia.
Qed.

Lemma keypad_input_digit (d : digit) : keypad_input [digit_char d].
Proof.
  exists [digit_char d], [], false.
  repeat split; try reflexivity; try discriminate.
  - cbn [forallb]. now rewrite digit_char_digit.
  - cbn. lia.
Qed.

Lemma forallb_snoc (A : Type) (f : A -> bool) (l : list A) (x : A) :
  forallb f (l ++ [x]) = forallb f l && f x.
Proof. rewrite forallb_app. cbn. now rewrite andb_true_r. Qed.

(** Dropping the last character of an input of two characters or more. *)
Lemma keypad_input_drop_last (s : jsstring) :
  keypad_input s -> (2 <= length s)%nat ->
  keypad_input (slice_drop_last 1 s).
Proof.
  intros (ip & fp & dot & -> & Hne & Hip & Hfp & Hdot & Hlen) Hl.
  destruct dot.
  - destruct (rev fp) as [|x rfp] eqn:Hr.
    + (* the point goes *)
      apply (f_equal (@rev _)) in Hr. rewrite rev_involutive in Hr.
      cbn in Hr. subst fp. unfold keypad_text.
      change (u "." ++ []) with [46%N]. rewrite slice_drop_last_snoc.
      exists ip, [], false. unfold keypad_text. rewrite app_nil_r.
      repeat split; try assumption; try reflexivity.
    + apply (f_equal (@rev _)) in Hr. rewrite rev_involutive in Hr.
      cbn [rev] in Hr. subst fp. unfold keypad_text.
      replace (ip ++ u "." ++ rev rfp ++ [x])
        with ((ip ++ u "." ++ rev rfp) ++ [x])
        by (now rewrite <- !app_assoc).
      rewrite slice_drop_last_snoc.
      rewrite forallb_snoc in Hfp. apply andb_true_iff in Hfp as [Hfp _].
      exists ip, (rev rfp), true. unfold keypad_text.
      repeat split; try assumption; try discriminate.
      rewrite length_app in Hlen. cbn [length] in Hlen. lia.
  - rewrite (Hdot eq_refl) in *. unfold keypad_text in *.
    rewrite app_nil_r in *.
    destruct (rev ip) as [|x rip] eqn:Hr.
    + apply (f_equal (@rev _)) in Hr. rewrite rev_involutive in Hr.
      cbn in Hr. contradiction.
    + apply (f_equal (@rev _)) in Hr. rewrite rev_involutive in Hr.
      cbn [rev] in Hr. subst ip. rewrite slice_drop_last_snoc.
      rewrite forallb_snoc in Hip. apply andb_true_iff in Hip as [Hip _].
      rewrite length_app in Hl, Hlen. cbn [length] in Hl, Hlen.
      exists (rev rip), [], false. unfold keypad_text. rewrite app_nil_r.
      repeat split; try assumption; try reflexivity.
      * intros Heq. rewrite Heq in Hl. cbn in Hl. lia.
      * cbn [length]. lia.
Qed.

(** A key appended to the input, when the twelve digits are not
    exceeded. *)
Lemma keypad_input_append (s : jsstring) (k : ckey) :
  keypad_input s ->
  (ckey_text k = u "." -> includes_char 46 s = false) ->
  (length (remove_first_dot (s ++ ckey_text k)) <= 12)%nat ->
  keypad_input (s ++ ckey_text k).
Proof.
  intros (ip & fp & dot & -> & Hne & Hip & Hfp & Hdot & Hlen) Hk Hl.
  destruct k as [d|]; cbn [ckey_text] in *.
  - pose proof (digit_char_digit d) as Hd.
    destruct dot.
    + exists ip, (fp ++ [digit_char d]), true. unfold keypad_text in *.
      rewrite <- !app_assoc in Hl. rewrite remove_first_dot_digits in Hl by exact Hip.
      cbn [u map list_ascii_of_string app remove_first_dot] in Hl.
      change (N.eqb (code ".") 46) with true in Hl. cbv iota in Hl.
      rewrite !length_app in Hl. rewrite length_app.
      repeat split; try assumption; try discriminate.
      * now rewrite <- !app_assoc.
      * rewrite forallb_snoc, Hfp, Hd. reflexivity.
    + rewrite (Hdot eq_refl) in *. unfold keypad_text in *.
      rewrite app_nil_r in *.
      rewrite remove_first_dot_digits in Hl by exact Hip.
      cbn [remove_first_dot] in Hl.
      rewrite (is_digit_not _ 46 Hd) in Hl by (left; reflexivity).
      cbn [remove_first_dot] in Hl. rewrite length_app in Hl.
      exists (ip ++ [digit_char d]), [], false. unfold keypad_text.
      rewrite app_nil_r, length_app.
      repeat split; try reflexivity.
      * intros Heq. apply app_eq_nil in Heq as [_ Heq]. discriminate.
      * rewrite forallb_snoc, Hip, Hd. reflexivity.
      * cbn [length] in *. lia.
  - specialize (Hk eq_refl). rewrite includes_point_keypad in Hk by exact Hip.
    subst dot. rewrite (Hdot eq_refl) in *. unfold keypad_text in *.
    rewrite app_nil_r in *.
    exists ip, [], true. unfold keypad_text.
    repeat split; try assumption; try reflexivity; try discriminate.
Qed.

Lemma currencyNum_input (k : ckey) (c : currency) :
  keypad_input (currencyInputStr c) ->
  keypad_input (currencyInputStr (currencyNum (ckey_text k) c)).
Proof.
  intros H. unfold currencyNum.
  destruct (str_eqb (ckey_text k) (u ".")
            && includes_char 46 (currencyInputStr c)) eqn:Hdup; [exact H|].
  destruct (str_eqb (currencyInputStr c) (u "0")
            && negb (str_eqb (ckey_text k) (u "."))) eqn:Hzero.
  - destruct k as [d|]; [|apply andb_true_iff in Hzero as [_ Hz]; discriminate].
    cbn [ckey_text remove_first_dot].
    rewrite (is_digit_not _ 46 (digit_char_digit d)) by (left; reflexivity).
    cbn [remove_first_dot length Nat.ltb Nat.leb].
    cbn [currencyInputStr set_inputEl set_input]. apply keypad_input_digit.
  - destruct (12 <? length (remove_first_dot (currencyInputStr c ++ ckey_text k)))%nat
      eqn:Hlong; cbn [currencyInputStr set_inputEl set_input].
    + replace (slice_drop_last 1 (currencyInputStr c ++ ckey_text k))
        with (currencyInputStr c); [exact H|].
      destruct k; cbn [ckey_text]; [|change (u ".") with [46%N]];
        now rewrite slice_drop_last_snoc.
    + apply Nat.ltb_ge in Hlong. apply keypad_input_append; try assumption.
      intros Hk. rewrite Hk in Hdup. cbn [andb] in Hdup.
      rewrite str_eqb_refl in Hdup. exact Hdup.
Qed.

Lemma currencyBackspace_input (c : currency) :
  keypad_input (currencyInputStr c) ->
  keypad_input (currencyInputStr (currencyBackspace c)).
Proof.
  intros H. unfold currencyBackspace.
  cbn [currencyInputStr set_inputEl set_input].
  destruct (length (currencyInputStr c) <=? 1)%nat eqn:Hl.
  - apply keypad_input_zero.
  - apply Nat.leb_gt in Hl. apply keypad_input_drop_last; [exact H|lia].
Qed.

Lemma convertCurrency_input (c : currency) :
  currencyInputStr (convertCurrency c) = currencyInputStr c.
Proof. unfold convertCurrency. now destruct (isNaN _). Qed.

Lemma cstep_input (a : caction) (c : currency) :
  keypad_input (currencyInputStr c) ->
  keypad_input (currencyInputStr (cstep a c)).
Proof.
  intros H. destruct a; cbn [cstep].
  - now apply currencyNum_input.
  - apply keypad_input_zero.
  - now apply currencyBackspace_input.
  - apply keypad_input_zero.
  - unfold swapCurrency. rewrite convertCurrency_input. exact H.
  - now rewrite convertCurrency_input.
Qed.

Lemma crun_input (acts : list caction) (c : currency) :
  keypad_input (currencyInputStr c) ->
  keypad_input (currencyInputStr (crun acts c)).
Proof.
  revert c. induction acts as [|a acts IH]; intros c H; [exact H|].
  cbn [crun fold_left]. apply IH. now apply cstep_input.
Qed.

(** ** The amount read from the input *)

Lemma value_of_digits_fold (ds : jsstring) (acc : N) :
  forallb is_digit ds = true ->
  (fold_left (fun a c => 10 * a + (c - 48)) ds acc + 1
   <= (acc + 1) * 10 ^ N.of_nat (length ds))%N.
Proof.
  revert acc. induction ds as [|c ds IH]; intros acc H.
  - cbn. lia.
  - cbn [forallb] in H. apply andb_true_iff in H as [Hc Hds].
    apply is_digit_range in Hc.
    cbn [fold_left length]. rewrite Nat2N.inj_succ, N.pow_succ_r'.
    specialize (IH (10 * acc + (c - 48))%N Hds).
    remember (10 ^ N.of_nat (length ds))%N as P.
    remember (fold_left (fun a c0 => 10 * a + (c0 - 48)) ds
                (10 * acc + (c - 48)))%N as v.
    assert (Hle : ((10 * acc + (c - 48) + 1) * P <= (acc + 1) * (10 * P))%N).
    { replace ((acc + 1) * (10 * P))%N with ((10 * acc + 10) * P)%N by lia.
      apply N.mul_le_mono_r. lia. }
    lia.
Qed.

Lemma value_of_digits_bound (ds : jsstring) :
  forallb is_digit ds = true -> (length ds <= 12)%nat ->
  (Z.of_N (value_of_digits ds) < 10 ^ 12)%Z.
Proof.
  intros Hd Hl. pose proof (value_of_digits_fold ds 0 Hd) as H.
  fold (value_of_digits ds) in H.
  assert (Hp : (10 ^ N.of_nat (length ds) <= 10 ^ 12)%N)
    by (apply N.pow_le_mono_r; lia).
  change (10 ^ 12)%Z with (Z.of_N (10 ^ 12)). lia.
Qed.

Lemma take_digits_app (ds t : jsstring) :
  forallb is_digit ds = true ->
  match t with c :: _ => is_digit c = false | [] => True end ->
  take_digits (ds ++ t) = (ds, t).
Proof.
  intros Hds Ht. induction ds as [|c ds IH].
  - destruct t as [|c t]; [reflexivity|]. cbn [app take_digits]. now rewrite Ht.
  - cbn [forallb] in Hds. apply andb_true_iff in Hds as [Hc Hds].
    cbn [app take_digits]. now rewrite Hc, (IH Hds).
Qed.

Lemma is_digit_not_space (c : char) : is_digit c = true -> is_space c = false.
Proof.
  intros H. apply is_digit_range in H. unfold is_space.
  repeat match goal with
         | |- (_ || _)%bool = false => apply orb_false_iff; split
         | |- (_ && _)%bool = false => apply andb_false_iff
         end;
    try (apply N.eqb_neq; lia).
  - right. apply N.leb_gt. lia.
  - left. apply N.leb_gt. lia.
Qed.

Lemma parseFloat_keypad (ip fp : jsstring) (dot : bool) :
  ip <> [] -> forallb is_digit ip = true -> forallb is_digit fp = true ->
  (dot = false -> fp = []) ->
  parseFloat (keypad_text ip fp dot) =
    if (Z.of_N (value_of_digits (ip ++ fp)) =? 0)%Z then S754_zero false
    else num_of_decimal (Z.of_N (value_of_digits (ip ++ fp)))
                        (- Z.of_nat (length fp)).
Proof.
  intros Hne Hip Hfp Hdot.
  destruct ip as [|d ip']; [contradiction|]. clear Hne.
  pose proof Hip as Hd. cbn [forallb] in Hd. apply andb_true_iff in Hd as [Hd _].
  set (tail := if dot then u "." ++ fp else []).
  assert (Htake : take_digits ((d :: ip') ++ tail) = (d :: ip', tail)).
  { apply take_digits_app; [exact Hip|]. unfold tail. now destruct dot. }
  unfold parseFloat, keypad_text. fold tail.
  change ((d :: ip') ++ tail) with (d :: ip' ++ tail) in *.
  cbn [skip_spaces]. rewrite (is_digit_not_space d Hd).
  cbn [take_sign].
  rewrite (is_digit_not d 45 Hd), (is_digit_not d 43 Hd) by (left; reflexivity).
  change (u "Infinity") with (73%N :: u "nfinity"). cbn [starts_with].
  rewrite N.eqb_sym, (is_digit_not d 73 Hd) by (right; reflexivity).
  cbn [andb]. rewrite Htake.
  unfold tail. destruct dot.
  - change (u "." ++ fp) with (46%N :: fp). cbv iota beta.
    change (N.eqb 46 46) with true. cbv iota.
    rewrite (take_digits_all fp Hfp). cbn [is_empty andb parse_exponent].
    rewrite Z.sub_0_l. reflexivity.
  - rewrite (Hdot eq_refl). cbn [is_empty andb parse_exponent length].
    reflexivity.
Qed.

Local Open Scope Z_scope.

Lemma digits2_pos_unique (m : positive) (n : Z) :
  2 ^ (n - 1) <= Z.pos m < 2 ^ n -> 0 < n -> Z.pos (digits2_pos m) = n.
Proof. intros H Hn. exact (Zdigits2_unique (Z.pos m) n H Hn). Qed.

(** A positive integer below [2^53] is a normal double. *)
Lemma num_of_Z_normal (p : positive) :
  Z.pos p < 2 ^ 53 ->
  normal_between (Z.pos (digits2_pos p) - 53) (Z.pos (digits2_pos p) - 53)
                 (num_of_Z (Z.pos p)).
Proof.
  intros Hp. pose proof (digits2_below_2_53 p Hp) as Hd.
  rewrite num_of_Z_small; [|discriminate|exact Hd].
  change (Z.pos p <? 0) with false. cbn [Z.abs Z.to_pos].
  unfold small_double.
  pose proof (digits2_pos_bounds p) as [Hlo Hhi].
  set (d := Z.pos (digits2_pos p)) in *.
  assert (Hdpos : 0 < d) by (unfold d; lia).
  pose proof (Z.pow_pos_nonneg 2 (53 - d) ltac:(lia) ltac:(lia)) as Hpow.
  assert (Hm : 2 ^ 52 <= Z.pos p * 2 ^ (53 - d) < 2 ^ 53).
  { assert (E52 : 2 ^ 52 = 2 ^ (d - 1) * 2 ^ (53 - d))
      by (rewrite <- Z.pow_add_r by lia; f_equal; lia).
    assert (E53 : 2 ^ 53 = 2 ^ d * 2 ^ (53 - d))
      by (rewrite <- Z.pow_add_r by lia; f_equal; lia).
    rewrite E52, E53. split.
    - apply Z.mul_le_mono_nonneg_r; lia.
    - apply Z.mul_lt_mono_pos_r; lia. }
  exists (Z.to_pos (Z.pos p * 2 ^ (53 - d))), (d - 53).
  split; [reflexivity|]. split; [|lia].
  apply digits2_pos_unique; [|lia]. rewrite Z2Pos.id by lia. exact Hm.
Qed.

Lemma normal_between_weaken (lo hi lo' hi' : Z) (x : number) :
  normal_between lo hi x -> lo' <= lo -> hi <= hi' ->
  normal_between lo' hi' x.
Proof.
  intros (m & e & Hx & Hm & He) Hlo Hhi. exists m, e.
  repeat split; try assumption; lia.
Qed.

(** A positive decimal of at most twelve digits, at most eleven of them
    after the point, is read as a normal double. *)
Lemma num_of_decimal_normal (mant : Z) (k : nat) :
  0 < mant < 10 ^ 12 -> (k <= 11)%nat ->
  normal_between (-89) (-12) (num_of_decimal mant (- Z.of_nat k)).
Proof.
  intros [Hpos Hlt] Hk. unfold num_of_decimal.
  destruct mant as [|m|m]; try lia.
  assert (Hm40 : Z.pos m < 2 ^ 40) by (change (2 ^ 40) with 1099511627776; lia).
  pose proof (Zdigits2_range (Z.pos m) 0 40 ltac:(lia) ltac:(lia)
                ltac:(split; [change (2 ^ 0) with 1; lia|exact Hm40])) as Hdm.
  cbn [Zdigits2] in Hdm.
  destruct k as [|k].
  - cbn [Z.of_nat Z.opp Z.leb Z.compare]. change (10 ^ 0) with 1.
    rewrite Z.mul_1_r.
    apply (normal_between_weaken _ _ _ _ _ (num_of_Z_normal m ltac:(lia))); lia.
  - replace (0 <=? - Z.of_nat (S k)) with false
      by (symmetry; apply Z.leb_gt; lia).
    rewrite Z.opp_involutive. unfold num_of_ratio.
    set (K := Z.of_nat (S k)).
    assert (HK : 1 <= K <= 11) by (unfold K; lia).
    assert (Hten : 2 ^ 3 <= 10 ^ K < 2 ^ 37).
    { split.
      - change (2 ^ 3) with 8.
        pose proof (Z.pow_le_mono_r 10 1 K ltac:(lia) ltac:(lia)) as H.
        change (10 ^ 1) with 10 in H. lia.
      - pose proof (Z.pow_le_mono_r 10 K 11 ltac:(lia) ltac:(lia)) as H.
        change (10 ^ 11) with 100000000000 in H.
        change (2 ^ 37) with 137438953472. lia. }
    assert (Htpos : 0 < 10 ^ K) by (apply Z.pow_pos_nonneg; lia).
    pose proof (Zdigits2_range (10 ^ K) 3 37 Htpos ltac:(lia) Hten) as Hdt.
    destruct (10 ^ K) as [|t|t] eqn:Et; try lia.
    cbn [Z.to_pos Zdigits2] in *.
    destruct (num_div_normal false false m t 0 0 ltac:(lia) ltac:(lia))
      as (m' & e' & Hq & Hm' & He').
    exists m', e'. split; [exact Hq|]. split; [exact Hm'|]. lia.
Qed.

(** What the converter reads from its input: zero, or a normal double. *)
Lemma parseFloat_keypad_input (s : jsstring) :
  keypad_input s ->
  parseFloat s = S754_zero false \/ normal_between (-89) (-12) (parseFloat s).
Proof.
  intros (ip & fp & dot & -> & Hne & Hip & Hfp & Hdot & Hlen).
  rewrite (parseFloat_keypad ip fp dot Hne Hip Hfp Hdot).
  destruct (Z.of_N (value_of_digits (ip ++ fp)) =? 0) eqn:Hz; [now left|right].
  apply Z.eqb_neq in Hz.
  assert (Hdig : forallb is_digit (ip ++ fp) = true)
    by (rewrite forallb_app, Hip, Hfp; reflexivity).
  pose proof (value_of_digits_bound (ip ++ fp) Hdig
                ltac:(rewrite length_app; lia)) as Hb.
  apply num_of_decimal_normal; [lia|].
  destruct ip; [contradiction|]. cbn [length] in Hlen. lia.
Qed.

Local Close Scope Z_scope.

(** ** The converted amount *)

Lemma rate_normal (p : pair) : normal_between (-56) (-42) (rate (RATES p)).
Proof.
  destruct p; cbn [RATES rate]; eexists; eexists;
    (split; [vm_compute; reflexivity|]);
    (split; [vm_compute; reflexivity|lia]).
Qed.

(** The amount converted from an input of the pad is zero or a normal
    double, whatever the pair and the direction. *)
Lemma converted_amount_finite (c : currency) :
  keypad_input (currencyInputStr c) ->
  isFinite (converted_amount c) = true.
Proof.
  intros H. unfold converted_amount.
  destruct (rate_normal (currentPair c)) as (mr & er & -> & Hmr & Her).
  destruct (parseFloat_keypad_input _ H) as [-> | (m & e & -> & Hm & He)].
  - now destruct (pairSwapped c).
  - destruct (pairSwapped c).
    + destruct (num_div_normal false false m mr e er) as (m' & e' & -> & _);
        cbv zeta; try lia. reflexivity.
    + destruct (num_mul_normal false false m mr e er Hm Hmr) as (m' & e' & -> & _);
        [lia|reflexivity].
Qed.

Lemma keypad_input_not_NaN (s : jsstring) :
  keypad_input s -> isNaN (parseFloat s) = false.
Proof.
  intros H.
  destruct (parseFloat_keypad_input s H) as [-> | (m & e & -> & _)];
    reflexivity.
Qed.

(** ** Two fraction digits *)

Lemma before_point_app (g t : jsstring) :
  includes_char 46 g = false -> before_point (g ++ 46%N :: t) = g.
Proof.
  unfold includes_char. induction g as [|c g IH]; cbn [app before_point existsb].
  - reflexivity.
  - intros H. apply orb_false_iff in H as [Hc Hg].
    rewrite N.eqb_sym, Hc. now rewrite IH.
Qed.

Lemma after_point_app (g t : jsstring) :
  includes_char 46 g = false -> after_point (g ++ 46%N :: t) = Some t.
Proof.
  unfold includes_char. induction g as [|c g IH]; cbn [app after_point existsb].
  - reflexivity.
  - intros H. apply orb_false_iff in H as [Hc Hg].
    rewrite N.eqb_sym, Hc. now rewrite IH.
Qed.

(** A number below one hundred padded to two digits. *)
Lemma pad_two_digits (r : Z) :
  (0 <= r < 100)%Z ->
  exists d1 d2,
    pad_left_zeros 2 (digits_of_Z r) = [d1; d2] /\
    is_digit d1 = true /\ is_digit d2 = true.
Proof.
  intros Hr. destruct (digits_of_Z_digits r) as [Hd _].
  assert (Hlen : r = 0%Z \/ Z.of_nat (length (digits_of_Z r)) = 1%Z
                 \/ Z.of_nat (length (digits_of_Z r)) = 2%Z).
  { destruct (Z.eq_dec r 0) as [Hz|Hz]; [now left|right].
    destruct (Z_lt_le_dec r 10) as [Hs|Hs].
    - left. apply digits_of_Z_length; [lia|]. change (10 ^ (1 - 1))%Z with 1%Z.
      change (10 ^ 1)%Z with 10%Z. lia.
    - right. apply digits_of_Z_length; [lia|]. change (10 ^ (2 - 1))%Z with 10%Z.
      change (10 ^ 2)%Z with 100%Z. lia. }
  destruct Hlen as [-> | [Hl | Hl]].
  - exists 48%N, 48%N. repeat split.
  - destruct (digits_of_Z r) as [|a [|b l]]; cbn [length] in Hl; try lia.
    cbn [forallb] in Hd. rewrite andb_true_r in Hd.
    exists 48%N, a. repeat split. exact Hd.
  - destruct (digits_of_Z r) as [|a [|b [|x l]]]; cbn [length] in Hl; try lia.
    cbn [forallb] in Hd. rewrite andb_true_r in Hd.
    apply andb_true_iff in Hd as [Ha Hb].
    exists a, b. repeat split; assumption.
Qed.

Lemma group_thousands_head (ds : jsstring) :
  ds <> [] -> forallb is_digit ds = true ->
  exists d rest, group_thousands ds = d :: rest /\ is_digit d = true.
Proof.
  intros Hne Hd. destruct ds as [|d ds]; [contradiction|].
  cbn [forallb] in Hd. apply andb_true_iff in Hd as [Hd _].
  cbn [group_thousands]. eexists; eexists; split; [reflexivity|exact Hd].
Qed.

(** A finite number rendered with two fraction digits: the grouped
    integer part, a point and two digits. *)
Lemma toLocaleString_two_digits (x : number) :
  isFinite x = true -> two_fraction_digits (toLocaleString 2 2 x) = true.
Proof.
  intros Hfin.
  set (n := rounded_fixed 2 x).
  assert (Hshape : toLocaleString 2 2 x =
            (if is_negative x then u "-" else []) ++
            group_thousands (digits_of_Z (n / 10 ^ Z.of_nat 2)) ++
            (let fr' := rev (drop_zeros (2 - 2)
                         (rev (firstn 2 (pad_left_zeros 2
                            (digits_of_Z (n mod 10 ^ Z.of_nat 2)))))) in
             if is_empty fr' then [] else u "." ++ fr')).
  { destruct x; try discriminate; reflexivity. }
  rewrite Hshape. clear Hshape.
  change (10 ^ Z.of_nat 2)%Z with 100%Z.
  destruct (pad_two_digits (n mod 100) ltac:(apply Z.mod_pos_bound; lia))
    as (d1 & d2 & -> & Hd1 & Hd2).
  cbn [firstn rev app drop_zeros Nat.sub is_empty].
  change (u "." ++ [d1; d2]) with (46%N :: [d1; d2]).
  destruct (digits_of_Z_digits (n / 100)) as [Hd Hne].
  pose proof (group_thousands_no_point _ Hd) as Hnp.
  pose proof (well_grouped_group_thousands _ Hne Hd) as Hwg.
  destruct (group_thousands_head _ Hne Hd) as (d & rest & Hg & Hdd).
  set (G := group_thousands (digits_of_Z (n / 100))) in *.
  assert (Hbody : two_fraction_digits (G ++ 46%N :: [d1; d2]) = true).
  { unfold two_fraction_digits.
    rewrite Hg. cbn [app]. rewrite (is_digit_not d 45 Hdd) by (left; reflexivity).
    change (d :: rest ++ 46%N :: [d1; d2]) with ((d :: rest) ++ 46%N :: [d1; d2]).
    rewrite <- Hg, before_point_app, after_point_app, Hwg, Hd1, Hd2 by exact Hnp.
    reflexivity. }
  destruct (is_negative x); [|exact Hbody].
  unfold two_fraction_digits in *. change (u "-" ++ ?t) with (45%N :: t).
  cbn [app]. change (N.eqb 45 45) with true. cbv iota.
  rewrite Hg in Hbody. cbn [app] in Hbody.
  rewrite (is_digit_not d 45 Hdd) in Hbody by (left; reflexivity).
  rewrite Hg. exact Hbody.
Qed.

Lemma convertCurrency_result (c : currency) :
  currencyResultEl (convertCurrency c) =
    if isNaN (parseFloat (currencyInputStr c)) then u "Invalid"
    else destination_symbol c ++ u " " ++
         toLocaleString 2 2 (converted_amount c).
Proof.
  unfold convertCurrency, destination_symbol, converted_amount.
  destruct (isNaN _); [reflexivity|]. cbn [currencyResultEl].
  now destruct (pairSwapped c).
Qed.

(** C9.  [convertCurrency] displays the symbol of the unit converted to,
    a space and the amount with two fraction digits, the amount being the
    input times the rate of the pair, or divided by it when the direction
    is swapped (and [Invalid] for an input that is not a number).
    Whatever has been done on the converter since the page was loaded,
    its input is a number and the amount displayed has thousands
    separators and exactly two fraction digits.  For the pair usd-ngn and
    the input [10] the display is the naira sign and [15,800.00]. *)
Theorem convert_displays (c : currency) (acts : list caction) :
  currencyResultEl (convertCurrency c) =
    (if isNaN (parseFloat (currencyInputStr c)) then u "Invalid"
     else destination_symbol c ++ u " " ++
          toLocaleString 2 2 (converted_amount c)) /\
  isNaN (parseFloat (currencyInputStr (crun acts currency_initial))) = false /\
  two_fraction_digits
    (toLocaleString 2 2 (converted_amount (crun acts currency_initial)))
  = true /\
  currencyResultEl
    (convertCurrency (set_input (u "10") (selectPair usd_ngn c)))
  = [ch_naira] ++ u " 15,800.00".
Proof.
  pose proof (crun_input acts currency_initial keypad_input_zero) as Hin.
  split; [apply convertCurrency_result|].
  split; [now apply keypad_input_not_NaN|].
  split; [now apply toLocaleString_two_digits, converted_amount_finite|].
  rewrite convertCurrency_result.
  unfold converted_amount, destination_symbol.
  cbn [currencyInputStr currentPair pairSwapped set_input selectPair
       updateCurrencyLabel].
  vm_compute. reflexivity.
Qed.

(** ** The display of the expression *)

Lemma replace_char_map (x y : char) (s : jsstring) :
  replace_char x [y] s = map (fun c => if N.eqb c x then y else c) s.
Proof.
  unfold replace_char. induction s as [|c s IH]; [reflexivity|].
  cbn [flat_map map]. rewrite IH. now destruct (N.eqb c x).
Qed.

Lemma formatExpression_map (e : jsstring) :
  formatExpression e = map display_glyph e.
Proof.
  unfold formatExpression. rewrite !replace_char_map, !map_map.
  apply map_ext. intros c. unfold display_glyph.
  destruct (N.eqb c 42) eqn:H1; [reflexivity|].
  destruct (N.eqb c 47) eqn:H2; [reflexivity|].
  reflexivity.
Qed.

Lemma display_glyph_not_ascii (c : char) :
  N.eqb 42 (display_glyph c) = false /\ N.eqb 47 (display_glyph c) = false /\
  N.eqb 45 (display_glyph c) = false.
Proof.
  unfold display_glyph.
  destruct (N.eqb c 42) eqn:H1; [repeat split|].
  destruct (N.eqb c 47) eqn:H2; [repeat split|].
  destruct (N.eqb c 45) eqn:H3; [repeat split|].
  rewrite !(N.eqb_sym _ c), H1, H2, H3. repeat split.
Qed.

Lemma includes_char_map_glyph (x : char) (e : jsstring) :
  (forall c, N.eqb x (display_glyph c) = false) ->
  includes_char x (map display_glyph e) = false.
Proof.
  intros H. unfold includes_char.
  induction e as [|c e IH]; [reflexivity|].
  cbn [map existsb]. now rewrite H, IH.
Qed.

(** X1.  [formatExpression] works code unit by code unit: it keeps the
    length of the expression, shows the glyphs of multiplication,
    division and minus for [*], [/] and [-] and every other code unit as
    it is, and leaves no [*], [/] or [-] in the text shown. *)
Theorem formatExpression_glyphs (e : jsstring) :
  formatExpression e = map display_glyph e /\
  length (formatExpression e) = length e /\
  includes_char 42 (formatExpression e) = false /\
  includes_char 47 (formatExpression e) = false /\
  includes_char 45 (formatExpression e) = false.
Proof.
  rewrite formatExpression_map. split; [reflexivity|].
  split; [apply length_map|].
  repeat split; apply includes_char_map_glyph; intros c;
    apply display_glyph_not_ascii.
Qed.

(** ** The live preview *)

Lemma liveEvaluate_frame (E : Engine) (s : state) :
  historyOpen (liveEvaluate E s) = historyOpen s /\
  exprEl (liveEvaluate E s) = exprEl s /\
  (resultError (liveEvaluate E s) = resultError s \/
   resultError (liveEvaluate E s) = false).
Proof.
  unfold liveEvaluate.
  destruct (is_empty (expression s)); [repeat split; now right|].
  destruct (isOperator _); [repeat split; now left|].
  destruct (evaluateExpression E _) as [v|]; [|repeat split; now left].
  destruct (_ && _)%bool; [|repeat split; now left].
  destruct (formatResult_val v); repeat split; auto.
Qed.

(** X2.  The live preview changes nothing but the result line: the
    expression, the answer held, the history, the state of the history
    panel and the expression line are as before, and the error mark is
    as before or removed.  On an empty expression it shows [0]. *)
Theorem liveEvaluate_preview (E : Engine) (s : state) :
  expression (liveEvaluate E s) = expression s /\
  lastAnswer (liveEvaluate E s) = lastAnswer s /\
  history (liveEvaluate E s) = history s /\
  historyOpen (liveEvaluate E s) = historyOpen s /\
  exprEl (liveEvaluate E s) = exprEl s /\
  (resultError (liveEvaluate E s) = resultError s \/
   resultError (liveEvaluate E s) = false) /\
  resultEl (liveEvaluate E (set_expression [] s)) = u "0" /\
  resultError (liveEvaluate E (set_expression [] s)) = false.
Proof.
  destruct (liveEvaluate_frame E s) as (H1 & H2 & H3).
  split; [apply liveEvaluate_expression|].
  split; [apply liveEvaluate_lastAnswer|].
  split; [apply liveEvaluate_history|].
  repeat split; assumption.
Qed.

(** ** The outcome of a calculation *)

(** X3.  [calculate] on a non-empty expression always empties the
    expression.  Either it succeeds: the value is a number that is
    neither NaN nor infinite, it is held as the answer, its formatted
    text is shown without the error mark and recorded with the
    expression at the head of the history, and the expression line shows
    the expression followed by [=]; or it fails: [Error] or [Infinity]
    is shown with the error mark, no answer is held and the history is
    as before. *)
Theorem calculate_outcome (E : Engine) (now : jsstring) (s : state)
  (H : is_empty (expression s) = false) :
  expression (calculate E now s) = [] /\
  ((exists x,
      evaluateExpression E (expression s) = Returns (VNum x) /\
      isNaN x = false /\ isFinite x = true /\
      lastAnswer (calculate E now s) = Some x /\
      resultEl (calculate E now s) = formatResult x /\
      resultError (calculate E now s) = false /\
      history (calculate E now s) =
        addHistory_list (history s) (expression s) (formatResult x) now /\
      exprEl (calculate E now s) = formatExpression (expression s) ++ u " =")
   \/
   ((resultEl (calculate E now s) = u "Error" \/
     resultEl (calculate E now s) = u "Infinity") /\
    resultError (calculate E now s) = true /\
    lastAnswer (calculate E now s) = None /\
    history (calculate E now s) = history s)).
Proof.
  split; [apply calculate_expression|].
  unfold calculate. rewrite H.
  destruct (evaluateExpression E (expression s)) as [v|];
    [|right; repeat split; now left].
  destruct (isNaN (ToNumber v)) eqn:Hnan; [right; repeat split; now left|].
  destruct (isFinite (ToNumber v)) eqn:Hfin; cbn [negb];
    [|right; repeat split; now right].
  destruct v as [x|b]; cbn [formatResult_val].
  - left. exists x. repeat split; assumption.
  - right. repeat split. now left.
Qed.

Lemma calculate_outcome_witness :
  is_empty (expression (set_expression (u "1/0") initial)) = false /\
  resultEl (calculate sample_engine (u "10:00:00 AM")
              (set_expression (u "1/0") initial)) = u "Infinity".
Proof.
  split; [reflexivity|].
  destruct (calculate_outcome sample_engine (u "10:00:00 AM")
              (set_expression (u "1/0") initial) eq_refl) as [_ _].
  vm_compute. reflexivity.
Defined.

(** ** Recalling the history *)

(** X4.  [recallHistory] with an index at or beyond the end of the
    history changes nothing.  After [clearHistory] no index recalls
    anything, and with any index [recallHistory] leaves the history as
    it is. *)
Theorem recallHistory_out_of_range (i : nat) (s : state) :
  ((length (history s) <= i)%nat -> recallHistory i s = s) /\
  recallHistory i (clearHistory s) = clearHistory s /\
  history (recallHistory i s) = history s.
Proof.
  split; [|split].
  - intros H. unfold recallHistory. apply nth_error_None in H.
    now rewrite H.
  - unfold recallHistory. cbn [clearHistory set_history history].
    now destruct i.
  - unfold recallHistory. destruct (nth_error (history s) i); [|reflexivity].
    cbv zeta. destruct (negb (isNaN _)); reflexivity.
Qed.

Lemma recallHistory_out_of_range_witness :
  (length (history initial) <= 3)%nat /\ recallHistory 3 initial = initial.
Proof.
  split; [cbn; lia|].
  exact (proj1 (recallHistory_out_of_range 3 initial) (Nat.le_0_l 3)).
Defined.

(** ** The sign key *)

(** X5.  Pressing the sign key twice gives the expression back, when no
    answer is waiting to be chained, the expression is not a lone [-] and
    does not start with [--]. *)
Theorem toggleSign_twice (E : Engine) (s : state)
  (Hc : answer_to_chain s = None)
  (Hs : sign_toggles_back (expression s) = true) :
  expression (toggleSign E (toggleSign E s)) = expression s.
Proof.
  unfold sign_toggles_back in Hs. apply andb_true_iff in Hs as [H1 H2].
  apply negb_true_iff in H1, H2.
  assert (Hfirst : expression (toggleSign E s) =
            if starts_with (u "-") (expression s)
            then slice_from_1 (expression s)
            else if negb (is_empty (expression s))
                 then u "-" ++ expression s else expression s).
  { unfold toggleSign. rewrite liveEvaluate_expression, Hc.
    cbn [expression updateDisplay set_exprEl].
    destruct (starts_with (u "-") (expression s)); [reflexivity|].
    destruct (negb (is_empty (expression s))); reflexivity. }
  destruct (expression s) as [|c e] eqn:He.
  - (* empty, nothing to chain: the key does nothing *)
    cbn in Hfirst.
    unfold toggleSign at 1. rewrite liveEvaluate_expression.
    assert (Hc' : answer_to_chain (toggleSign E s) = None).
    { unfold answer_to_chain. rewrite Hfirst. cbn [is_empty].
      unfold toggleSign. rewrite liveEvaluate_lastAnswer, Hc, He.
      cbn [starts_with u map list_ascii_of_string is_empty negb
           lastAnswer updateDisplay set_exprEl].
      unfold answer_to_chain in Hc. rewrite He in Hc. exact Hc. }
    rewrite Hc'. cbn [expression updateDisplay set_exprEl].
    rewrite Hfirst. change (starts_with (u "-") []) with false.
    cbn [is_empty negb]. exact Hfirst.
  - destruct (toggleSign_expression E (toggleSign E s)) as [Hsecond _].
    { rewrite Hfirst.
      change (u "-") with [45%N]. cbn [starts_with].
      destruct (N.eqb 45 c) eqn:Hm; cbn [andb negb is_empty slice_from_1 tl app].
      - destruct e as [|d e]; [|reflexivity].
        apply N.eqb_eq in Hm. subst c. discriminate.
      - reflexivity. }
    rewrite Hsecond, Hfirst. clear Hsecond Hfirst.
    change (u "-") with [45%N]. cbn [starts_with].
    destruct (N.eqb 45 c) eqn:Hm; cbn [andb negb is_empty slice_from_1 tl app].
    + apply N.eqb_eq in Hm. subst c.
      change (u "--") with [45%N; 45%N] in H2. cbn [starts_with] in H2.
      change (N.eqb 45 45) with true in H2. cbn [andb] in H2.
      destruct e as [|d e]; [discriminate|]. cbn [starts_with].
      rewrite andb_true_r in H2. rewrite H2. reflexivity.
    + cbn [starts_with]. change (N.eqb 45 45) with true. reflexivity.
Qed.

Lemma toggleSign_twice_witness :
  answer_to_chain (set_expression (u "-5+2") initial) = None /\
  sign_toggles_back (expression (set_expression (u "-5+2") initial)) = true /\
  expression (toggleSign sample_engine
                (toggleSign sample_engine (set_expression (u "-5+2") initial)))
  = u "-5+2".
Proof.
  split; [reflexivity|]. split; [reflexivity|].
  exact (toggleSign_twice sample_engine (set_expression (u "-5+2") initial)
           eq_refl eq_refl).
Defined.

(** ** Closing the parentheses *)

Lemma count_char_repeat (c x : char) (n : nat) :
  count_char c (repeat x n) = if N.eqb c x then n else 0%nat.
Proof.
  unfold count_char. induction n as [|n IH]; cbn [repeat filter].
  - now destruct (N.eqb c x).
  - destruct (N.eqb c x); cbn [length]; now rewrite IH.
Qed.

(** X6.  The text with its parentheses closed has as many [(] as before
    and no fewer [)] than [(]: the closing parentheses added are exactly
    those missing, and closing twice adds nothing more. *)
Theorem close_parens_balanced (e : jsstring) :
  count_char 40 (close_parens e) = count_char 40 e /\
  count_char 41 (close_parens e) =
    Nat.max (count_char 40 e) (count_char 41 e) /\
  (count_char 40 (close_parens e) <= count_char 41 (close_parens e))%nat /\
  close_parens (close_parens e) = close_parens e.
Proof.
  assert (H40 : count_char 40 (close_parens e) = count_char 40 e).
  { unfold close_parens. rewrite count_char_app, count_char_repeat.
    change (N.eqb 40 41) with false. cbv iota. lia. }
  assert (H41 : count_char 41 (close_parens e) =
                Nat.max (count_char 40 e) (count_char 41 e)).
  { unfold close_parens. rewrite count_char_app, count_char_repeat.
    change (N.eqb 41 41) with true. cbv iota. lia. }
  split; [exact H40|]. split; [exact H41|]. split; [lia|].
  unfold close_parens at 1. rewrite H40, H41.
  replace (count_char 40 e - Nat.max (count_char 40 e) (count_char 41 e))%nat
    with 0%nat by lia.
  apply app_nil_r.
Qed.

(** ** Backspace after a key *)

Lemma match_name_here_ends (s name : jsstring) :
  match_name_here s = Some name -> s = name ++ [40%N].
Proof.
  unfold match_name_here. intros H. apply find_some in H as [_ H].
  now apply str_eqb_eq in H.
Qed.

Lemma match_function_suffix_snoc (e : jsstring) (c : char) :
  N.eqb c 40 = false -> match_function_suffix (e ++ [c]) = None.
Proof.
  intros Hc.
  assert (Hno : forall p, match_name_here (p ++ [c]) = None).
  { intros p. destruct (match_name_here (p ++ [c])) as [name|] eqn:Hm;
      [exfalso|reflexivity].
    apply match_name_here_ends in Hm. apply app_inj_tail in Hm as [_ Hm].
    subst c. discriminate. }
  induction e as [|a e IH]; cbn [app match_function_suffix].
  - now rewrite (Hno [] : match_name_here [c] = None).
  - now rewrite (Hno (a :: e) : match_name_here (a :: e ++ [c]) = None).
Qed.

(** X7.  Backspace undoes a digit key: when no answer is held, a digit
    typed and then deleted leaves the expression as it was.  On an empty
    expression backspace does nothing. *)
Theorem backspace_undoes_digit (E : Engine) (d : digit) (s : state)
  (H : lastAnswer s = None) :
  expression (backspace E (inputNum E [digit_char d] s)) = expression s /\
  backspace E (set_expression [] s) = set_expression [] s.
Proof.
  split; [|reflexivity].
  destruct (inputNum_digit E d s) as [He _].
  unfold has_answer in He. rewrite H in He. cbn [andb] in He.
  rewrite backspace_expression_plain; rewrite He.
  - apply slice_drop_last_snoc.
  - apply is_empty_snoc.
  - apply match_function_suffix_snoc. now destruct d.
Qed.

Lemma backspace_undoes_digit_witness :
  lastAnswer (set_expression (u "12+") initial) = None /\
  expression (backspace sample_engine
                (inputNum sample_engine [digit_char D7]
                   (set_expression (u "12+") initial))) = u "12+".
Proof.
  split; [reflexivity|].
  exact (proj1 (backspace_undoes_digit sample_engine D7
                  (set_expression (u "12+") initial) eq_refl)).
Defined.

(** ** The first character of the expression *)

(** X8.  Whatever events the calculator has handled since it was loaded,
    its expression does not start with [+], [*] or [/]. *)
Theorem no_leading_operator (E : Engine) (acts : list action) :
  starts_bad (expression (run E acts initial)) = false.
Proof.
  pose proof (run_tidy E acts initial eq_refl) as H.
  unfold tidy in H. apply andb_true_iff in H as [_ H].
  now apply negb_true_iff in H.
Qed.

(** ** The keyboard *)

Lemma str_eqb_long (c1 c2 x : char) (r : jsstring) :
  str_eqb (c1 :: c2 :: r) [x] = false.
Proof. cbn [str_eqb]. apply andb_false_r. Qed.

Lemma keydown_single (E : Engine) (now : jsstring) (c : char) (s : state) :
  keydown E now (u "calc") [c] s =
  match key_action now [c] with
  | Some a => step E a s
  | None => s
  end.
Proof.
  unfold keydown. change (negb (str_eqb (u "calc") (u "calc"))) with false.
  cbv iota. cbn [is_digit_key].
  destruct (is_digit c) eqn:Hd.
  - apply is_digit_range in Hd.
    assert (Hc : (c = 48 \/ c = 49 \/ c = 50 \/ c = 51 \/ c = 52 \/ c = 53 \/
                  c = 54 \/ c = 55 \/ c = 56 \/ c = 57)%N) by lia.
    repeat destruct Hc as [Hc|Hc]; subst c; reflexivity.
  - assert (Hn : forall k, is_digit k = true -> N.eqb c k = false).
    { intros k Hk. apply N.eqb_neq. intros ->. congruence. }
    cbn [key_action].
    rewrite !Hn by reflexivity.
    assert (HE : str_eqb [c] (u "Enter") = false)
      by (change (u "Enter") with (69%N :: u "nter"); cbn [str_eqb];
          apply andb_false_r).
    assert (HB : str_eqb [c] (u "Backspace") = false)
      by (change (u "Backspace") with (66%N :: u "ackspace"); cbn [str_eqb];
          apply andb_false_r).
    assert (HX : str_eqb [c] (u "Escape") = false)
      by (change (u "Escape") with (69%N :: u "scape"); cbn [str_eqb];
          apply andb_false_r).
    assert (HD : str_eqb [c] (u "Delete") = false)
      by (change (u "Delete") with (68%N :: u "elete"); cbn [str_eqb];
          apply andb_false_r).
    rewrite HE, HB, HX, HD. cbn [orb].
    change (u ".") with [46%N]. change (u "+") with [43%N].
    change (u "-") with [45%N]. change (u "*") with [42%N].
    change (u "/") with [47%N]. change (u "=") with [61%N].
    change (u "(") with [40%N]. change (u ")") with [41%N].
    cbn [str_eqb]. rewrite !andb_true_r.
    destruct (N.eqb c 46) eqn:H46; [apply N.eqb_eq in H46; now subst c|].
    destruct (N.eqb c 43) eqn:H43; [apply N.eqb_eq in H43; now subst c|].
    destruct (N.eqb c 45) eqn:H45; [apply N.eqb_eq in H45; now subst c|].
    destruct (N.eqb c 42) eqn:H42; [apply N.eqb_eq in H42; now subst c|].
    destruct (N.eqb c 47) eqn:H47; [apply N.eqb_eq in H47; now subst c|].
    destruct (N.eqb c 61); [reflexivity|].
    destruct (N.eqb c 40 || N.eqb c 41); reflexivity.
Qed.

Lemma keydown_long (E : Engine) (now : jsstring) (key : jsstring) (s : state) :
  (length key <> 1)%nat ->
  keydown E now (u "calc") key s =
  match key_action now key with
  | Some a => step E a s
  | None => s
  end.
Proof.
  intros Hl. unfold keydown.
  change (negb (str_eqb (u "calc") (u "calc"))) with false. cbv iota.
  destruct key as [|c1 [|c2 r]]; [reflexivity|cbn in Hl; lia|].
  cbn [is_digit_key key_action].
  change (u ".") with [46%N]. change (u "+") with [43%N].
  change (u "-") with [45%N]. change (u "*") with [42%N].
  change (u "/") with [47%N]. change (u "=") with [61%N].
  change (u "(") with [40%N]. change (u ")") with [41%N].
  rewrite !str_eqb_long. rewrite !orb_false_r.
  destruct (str_eqb (c1 :: c2 :: r) (u "Enter")); [reflexivity|].
  destruct (str_eqb (c1 :: c2 :: r) (u "Backspace")); [reflexivity|].
  destruct (str_eqb (c1 :: c2 :: r) (u "Escape")
            || str_eqb (c1 :: c2 :: r) (u "Delete")); reflexivity.
Qed.

Lemma keydown_step (E : Engine) (now mode key : jsstring) (s : state) :
  keydown E now mode key s =
  run E (key_events now [(mode, key)]) s.
Proof.
  unfold key_events. cbn [flat_map fst snd]. rewrite app_nil_r.
  destruct (str_eqb mode (u "calc")) eqn:Hm.
  - apply str_eqb_eq in Hm. subst mode.
    destruct (Nat.eq_dec (length key) 1) as [Hl|Hl].
    + destruct key as [|c [|c2 r]]; try discriminate.
      rewrite keydown_single. now destruct (key_action now [c]).
    + rewrite keydown_long by exact Hl. now destruct (key_action now key).
  - unfold keydown. rewrite Hm. reflexivity.
Qed.

Lemma type_keys_run (E : Engine) (now : jsstring)
  (keys : list (jsstring * jsstring)) (s : state) :
  type_keys E now keys s = run E (key_events now keys) s.
Proof.
  revert s. induction keys as [|[mode key] keys IH]; intros s; [reflexivity|].
  change (type_keys E now ((mode, key) :: keys) s)
    with (type_keys E now keys (keydown E now mode key s)).
  rewrite IH, keydown_step.
  assert (Hk : key_events now ((mode, key) :: keys) =
               key_events now [(mode, key)] ++ key_events now keys).
  { unfold key_events. cbn [flat_map]. now rewrite app_nil_r. }
  rewrite Hk. unfold run. now rewrite fold_left_app.
Qed.

(** X9.  The keyboard does nothing the buttons cannot do: a sequence of
    key presses acts as the sequence of button events the keys stand for,
    keys pressed outside calculator mode and keys without a meaning being
    ignored.  So after any key presses from the start the expression has
    no two operators in a row and the history holds at most 50 entries. *)
Theorem keyboard_as_buttons (E : Engine) (now : jsstring)
  (keys : list (jsstring * jsstring)) (s : state) :
  type_keys E now keys s = run E (key_events now keys) s /\
  no_adjacent_ops (expression (type_keys E now keys initial)) = true /\
  (length (history (type_keys E now keys initial)) <= 50)%nat.
Proof.
  split; [apply type_keys_run|]. rewrite type_keys_run. split.
  - pose proof (run_tidy E (key_events now keys) initial eq_refl) as H.
    now apply tidy_elim in H.
  - apply history_run. cbn. lia.
Qed.

(** ** Digit strings and their values *)

Lemma value_of_digits_lower (ds : jsstring) (acc : N) :
  (acc * 10 ^ N.of_nat (length ds)
   <= fold_left (fun a c => 10 * a + (c - 48)) ds acc)%N.
Proof.
  revert acc. induction ds as [|c ds IH]; intros acc.
  - cbn. lia.
  - cbn [fold_left length]. rewrite Nat2N.inj_succ, N.pow_succ_r'.
    specialize (IH (10 * acc + (c - 48))%N).
    remember (10 ^ N.of_nat (length ds))%N as P.
    assert (acc * (10 * P) <= (10 * acc + (c - 48)) * P)%N.
    { replace (acc * (10 * P))%N with ((10 * acc) * P)%N by lia.
      apply N.mul_le_mono_r. lia. }
    lia.
Qed.

Lemma digits_same_value (a b : jsstring) :
  forallb is_digit a = true -> forallb is_digit b = true ->
  length a = length b -> value_of_digits a = value_of_digits b -> a = b.
Proof.
  revert b. induction a as [|x a IH] using rev_ind; intros b Ha Hb Hl Hv.
  - destruct b; [reflexivity|discriminate].
  - destruct b as [|y b _] using rev_ind.
    + rewrite length_app in Hl. cbn in Hl. lia.
    + rewrite !value_of_digits_snoc in Hv.
      rewrite !forallb_snoc in Ha, Hb.
      apply andb_true_iff in Ha as [Ha Hx], Hb as [Hb Hy].
      apply is_digit_range in Hx, Hy.
      rewrite !length_app in Hl. cbn [length] in Hl.
      assert (Hxy : x = y) by lia.
      assert (Hab : value_of_digits a = value_of_digits b) by lia.
      rewrite (IH b Ha Hb ltac:(lia) Hab), Hxy. reflexivity.
Qed.

(** A digit string without a superfluous leading zero is the decimal
    text of its value. *)
Lemma digits_of_N_value (ds : jsstring) :
  forallb is_digit ds = true -> has_leading_zero ds = false -> ds <> [] ->
  digits_of_N (value_of_digits ds) = ds.
Proof.
  intros Hd Hz Hne.
  destruct ds as [|d rest]; [contradiction|]. clear Hne.
  pose proof Hd as Hd'. cbn [forallb] in Hd'.
  apply andb_true_iff in Hd' as [Hdd Hrest].
  pose proof (is_digit_range d Hdd) as Hr.
  pose proof (value_of_digits_lower rest (10 * 0 + (d - 48))) as Hlow.
  change (fold_left _ rest (10 * 0 + (d - 48))%N)
    with (value_of_digits (d :: rest)) in Hlow.
  pose proof (value_of_digits_fold (d :: rest) 0 Hd) as Hup.
  change (fold_left _ (d :: rest) 0%N) with (value_of_digits (d :: rest)) in Hup.
  set (v := value_of_digits (d :: rest)) in *.
  destruct (N.eq_dec d 48) as [H48|H48].
  - (* the text is [0] *)
    destruct rest as [|c rest].
    + subst d. reflexivity.
    + cbn [has_leading_zero] in Hz. apply N.eqb_neq in Hz. contradiction.
  - assert (Hpow : (1 <= 10 ^ N.of_nat (length rest))%N).
    { pose proof (N.pow_nonzero 10 (N.of_nat (length rest)) ltac:(lia)). lia. }
    assert (Hv1 : (10 ^ N.of_nat (length rest) <= v)%N).
    { remember (10 ^ N.of_nat (length rest))%N as P.
      assert (1 * P <= (10 * 0 + (d - 48)) * P)%N
        by (apply N.mul_le_mono_r; lia).
      lia. }
    assert (Hv0 : v <> 0%N) by lia.
    destruct (digits_of_N_spec v) as (Hval & Hall & _).
    apply digits_same_value; try assumption.
    pose proof (digits_of_N_length v Hv0) as HL.
    assert (Hlen : (10 ^ (Z.of_nat (length (d :: rest)) - 1) <= Z.of_N v
                    < 10 ^ Z.of_nat (length (d :: rest)))%Z).
    { cbn [length]. rewrite Nat2Z.inj_succ.
      replace (Z.succ (Z.of_nat (length rest)) - 1)%Z
        with (Z.of_nat (length rest)) by lia.
      cbn [length] in Hup. rewrite Nat2N.inj_succ in Hup.
      rewrite N.mul_1_l in Hup.
      assert (E1 : (10 ^ Z.of_nat (length rest))%Z
                   = Z.of_N (10 ^ N.of_nat (length rest))).
      { rewrite N2Z.inj_pow, nat_N_Z. reflexivity. }
      assert (E2 : (10 ^ Z.succ (Z.of_nat (length rest)))%Z
                   = Z.of_N (10 ^ N.succ (N.of_nat (length rest)))).
      { rewrite N2Z.inj_pow, N2Z.inj_succ, nat_N_Z. reflexivity. }
      rewrite E1, E2. lia. }
    assert (Hpos : (0 < Z.of_nat (length (digits_of_N v)))%Z).
    { destruct (digits_of_N v) eqn:Hdv; [|cbn [length]; lia].
      exfalso. try rewrite Hdv in HL. cbn [length] in HL.
      change (10 ^ Z.of_nat 0)%Z with 1%Z in HL. lia. }
    pose proof (decimal_length_unique (Z.of_N v) _ _ HL Hlen Hpos
                  ltac:(cbn [length]; lia)) as Heq.
    lia.
Qed.

(** ** The converter's input along the events *)

Lemma forallb_digit_or_point (l : jsstring) :
  forallb is_digit l = true ->
  forallb (fun c => is_digit c || N.eqb c 46) l = true.
Proof.
  induction l as [|c l IH]; [reflexivity|]. cbn [forallb]. intros H.
  apply andb_true_iff in H as [Hc Hl]. now rewrite Hc, IH.
Qed.

Lemma keypad_input_within_cap (s : jsstring) :
  keypad_input s -> input_within_cap s = true.
Proof.
  intros (ip & fp & dot & -> & Hne & Hip & Hfp & Hdot & Hlen).
  assert (Hcount : (count_char 46 (keypad_text ip fp dot) <= 1)%nat).
  { unfold keypad_text. rewrite count_char_app.
    rewrite (count_char_absent 46 ip (includes_point_digits ip Hip)).
    destruct dot; [|cbn; lia].
    change (u "." ++ fp) with ([46%N] ++ fp). rewrite count_char_app.
    rewrite (count_char_absent 46 fp (includes_point_digits fp Hfp)).
    cbn. lia. }
  assert (Hcap : (length (remove_first_dot (keypad_text ip fp dot)) <= 12)%nat).
  { rewrite remove_first_dot_keypad by assumption. rewrite length_app. lia. }
  unfold input_within_cap.
  destruct ip as [|d ip']; [contradiction|].
  unfold keypad_text in *. cbn [app] in *.
  cbn [forallb] in Hip. apply andb_true_iff in Hip as [Hd Hip'].
  rewrite Hd, forallb_app, (forallb_digit_or_point ip' Hip').
  apply Nat.leb_le in Hcount, Hcap. rewrite Hcount, Hcap.
  destruct dot; [|reflexivity].
  change (u "." ++ fp) with (46%N :: fp). cbn [forallb].
  now rewrite (forallb_digit_or_point fp Hfp).
Qed.

(** X10.  Whatever is done on the converter, its input starts with a
    digit, is made of digits and at most one point, and has at most
    twelve digits. *)
Theorem currency_input_capped (acts : list caction) :
  input_within_cap (currencyInputStr (crun acts currency_initial)) = true.
Proof.
  apply keypad_input_within_cap, crun_input, keypad_input_zero.
Qed.

(** What a key of the pad does to the input. *)
Lemma currencyNum_cases (k : ckey) (c : currency) :
  currencyNum (ckey_text k) c = c \/
  currencyNum (ckey_text k) c = set_input (currencyInputStr c) c \/
  (exists d, k = CDigit d /\ currencyInputStr c = u "0" /\
     currencyNum (ckey_text k) c =
       set_inputEl (formatCurrencyInput [digit_char d])
                   (set_input [digit_char d] c)) \/
  ((str_eqb (currencyInputStr c) (u "0")
    && negb (str_eqb (ckey_text k) (u "."))) = false /\
   currencyNum (ckey_text k) c =
     set_inputEl (formatCurrencyInput (currencyInputStr c ++ ckey_text k))
                 (set_input (currencyInputStr c ++ ckey_text k) c)).
Proof.
  unfold currencyNum.
  destruct (str_eqb (ckey_text k) (u ".")
            && includes_char 46 (currencyInputStr c)); [now left|].
  destruct (str_eqb (currencyInputStr c) (u "0")
            && negb (str_eqb (ckey_text k) (u "."))) eqn:Hzero.
  - right. right. left.
    destruct k as [d|]; [|apply andb_true_iff in Hzero as [_ Hz]; discriminate].
    apply andb_true_iff in Hzero as [Hz _]. apply str_eqb_eq in Hz.
    exists d. repeat split; [exact Hz|].
    cbn [ckey_text remove_first_dot].
    rewrite (is_digit_not _ 46 (digit_char_digit d)) by (left; reflexivity).
    reflexivity.
  - destruct (12 <? length (remove_first_dot (currencyInputStr c ++ ckey_text k)))%nat.
    + right. left.
      replace (slice_drop_last 1 (currencyInputStr c ++ ckey_text k))
        with (currencyInputStr c); [reflexivity|].
      destruct k; cbn [ckey_text]; [|change (u ".") with [46%N]];
        now rewrite slice_drop_last_snoc.
    + right. right. right. split; reflexivity.
Qed.

Lemma formatCurrencyInput_zero : formatCurrencyInput (u "0") = u "0".
Proof. vm_compute. reflexivity. Qed.

Lemma convertCurrency_inputEl (c : currency) :
  currencyInputEl (convertCurrency c) = currencyInputEl c.
Proof. unfold convertCurrency. now destruct (isNaN _). Qed.

Lemma cstep_display (a : caction) (c : currency) :
  currencyInputEl c = formatCurrencyInput (currencyInputStr c) ->
  currencyInputEl (cstep a c) = formatCurrencyInput (currencyInputStr (cstep a c)).
Proof.
  intros H. destruct a; cbn [cstep].
  - destruct (currencyNum_cases k c) as [-> | [-> | [(d & _ & _ & ->) | [_ ->]]]];
      try exact H; reflexivity.
  - symmetry. apply formatCurrencyInput_zero.
  - reflexivity.
  - symmetry. apply formatCurrencyInput_zero.
  - unfold swapCurrency. rewrite convertCurrency_inputEl, convertCurrency_input.
    exact H.
  - now rewrite convertCurrency_inputEl, convertCurrency_input.
Qed.

Lemma crun_display (acts : list caction) (c : currency) :
  currencyInputEl c = formatCurrencyInput (currencyInputStr c) ->
  currencyInputEl (crun acts c) =
  formatCurrencyInput (currencyInputStr (crun acts c)).
Proof.
  revert c. induction acts as [|a acts IH]; intros c Hc; [exact Hc|].
  cbn [crun fold_left]. apply IH. now apply cstep_display.
Qed.

(** X11.  Whatever is done on the converter, the input line shows the
    formatting of the input held, also after a key was refused for
    exceeding twelve digits. *)
Theorem currency_display_in_step (acts : list caction) :
  currencyInputEl (crun acts currency_initial) =
  formatCurrencyInput (currencyInputStr (crun acts currency_initial)).
Proof. apply crun_display. symmetry. apply formatCurrencyInput_zero. Qed.

(** *** No superfluous leading zero *)

Lemma leading_zero_ok_firstn (n : nat) (s : jsstring) :
  leading_zero_ok s = true -> leading_zero_ok (firstn n s) = true.
Proof.
  destruct s as [|d [|c r]]; destruct n as [|[|n]]; intros H;
    try reflexivity; exact H.
Qed.

Lemma cstep_leading_zero (a : caction) (c : currency) :
  leading_zero_ok (currencyInputStr c) = true ->
  leading_zero_ok (currencyInputStr (cstep a c)) = true.
Proof.
  intros H. destruct a; cbn [cstep].
  - destruct (currencyNum_cases k c)
      as [-> | [-> | [(d & _ & _ & ->) | [Hz ->]]]];
      try exact H; try reflexivity.
    cbn [currencyInputStr set_inputEl set_input].
    destruct (currencyInputStr c) as [|d0 [|c1 r]].
    + now destruct k.
    + change (u "0") with [48%N] in Hz. cbn [str_eqb andb] in Hz.
      rewrite andb_true_r in Hz.
      destruct k as [d|]; cbn [ckey_text app leading_zero_ok];
        cbn [ckey_text] in Hz.
      * assert (Hd : str_eqb [digit_char d] (u ".") = false) by now destruct d.
        rewrite Hd in Hz. cbn [negb] in Hz. rewrite andb_true_r in Hz.
        now rewrite Hz.
      * apply orb_true_r.
    + exact H.
  - reflexivity.
  - unfold currencyBackspace. cbn [currencyInputStr set_inputEl set_input].
    destruct (_ <=? _)%nat; [reflexivity|].
    now apply leading_zero_ok_firstn.
  - reflexivity.
  - unfold swapCurrency. rewrite convertCurrency_input. exact H.
  - now rewrite convertCurrency_input.
Qed.

Lemma crun_leading_zero (acts : list caction) (c : currency) :
  leading_zero_ok (currencyInputStr c) = true ->
  leading_zero_ok (currencyInputStr (crun acts c)) = true.
Proof.
  revert c. induction acts as [|a acts IH]; intros c H; [exact H|].
  cbn [crun fold_left]. apply IH. now apply cstep_leading_zero.
Qed.

(** ** The input line of the converter *)

Lemma split_dot_digits (ds t : jsstring) :
  forallb is_digit ds = true ->
  split_dot (ds ++ t) = (ds ++ fst (split_dot t), snd (split_dot t)).
Proof.
  induction ds as [|c ds IH]; intros H.
  - cbn [app]. now destruct (split_dot t).
  - cbn [forallb] in H. apply andb_true_iff in H as [Hc Hds].
    cbn [app split_dot].
    rewrite (is_digit_not c 46 Hc) by (left; reflexivity).
    rewrite (IH Hds). reflexivity.
Qed.

Lemma split_dot_keypad (ip fp : jsstring) (dot : bool) :
  forallb is_digit ip = true -> forallb is_digit fp = true ->
  (dot = false -> fp = []) ->
  split_dot (keypad_text ip fp dot) = (ip, if dot then Some fp else None).
Proof.
  intros Hip Hfp Hdot. unfold keypad_text.
  rewrite split_dot_digits by exact Hip.
  destruct dot.
  - change (u "." ++ fp) with (46%N :: fp). cbn [split_dot fst snd].
    change (N.eqb 46 46) with true. cbv iota. cbn [fst snd].
    rewrite app_nil_r.
    rewrite <- (app_nil_r fp) at 1. rewrite split_dot_digits by exact Hfp.
    cbn [split_dot fst]. now rewrite app_nil_r.
  - cbn [split_dot fst snd]. now rewrite app_nil_r.
Qed.

Local Open Scope Z_scope.

Lemma hex_prefix_digits (s : jsstring) :
  forallb is_digit s = true -> hex_prefix s = None.
Proof.
  destruct s as [|c0 [|c1 s]]; try reflexivity.
  cbn [forallb hex_prefix]. intros H.
  apply andb_true_iff in H as [_ H]. apply andb_true_iff in H as [H1 _].
  rewrite (is_digit_not c1 120 H1), (is_digit_not c1 88 H1)
    by (right; reflexivity).
  now rewrite andb_false_r.
Qed.

(** [parseInt] and the grouping on an integer part without a
    superfluous leading zero. *)
Lemma parseInt_grouped (ip : jsstring) :
  ip <> [] -> forallb is_digit ip = true -> has_leading_zero ip = false ->
  (length ip <= 12)%nat ->
  toLocaleString_default (parseInt ip) = group_thousands ip.
Proof.
  intros Hne Hip Hz Hlen.
  pose proof (digits_of_N_value ip Hip Hz Hne) as Hcanon.
  pose proof (value_of_digits_bound ip Hip Hlen) as Hb.
  destruct ip as [|d ip']; [contradiction|].
  pose proof Hip as Hd. cbn [forallb] in Hd. apply andb_true_iff in Hd as [Hd _].
  unfold parseInt. cbn [skip_spaces]. rewrite (is_digit_not_space d Hd).
  cbn [take_sign].
  rewrite (is_digit_not d 45 Hd), (is_digit_not d 43 Hd) by (left; reflexivity).
  rewrite (hex_prefix_digits (d :: ip') Hip).
  rewrite (take_digits_all (d :: ip') Hip). cbn [is_empty].
  set (v := value_of_digits (d :: ip')) in *.
  destruct (Z.of_N v =? 0) eqn:Hv.
  - apply Z.eqb_eq in Hv. assert (v = 0%N) by lia.
    rewrite <- Hcanon. replace v with 0%N. reflexivity.
  - apply Z.eqb_neq in Hv.
    destruct (Z.of_N v) as [|p|p] eqn:Hp; try lia.
    assert (Hp53 : Z.pos p < 2 ^ 53)
      by (change (2 ^ 53) with 9007199254740992; lia).
    rewrite num_of_Z_small;
      [|discriminate|exact (digits2_below_2_53 p Hp53)].
    change (Z.pos p <? 0) with false. cbn [Z.abs Z.to_pos].
    rewrite toLocaleString_integer by lia.
    cbn [app]. unfold digits_of_Z. cbn [Z.abs].
    rewrite <- Hp, N2Z.id, Hcanon. reflexivity.
Qed.

Local Close Scope Z_scope.

Lemma formatCurrencyInput_keypad (ip fp : jsstring) (dot : bool) :
  ip <> [] -> forallb is_digit ip = true -> forallb is_digit fp = true ->
  (dot = false -> fp = []) -> has_leading_zero ip = false ->
  (length ip <= 12)%nat ->
  formatCurrencyInput (keypad_text ip fp dot) =
  group_thousands ip ++ (if dot then u "." ++ fp else []).
Proof.
  intros Hne Hip Hfp Hdot Hz Hlen. unfold formatCurrencyInput.
  rewrite split_dot_keypad by assumption.
  rewrite parseInt_grouped by assumption.
  destruct dot; [reflexivity|].
  destruct (group_thousands_head ip Hne Hip) as (d & rest & -> & Hd).
  change (u "NaN") with (78%N :: u "aN"). cbn [str_eqb].
  rewrite (is_digit_not d 78 Hd) by (right; reflexivity).
  cbn [andb]. now rewrite app_nil_r.
Qed.

Lemma without_commas_app (a b : jsstring) :
  without_commas (a ++ b) = without_commas a ++ without_commas b.
Proof. unfold without_commas. apply filter_app. Qed.

Lemma without_commas_digits (ds : jsstring) :
  forallb is_digit ds = true -> without_commas ds = ds.
Proof.
  unfold without_commas. induction ds as [|c ds IH]; [reflexivity|].
  cbn [forallb filter]. intros H. apply andb_true_iff in H as [Hc Hds].
  rewrite (is_digit_not c 44 Hc) by (left; reflexivity).
  cbn [negb]. now rewrite IH.
Qed.

Lemma before_point_absent (g : jsstring) :
  includes_char 46 g = false -> before_point g = g.
Proof.
  unfold includes_char. induction g as [|c g IH]; [reflexivity|].
  cbn [existsb before_point]. intros H. apply orb_false_iff in H as [Hc Hg].
  rewrite N.eqb_sym, Hc. now rewrite IH.
Qed.

(** The integer part of an input of the pad carries no superfluous
    leading zero. *)
Lemma keypad_input_canonical (s : jsstring) :
  keypad_input s -> leading_zero_ok s = true ->
  exists ip fp dot,
    s = keypad_text ip fp dot /\ ip <> [] /\
    forallb is_digit ip = true /\ forallb is_digit fp = true /\
    (dot = false -> fp = []) /\ (length ip <= 12)%nat /\
    has_leading_zero ip = false.
Proof.
  intros (ip & fp & dot & -> & Hne & Hip & Hfp & Hdot & Hlen) Hz.
  exists ip, fp, dot. repeat split; try assumption; [lia|].
  destruct ip as [|d [|c r]]; try reflexivity.
  unfold keypad_text in Hz. cbn [app leading_zero_ok] in Hz.
  cbn [has_leading_zero].
  cbn [forallb] in Hip. apply andb_true_iff in Hip as [_ Hip].
  apply andb_true_iff in Hip as [Hc _].
  rewrite (is_digit_not c 46 Hc) in Hz by (left; reflexivity).
  rewrite orb_false_r in Hz. now apply negb_true_iff in Hz.
Qed.

(** X12.  Whatever is done on the converter, the input line shows the
    input held with thousands separators in its integer part: the
    integer part shown is well grouped, and the text shown without its
    commas is the input itself, fraction digits as typed. *)
Theorem currency_display_round_trip (acts : list caction) :
  without_commas (currencyInputEl (crun acts currency_initial)) =
    currencyInputStr (crun acts currency_initial) /\
  well_grouped (before_point (currencyInputEl (crun acts currency_initial)))
  = true.
Proof.
  rewrite (crun_display acts currency_initial (eq_sym formatCurrencyInput_zero)).
  pose proof (crun_input acts currency_initial keypad_input_zero) as Hin.
  pose proof (crun_leading_zero acts currency_initial eq_refl) as Hz.
  destruct (keypad_input_canonical _ Hin Hz)
    as (ip & fp & dot & -> & Hne & Hip & Hfp & Hdot & Hlen & Hcanon).
  rewrite formatCurrencyInput_keypad by assumption.
  pose proof (group_thousands_no_point ip Hip) as Hnp.
  split.
  - rewrite without_commas_app, (without_commas_group_thousands ip Hip).
    unfold keypad_text. f_equal. destruct dot; [|reflexivity].
    change (u "." ++ fp) with ([46%N] ++ fp).
    rewrite without_commas_app, (without_commas_digits fp Hfp). reflexivity.
  - destruct dot.
    + change (u "." ++ fp) with (46%N :: fp).
      rewrite before_point_app by exact Hnp.
      now apply well_grouped_group_thousands.
    + rewrite app_nil_r, before_point_absent by exact Hnp.
      now apply well_grouped_group_thousands.
Qed.

(** ** Swapping the direction *)

Lemma convertCurrency_frame (c : currency) :
  currentPair (convertCurrency c) = currentPair c /\
  pairSwapped (convertCurrency c) = pairSwapped c /\
  currencySymEl (convertCurrency c) = currencySymEl c.
Proof. unfold convertCurrency. now destruct (isNaN _). Qed.

Lemma convertCurrency_label (c : currency) :
  isNaN (parseFloat (currencyInputStr c)) = false ->
  currencyLabelEl (convertCurrency c) =
    (if pairSwapped c then toSymbol (RATES (currentPair c))
     else symbol (RATES (currentPair c))) ++
    toLocaleString 2 2 (parseFloat (currencyInputStr c)) ++ u " " ++
    plain_label (currentPair c) (pairSwapped c).
Proof.
  intros H. unfold convertCurrency, plain_label. rewrite H.
  cbn [currencyLabelEl]. now destruct (pairSwapped c).
Qed.

(** X13.  Swapping the direction twice brings the converter back: the
    pair, the input and the direction are as before, and the result
    line, the symbol and the label are those a conversion in the
    original direction shows. *)
Theorem swapCurrency_twice (c : currency) :
  pairSwapped (swapCurrency (swapCurrency c)) = pairSwapped c /\
  currentPair (swapCurrency (swapCurrency c)) = currentPair c /\
  currencyInputStr (swapCurrency (swapCurrency c)) = currencyInputStr c /\
  currencyResultEl (swapCurrency (swapCurrency c)) =
    currencyResultEl (convertCurrency c) /\
  currencySymEl (swapCurrency (swapCurrency c)) =
    currencySymEl (updateCurrencyLabel c) /\
  (isNaN (parseFloat (currencyInputStr c)) = true \/
   currencyLabelEl (swapCurrency (swapCurrency c)) =
     currencyLabelEl (convertCurrency c)).
Proof.
  assert (Hs : forall x, pairSwapped (swapCurrency x) = negb (pairSwapped x) /\
                         currentPair (swapCurrency x) = currentPair x /\
                         currencyInputStr (swapCurrency x) = currencyInputStr x).
  { intros x. unfold swapCurrency.
    destruct (convertCurrency_frame
                (updateCurrencyLabel
                   {| currencyInputStr := currencyInputStr x;
                      currentPair := currentPair x;
                      pairSwapped := negb (pairSwapped x);
                      currencyLabelEl := currencyLabelEl x;
                      currencyResultEl := currencyResultEl x;
                      currencyInputEl := currencyInputEl x;
                      currencySymEl := currencySymEl x |}))
      as (H1 & H2 & _).
    rewrite H1, H2, convertCurrency_input. repeat split. }
  destruct (Hs c) as (S1 & P1 & I1).
  destruct (Hs (swapCurrency c)) as (S2 & P2 & I2).
  rewrite S1, negb_involutive in S2. rewrite P1 in P2. rewrite I1 in I2.
  split; [exact S2|]. split; [exact P2|]. split; [exact I2|].
  split.
  { unfold swapCurrency at 1. rewrite !convertCurrency_result.
    unfold destination_symbol, converted_amount.
    cbn [currencyInputStr currentPair pairSwapped updateCurrencyLabel].
    rewrite S1, P1, I1, negb_involutive. reflexivity. }
  split.
  { unfold swapCurrency at 1.
    destruct (convertCurrency_frame
                (updateCurrencyLabel
                   {| currencyInputStr := currencyInputStr (swapCurrency c);
                      currentPair := currentPair (swapCurrency c);
                      pairSwapped := negb (pairSwapped (swapCurrency c));
                      currencyLabelEl := currencyLabelEl (swapCurrency c);
                      currencyResultEl := currencyResultEl (swapCurrency c);
                      currencyInputEl := currencyInputEl (swapCurrency c);
                      currencySymEl := currencySymEl (swapCurrency c) |}))
      as (_ & _ & ->).
    cbn [currencySymEl updateCurrencyLabel currentPair pairSwapped].
    rewrite S1, P1, negb_involutive. reflexivity. }
  destruct (isNaN (parseFloat (currencyInputStr c))) eqn:Hn; [now left|right].
  unfold swapCurrency at 1. rewrite !convertCurrency_label.
  - cbn [currencyInputStr currentPair pairSwapped updateCurrencyLabel].
    rewrite S1, P1, I1, negb_involutive. reflexivity.
  - exact Hn.
  - cbn [currencyInputStr updateCurrencyLabel]. now rewrite I1.
Qed.

(** ** A cleared converter *)

Lemma converted_zero (p : pair) (swapped : bool) :
  toLocaleString 2 2
    (if swapped then num_div (S754_zero false) (rate (RATES p))
     else num_mul (S754_zero false) (rate (RATES p))) = u "0.00".
Proof. destruct p, swapped; vm_compute; reflexivity. Qed.

(** X14.  A cleared input converts to zero for every pair and
    direction: after [selectPair] a conversion shows the symbol of the
    unit converted to and [0.00], and so it does after [currencyClear],
    in the direction then chosen. *)
Theorem cleared_converts_to_zero (p : pair) (c : currency) :
  currencyResultEl (convertCurrency (selectPair p c)) =
    toSymbol (RATES p) ++ u " 0.00" /\
  currencyResultEl (convertCurrency (currencyClear c)) =
    destination_symbol c ++ u " 0.00" /\
  pairSwapped (selectPair p c) = false /\
  currencyInputStr (selectPair p c) = u "0" /\
  currencyInputEl (selectPair p c) = u "0".
Proof.
  split.
  { rewrite convertCurrency_result.
    unfold destination_symbol, converted_amount.
    cbn [currencyInputStr currentPair pairSwapped selectPair
         updateCurrencyLabel].
    change (parseFloat (u "0")) with (S754_zero false). cbn [isNaN].
    now rewrite (converted_zero p false). }
  split; [|repeat split].
  rewrite convertCurrency_result.
  unfold destination_symbol, converted_amount.
  cbn [currencyInputStr currentPair pairSwapped currencyClear].
  change (parseFloat (u "0")) with (S754_zero false). cbn [isNaN].
  now rewrite (converted_zero (currentPair c) (pairSwapped c)).
Qed.

(** ** What the sanitizing test lets through *)

Lemma includes_char_cons (x c : char) (s : jsstring) :
  includes_char x (c :: s) = N.eqb x c || includes_char x s.
Proof. reflexivity. Qed.

Lemma replace_char_keeps (x y : char) (rep s : jsstring) :
  N.eqb x y = false -> includes_char x s = true ->
  includes_char x (replace_char y rep s) = true.
Proof.
  intros Hxy. unfold replace_char.
  induction s as [|c s IH]; [discriminate|].
  rewrite includes_char_cons. cbn [flat_map]. rewrite includes_char_app.
  intros H. apply orb_true_iff in H as [H|H].
  - apply N.eqb_eq in H. subst c. rewrite Hxy.
    cbn [includes_char existsb]. now rewrite N.eqb_refl.
  - rewrite (IH H). apply orb_true_r.
Qed.

Lemma replace_bare_e_keeps (x : char) (prev : option char) (s : jsstring) :
  N.eqb x 101 = false -> includes_char x s = true ->
  includes_char x (replace_bare_e prev s) = true.
Proof.
  intros Hx. revert prev. induction s as [|c s IH]; intros prev; [discriminate|].
  rewrite includes_char_cons. cbn [replace_bare_e]. intros H.
  destruct (N.eqb c 101 && _ && _)%bool eqn:Hc.
  - rewrite includes_char_app.
    apply orb_true_iff in H as [H|H].
    + apply N.eqb_eq in H. subst c.
      apply andb_true_iff in Hc as [Hc _]. apply andb_true_iff in Hc as [Hc _].
      congruence.
    + rewrite (IH (Some c) H). apply orb_true_r.
  - rewrite includes_char_cons.
    apply orb_true_iff in H as [H|H]; [now rewrite H|].
    rewrite (IH (Some c) H). apply orb_true_r.
Qed.

Lemma starts_with_firstn (q s : jsstring) :
  starts_with q s = true -> firstn (length q) s = q.
Proof.
  revert s. induction q as [|a q IH]; intros s H; [reflexivity|].
  destruct s as [|b s]; [discriminate|]. cbn [starts_with] in H.
  apply andb_true_iff in H as [Hab Hq]. apply N.eqb_eq in Hab. subst b.
  cbn [length firstn]. now rewrite IH.
Qed.

Lemma replace_all_from_keeps (x p0 : char) (pat rep : jsstring) (k : nat)
  (s : jsstring) :
  includes_char x (p0 :: pat) = false ->
  includes_char x (firstn k s) = false -> includes_char x s = true ->
  includes_char x (replace_all_from (p0 :: pat) rep k s) = true.
Proof.
  intros Hpat. revert k. induction s as [|c s IH]; intros k Hk H; [discriminate|].
  rewrite includes_char_cons in H. cbn [replace_all_from].
  destruct k as [|k].
  - destruct (starts_with (p0 :: pat) (c :: s)) eqn:Hsw.
    + rewrite includes_char_app.
      pose proof (starts_with_firstn _ _ Hsw) as Hf.
      change (c :: firstn (length pat) s = p0 :: pat) in Hf.
      injection Hf as Hc Hf'. subst c.
      rewrite includes_char_cons in Hpat.
      apply orb_false_iff in Hpat as [Hp0 Hpat'].
      rewrite Hp0 in H. cbn [orb] in H.
      cbn [length]. rewrite Nat.sub_succ, Nat.sub_0_r.
      rewrite IH; [apply orb_true_r| |exact H].
      rewrite Hf'. exact Hpat'.
    + rewrite includes_char_cons.
      apply orb_true_iff in H as [H|H]; [now rewrite H|].
      rewrite (IH 0%nat eq_refl H). apply orb_true_r.
  - cbn [firstn] in Hk. rewrite includes_char_cons in Hk.
    apply orb_false_iff in Hk as [Hc Hk]. rewrite Hc in H. cbn [orb] in H.
    now apply IH.
Qed.

Lemma replace_all_keeps (x p0 : char) (pat rep s : jsstring) :
  includes_char x (p0 :: pat) = false -> includes_char x s = true ->
  includes_char x (replace_all (p0 :: pat) rep s) = true.
Proof.
  intros Hpat H. unfold replace_all.
  now apply replace_all_from_keeps.
Qed.

Lemma rewrite_factorial_keeps (x : char) (run s : jsstring) :
  N.eqb x 33 = false ->
  includes_char x run || includes_char x s = true ->
  includes_char x (rewrite_factorial run s) = true.
Proof.
  intros Hx. revert run. induction s as [|c s IH]; intros run H.
  - cbn [rewrite_factorial]. cbn [includes_char existsb] in H.
    now rewrite orb_false_r in H.
  - cbn [rewrite_factorial]. rewrite includes_char_cons in H.
    destruct (is_digit c).
    + apply IH. rewrite includes_char_app.
      cbn [includes_char existsb]. rewrite orb_false_r.
      now rewrite <- orb_assoc.
    + destruct (N.eqb c 33 && negb (is_empty run)) eqn:Hc.
      * apply andb_true_iff in Hc as [Hc _]. apply N.eqb_eq in Hc. subst c.
        rewrite Hx in H. cbn [orb] in H.
        rewrite !includes_char_app.
        apply orb_true_iff in H as [H|H].
        -- rewrite H. rewrite orb_true_l. apply orb_true_r.
        -- rewrite (IH [] H). now rewrite !orb_true_r.
      * rewrite includes_char_app, includes_char_cons.
        apply orb_true_iff in H as [H|H]; [now rewrite H|].
        apply orb_true_iff in H as [H|H].
        -- rewrite H. now rewrite orb_true_r.
        -- rewrite (IH [] H). now rewrite !orb_true_r.
Qed.

Lemma word_run_words (x : char) (s : jsstring) :
  is_word x = false -> includes_char x (firstn (word_run s) s) = false.
Proof.
  intros Hx. induction s as [|c s IH]; [reflexivity|].
  cbn [word_run]. destruct (is_word c) eqn:Hc; [|reflexivity].
  cbn [firstn]. rewrite includes_char_cons, IH, orb_false_r.
  apply N.eqb_neq. intros ->. congruence.
Qed.

Lemma firstn_add (A : Type) (a b : nat) (l : list A) :
  firstn (a + b) l = firstn a l ++ firstn b (skipn a l).
Proof.
  revert l. induction a as [|a IH]; intros l; [reflexivity|].
  destruct l as [|y l]; [now destruct b|].
  cbn [Nat.add firstn skipn app]. now rewrite IH.
Qed.

Lemma remove_math_from_keeps (x : char) (k : nat) (s : jsstring) :
  is_word x = false -> includes_char x (u "Math.") = false ->
  includes_char x (firstn k s) = false -> includes_char x s = true ->
  includes_char x (remove_math_from k s) = true.
Proof.
  intros Hw Hm. revert k. induction s as [|c s IH]; intros k Hk H; [discriminate|].
  rewrite includes_char_cons in H. cbn [remove_math_from].
  destruct k as [|k].
  - destruct (starts_with (u "Math.") (c :: s)
              && (0 <? word_run (skipn 5 (c :: s)))%nat) eqn:Hsw.
    + apply andb_true_iff in Hsw as [Hsw _].
      change (u "Math.") with (77%N :: u "ath.") in Hsw, Hm.
      cbn [starts_with] in Hsw. apply andb_true_iff in Hsw as [Hc Hsw].
      apply N.eqb_eq in Hc. subst c.
      pose proof (starts_with_firstn _ _ Hsw) as Hf'.
      change (length (u "ath.")) with 4%nat in Hf'.
      rewrite includes_char_cons in Hm.
      apply orb_false_iff in Hm as [Hm0 Hm'].
      rewrite Hm0 in H. cbn [orb] in H.
      apply IH; [|exact H].
      change (skipn 5 (77%N :: s)) with (skipn 4 s).
      rewrite firstn_add, includes_char_app, Hf', Hm'.
      cbn [orb]. now apply word_run_words.
    + rewrite includes_char_cons.
      apply orb_true_iff in H as [H|H]; [now rewrite H|].
      rewrite (IH 0%nat eq_refl H). apply orb_true_r.
  - cbn [firstn] in Hk. rewrite includes_char_cons in Hk.
    apply orb_false_iff in Hk as [Hc Hk]. rewrite Hc in H. cbn [orb] in H.
    now apply IH.
Qed.

Lemma forallb_includes_false (f : char -> bool) (x : char) (s : jsstring) :
  f x = false -> includes_char x s = true -> forallb f s = false.
Proof.
  intros Hf. induction s as [|c s IH]; [discriminate|].
  rewrite includes_char_cons. cbn [forallb]. intros H.
  apply orb_true_iff in H as [H|H].
  - apply N.eqb_eq in H. subst c. now rewrite Hf.
  - rewrite (IH H). apply andb_false_r.
Qed.

(** A code unit outside the sanitizer's class that is no letter, digit
    or underscore is in none of the texts the rewriting looks for. *)
Lemma forbidden_char_absent (x : char) (t : jsstring) :
  allowed_char x = false -> is_word x = false ->
  forallb (fun c => allowed_char c || is_word c) t = true ->
  includes_char x t = false.
Proof.
  intros Ha Hw Ht. induction t as [|c t IH]; [reflexivity|].
  cbn [forallb] in Ht. apply andb_true_iff in Ht as [Hc Ht].
  rewrite includes_char_cons, (IH Ht), orb_false_r.
  apply N.eqb_neq. intros ->. rewrite Ha, Hw in Hc. discriminate.
Qed.

(** X15.  [evaluateExpression] throws, without running anything, on
    every expression that contains a code unit outside the class of the
    sanitizing test, when that code unit is no letter, digit or
    underscore and is not the sign for pi: no rewriting step removes it
    and the test finds it. *)
Theorem evaluateExpression_rejects (E : Engine) (e : jsstring) (x : char)
  (Hin : includes_char x e = true)
  (Hbad : allowed_char x = false)
  (Hword : is_word x = false)
  (Hpi : N.eqb x ch_pi = false) :
  evaluateExpression E e = Throws.
Proof.
  assert (Hnot : forall t,
             forallb (fun c => allowed_char c || is_word c) t = true ->
             includes_char x t = false)
    by (intros t; now apply forbidden_char_absent).
  assert (Hne : forall y, allowed_char y || is_word y = true ->
                          N.eqb x y = false).
  { intros y Hy. apply N.eqb_neq. intros ->. rewrite Hbad, Hword in Hy.
    discriminate. }
  assert (Ht : includes_char x (transform e) = true).
  { unfold transform, close_parens. rewrite includes_char_app.
    apply orb_true_iff. left.
    apply rewrite_factorial_keeps; [now apply Hne|].
    apply orb_true_iff. right.
    apply replace_char_keeps; [now apply Hne|].
    repeat (apply replace_all_keeps; [now apply Hnot|]).
    apply replace_bare_e_keeps; [now apply Hne|].
    now apply replace_char_keeps. }
  unfold evaluateExpression.
  replace (sanitize_ok (transform e)) with false; [reflexivity|].
  symmetry. unfold sanitize_ok.
  apply (forallb_includes_false allowed_char x); [exact Hbad|].
  apply replace_all_keeps; [now apply Hnot|].
  apply remove_math_from_keeps; try assumption; [now apply Hnot|reflexivity].
Qed.

Lemma evaluateExpression_rejects_witness :
  includes_char 59 (u "2;3") = true /\
  evaluateExpression sample_engine (u "2;3") = Throws.
Proof.
  split; [reflexivity|].
  exact (evaluateExpression_rejects sample_engine (u "2;3") 59
           eq_refl eq_refl eq_refl eq_refl).
Defined.

(** ** Arithmetic on two literals *)

Lemma arith_excludes (c : char) (s : jsstring) :
  forallb arith_char s = true -> arith_char c = false ->
  includes_char c s = false.
Proof.
  unfold includes_char. intros Hs Hc.
  induction s as [|x s IH]; [reflexivity|]. cbn [forallb existsb] in *.
  apply andb_true_iff in Hs as [Hx Hs]. rewrite (IH Hs), orb_false_r.
  apply N.eqb_neq. intros ->. congruence.
Qed.

Lemma replace_bare_e_absent (prev : option char) (s : jsstring) :
  includes_char 101 s = false -> replace_bare_e prev s = s.
Proof.
  revert prev. induction s as [|c s IH]; intros prev H; [reflexivity|].
  rewrite includes_char_cons in H. apply orb_false_iff in H as [Hc Hs].
  cbn [replace_bare_e]. rewrite N.eqb_sym, Hc. cbn [andb].
  now rewrite IH.
Qed.

Lemma rewrite_factorial_absent (run s : jsstring) :
  includes_char 33 s = false -> rewrite_factorial run s = run ++ s.
Proof.
  revert run. induction s as [|c s IH]; intros run H.
  - cbn. now rewrite app_nil_r.
  - rewrite includes_char_cons in H. apply orb_false_iff in H as [Hc Hs].
    cbn [rewrite_factorial]. destruct (is_digit c).
    + rewrite IH by exact Hs. now rewrite <- app_assoc.
    + rewrite N.eqb_sym, Hc. cbn [andb]. now rewrite (IH [] Hs).
Qed.

Lemma transform_arith (t : jsstring) :
  forallb arith_char t = true -> transform t = t.
Proof.
  intros Ht.
  assert (Hex : forall c, arith_char c = false -> includes_char c t = false)
    by (intros c; now apply arith_excludes).
  unfold transform.
  rewrite (replace_char_absent ch_pi) by (apply Hex; reflexivity).
  rewrite replace_bare_e_absent by (apply Hex; reflexivity).
  change (u "sin(") with (115%N :: u "in(").
  change (u "cos(") with (99%N :: u "os(").
  change (u "tan(") with (116%N :: u "an(").
  change (u "log(") with (108%N :: u "og(").
  change (u "ln(") with (108%N :: u "n(").
  change (u "sqrt(") with (115%N :: u "qrt(").
  change (u "abs(") with (97%N :: u "bs(").
  rewrite (replace_all_absent 115%N (u "in(")) by (apply Hex; reflexivity).
  rewrite (replace_all_absent 99%N (u "os(")) by (apply Hex; reflexivity).
  rewrite (replace_all_absent 116%N (u "an(")) by (apply Hex; reflexivity).
  rewrite (replace_all_absent 108%N (u "og(")) by (apply Hex; reflexivity).
  rewrite (replace_all_absent 108%N (u "n(")) by (apply Hex; reflexivity).
  rewrite (replace_all_absent 115%N (u "qrt(")) by (apply Hex; reflexivity).
  rewrite (replace_all_absent 97%N (u "bs(")) by (apply Hex; reflexivity).
  rewrite (replace_char_absent 94%N) by (apply Hex; reflexivity).
  rewrite rewrite_factorial_absent by (apply Hex; reflexivity).
  cbn [app]. unfold close_parens.
  rewrite (count_char_absent 40 t) by (apply Hex; reflexivity).
  cbn [Nat.sub repeat]. apply app_nil_r.
Qed.

Lemma sanitize_arith (t : jsstring) :
  forallb arith_char t = true -> sanitize_ok t = true.
Proof.
  intros Ht. unfold sanitize_ok.
  rewrite remove_math_absent by (apply arith_excludes; [exact Ht|reflexivity]).
  change (u "factorial") with (102%N :: u "actorial").
  rewrite replace_all_absent
    by (apply arith_excludes; [exact Ht|reflexivity]).
  rewrite forallb_forall in *. intros c Hc. specialize (Ht c Hc).
  unfold arith_char in Ht. unfold allowed_char.
  destruct (is_digit c); [reflexivity|]. cbn [orb] in *.
  unfold is_op_char in Ht.
  repeat (apply orb_true_iff in Ht as [Ht|Ht]);
    apply N.eqb_eq in Ht; subst c; reflexivity.
Qed.

(** A number in progress is closed by a code unit that starts another
    token. *)
Lemma lex_number_end (text rest : jsstring) (c : char) (x : number)
  (ts : list token) (m : lexmode) :
  number_of_text text = Some x -> str_eqb text (u ".") = false ->
  is_digit c = false -> N.eqb c 46 = false -> is_letter c = false ->
  fresh c = Some (ts, m) ->
  lex_from (InNum text) (c :: rest) =
  option_map (app (TNum x :: ts)) (lex_from m rest).
Proof.
  intros Hx Hdot Hd H46 Hl Hf. cbn [lex_from lex_step].
  rewrite Hd, H46, Hl. cbn [andb].
  unfold flush_then_fresh. cbn [flush]. rewrite Hdot, Hx, Hf.
  cbn [option_map app]. reflexivity.
Qed.

Lemma digits_not_point (d : char) (rest : jsstring) :
  is_digit d = true -> str_eqb (d :: rest) (u ".") = false.
Proof.
  intros Hd. change (u ".") with [46%N]. cbn [str_eqb].
  now rewrite (is_digit_not d 46 Hd) by (left; reflexivity).
Qed.

Lemma lex_binary_literal (a b : N) (o : operator) :
  lex (u "(" ++ (digits_of_N a ++ operator_text o ++ digits_of_N b) ++ u ")") =
  Some [TLParen; TNum (num_of_Z (Z.of_N a));
        match o with
        | OpPlus => TPlus | OpMinus => TMinus
        | OpTimes => TStar | OpDivide => TSlash
        end;
        TNum (num_of_Z (Z.of_N b)); TRParen].
Proof.
  destruct (digits_of_N_spec a) as (_ & Ha & da & ra & Hsa & _).
  destruct (digits_of_N_spec b) as (_ & Hb & db & rb & Hsb & _).
  pose proof (number_of_text_digits a) as Hna.
  pose proof (number_of_text_digits b) as Hnb.
  rewrite Hsa in *. rewrite Hsb in *. cbn [forallb] in Ha, Hb.
  apply andb_true_iff in Ha as [Hda Hra], Hb as [Hdb Hrb].
  unfold lex. change (u "(" ++ ?t) with (40%N :: t).
  cbn [app lex_from lex_step]. change (fresh 40) with (Some ([TLParen], Idle)).
  cbv iota. cbn [lex_from lex_step]. unfold fresh at 1.
  rewrite Hda. cbn [orb]. rewrite option_map_app_nil.
  rewrite <- app_assoc. rewrite lex_digits by exact Hra. cbn [app].
  assert (Hdb1 : forall x, is_digit x = false -> N.eqb db x = false).
  { intros x Hx. apply N.eqb_neq. intros ->. congruence. }
  assert (Hfresh : fresh db = Some ([], InNum [db])).
  { unfold fresh. now rewrite Hdb. }
  assert (Hend : lex_from (InNum (db :: rb)) (u ")") =
                 Some [TNum (num_of_Z (Z.of_N b)); TRParen]).
  { apply (lex_number_end (db :: rb) [] 41%N _ [TRParen] Idle Hnb
             (digits_not_point db rb Hdb)); reflexivity. }
  assert (Hafter : forall m t,
             flush m = Some [t] ->
             lex_step m db = flush_then_fresh m db ->
             lex_from m (db :: rb ++ u ")") =
             Some [t; TNum (num_of_Z (Z.of_N b)); TRParen]).
  { intros m t Hm Hstep. cbn [lex_from]. rewrite Hstep.
    unfold flush_then_fresh. rewrite Hm, Hfresh.
    rewrite (lex_digits rb [db] (u ")") Hrb). cbn [app].
    rewrite Hend. reflexivity. }
  assert (Hnum : forall c ts m rest,
             is_digit c = false -> N.eqb c 46 = false -> is_letter c = false ->
             fresh c = Some (ts, m) ->
             lex_from (InNum (da :: ra)) (c :: rest) =
             option_map (app (TNum (num_of_Z (Z.of_N a)) :: ts))
                        (lex_from m rest)).
  { intros c ts m rest H1 H2 H3 H4.
    now apply lex_number_end; try apply digits_not_point. }
  unfold operator_text.
  destruct o; cbn [operator_char app].
  - rewrite (Hnum 43%N [] AfterPlus) by reflexivity.
    rewrite (Hafter AfterPlus TPlus eq_refl); [reflexivity|].
    cbn [lex_step]. now rewrite Hdb1.
  - rewrite (Hnum 45%N [] AfterMinus) by reflexivity.
    rewrite (Hafter AfterMinus TMinus eq_refl); [reflexivity|].
    cbn [lex_step]. now rewrite Hdb1.
  - rewrite (Hnum 42%N [] AfterStar) by reflexivity.
    rewrite (Hafter AfterStar TStar eq_refl); [reflexivity|].
    cbn [lex_step]. now rewrite Hdb1.
  - rewrite (Hnum 47%N [] AfterSlash) by reflexivity.
    rewrite (Hafter AfterSlash TSlash eq_refl); [reflexivity|].
    cbn [lex_step]. now rewrite !Hdb1.
Qed.

Lemma parse_binary_literal (x y : number) (t : token) (op : binop) :
  (t, op) = (TPlus, Add) \/ (t, op) = (TMinus, Sub) \/
  (t, op) = (TStar, Mul) \/ (t, op) = (TSlash, Div) ->
  parse [TLParen; TNum x; t; TNum y; TRParen] =
  Some (EBin op (ENum x) (ENum y)).
Proof.
  intros [H|[H|[H|H]]]; injection H as -> ->; reflexivity.
Qed.

Lemma arith_binary_literal (a b : N) (o : operator) :
  forallb arith_char (digits_of_N a ++ operator_text o ++ digits_of_N b) = true.
Proof.
  destruct (digits_of_N_spec a) as (_ & Ha & _).
  destruct (digits_of_N_spec b) as (_ & Hb & _).
  assert (Hd : forall l, forallb is_digit l = true ->
                         forallb arith_char l = true).
  { intros l Hl. rewrite forallb_forall in *. intros c Hc.
    unfold arith_char. now rewrite (Hl c Hc). }
  rewrite !forallb_app, (Hd _ Ha), (Hd _ Hb). now destruct o.
Qed.

Lemma evaluate_binary (E : Engine) (a b : N) (o : operator) :
  evaluateExpression E (digits_of_N a ++ operator_text o ++ digits_of_N b) =
  Returns (VNum (operator_value o (num_of_Z (Z.of_N a))
                                  (num_of_Z (Z.of_N b)))).
Proof.
  pose proof (arith_binary_literal a b o) as Har.
  unfold evaluateExpression. rewrite (transform_arith _ Har).
  rewrite (sanitize_arith _ Har). unfold run_function.
  rewrite lex_binary_literal.
  destruct o; reflexivity.
Qed.

(** X16.  On two non-negative integer literals joined by an operator,
    [evaluateExpression] returns the floating-point sum, difference,
    product or quotient of the two doubles nearest to the literals,
    whatever the engine. *)
Theorem evaluate_binary_literal (E : Engine) (a b : N) (o : operator) :
  evaluateExpression E (digits_of_N a ++ operator_text o ++ digits_of_N b) =
  Returns (VNum (operator_value o (num_of_Z (Z.of_N a))
                                  (num_of_Z (Z.of_N b)))).
Proof. apply evaluate_binary. Qed.

(** ** Division by zero *)

Lemma num_of_Z_positive (p : positive) :
  num_of_Z (Z.pos p) = S754_infinity false \/
  exists m e, num_of_Z (Z.pos p) = S754_finite false m e.
Proof.
  destruct (Z_le_gt_dec (Z.pos (digits2_pos p)) 53) as [H|H].
  - right. rewrite num_of_Z_small; [|discriminate|exact H].
    unfold small_double. eexists. eexists. reflexivity.
  - destruct (num_of_Z_large p ltac:(lia)) as [Hi|(m & e & Hf & _)];
      [now left|right; now exists m, e].
Qed.

Lemma calculate_failure (E : Engine) (now : jsstring) (s : state)
  (e : jsstring) (x : number) :
  is_empty e = false ->
  evaluateExpression E e = Returns (VNum x) ->
  isNaN x || negb (isFinite x) = true ->
  calculate E now (set_expression e s) =
  showError (if isNaN x then u "Error" else u "Infinity") (set_expression e s).
Proof.
  intros Hne Hev Hx. unfold calculate.
  cbn [expression set_expression]. rewrite Hne, Hev. cbn [ToNumber].
  destruct (isNaN x); [reflexivity|]. cbn [orb] in Hx. now rewrite Hx.
Qed.

(** X17.  A positive integer divided by zero evaluates to Infinity, and
    committing it shows [Infinity] with the error mark, empties the
    expression and leaves the history alone; zero divided by zero
    evaluates to NaN and shows [Error]. *)
Theorem divide_by_zero (E : Engine) (now : jsstring) (s : state)
  (p : positive) :
  evaluateExpression E (digits_of_N (N.pos p) ++ u "/0") =
    Returns (VNum Infinity) /\
  resultEl (calculate E now
              (set_expression (digits_of_N (N.pos p) ++ u "/0") s))
  = u "Infinity" /\
  resultError (calculate E now
                 (set_expression (digits_of_N (N.pos p) ++ u "/0") s))
  = true /\
  history (calculate E now
             (set_expression (digits_of_N (N.pos p) ++ u "/0") s))
  = history s /\
  evaluateExpression E (u "0/0") = Returns (VNum NaN) /\
  resultEl (calculate E now (set_expression (u "0/0") s)) = u "Error".
Proof.
  assert (Hev : evaluateExpression E (digits_of_N (N.pos p) ++ u "/0") =
                Returns (VNum Infinity)).
  { change (u "/0") with (operator_text OpDivide ++ digits_of_N 0).
    rewrite evaluate_binary. cbn [operator_value Z.of_N].
    change (num_of_Z 0) with (S754_zero false).
    destruct (num_of_Z_positive p) as [-> | (m & e & ->)]; reflexivity. }
  assert (Hev0 : evaluateExpression E (u "0/0") = Returns (VNum NaN)).
  { change (u "0/0")
      with (digits_of_N 0 ++ operator_text OpDivide ++ digits_of_N 0).
    rewrite evaluate_binary. reflexivity. }
  assert (Hne : is_empty (digits_of_N (N.pos p) ++ u "/0") = false).
  { destruct (digits_of_N_spec (N.pos p)) as (_ & _ & d & r & -> & _).
    reflexivity. }
  rewrite (calculate_failure E now s _ Infinity Hne Hev eq_refl).
  rewrite (calculate_failure E now s (u "0/0") NaN eq_refl Hev0 eq_refl).
  repeat split; assumption.
Qed.

(** ** Recalling an integer result *)

Lemma replace_char_without_commas (s : jsstring) :
  replace_char 44 [] s = without_commas s.
Proof.
  unfold replace_char, without_commas.
  induction s as [|c s IH]; [reflexivity|]. cbn [flat_map filter].
  rewrite IH. now destruct (N.eqb c 44).
Qed.

Local Open Scope Z_scope.

(** [parseFloat] on the decimal text of an integer. *)
Lemma parseFloat_integer (z : Z) :
  parseFloat ((if z <? 0 then u "-" else []) ++ digits_of_Z z) = num_of_Z z.
Proof.
  destruct (digits_of_Z_digits z) as [Hd Hne].
  pose proof (value_of_digits_of_Z (Z.abs z) (Z.abs_nonneg z)) as Hv.
  assert (Habs : digits_of_Z (Z.abs z) = digits_of_Z z).
  { unfold digits_of_Z. now rewrite Z.abs_idemp. }
  rewrite Habs in Hv.
  destruct (digits_of_Z z) as [|d r] eqn:Hds; [contradiction|]. clear Hne.
  pose proof Hd as Hd1. cbn [forallb] in Hd1.
  apply andb_true_iff in Hd1 as [Hd1 _].
  unfold parseFloat.
  destruct (z <? 0) eqn:Hneg.
  - change (u "-" ++ d :: r) with (45%N :: d :: r).
    cbn [skip_spaces]. change (is_space 45) with false. cbv iota.
    cbn [take_sign]. change (N.eqb 45 45) with true. cbv iota.
    change (u "Infinity") with (73%N :: u "nfinity"). cbn [starts_with].
    rewrite N.eqb_sym, (is_digit_not d 73 Hd1) by (right; reflexivity).
    cbn [andb]. rewrite (take_digits_all (d :: r) Hd).
    cbn [is_empty andb parse_exponent length Z.of_nat].
    rewrite app_nil_r, Hv.
    apply Z.ltb_lt in Hneg.
    replace (Z.abs z =? 0) with false by (symmetry; apply Z.eqb_neq; lia).
    unfold num_of_decimal. cbn [Z.sub Z.opp Z.add Z.leb Z.compare].
    change (10 ^ 0) with 1. rewrite Z.mul_1_r. f_equal. lia.
  - cbn [app skip_spaces]. rewrite (is_digit_not_space d Hd1).
    cbn [take_sign].
    rewrite (is_digit_not d 45 Hd1), (is_digit_not d 43 Hd1)
      by (left; reflexivity).
    change (u "Infinity") with (73%N :: u "nfinity"). cbn [starts_with].
    rewrite N.eqb_sym, (is_digit_not d 73 Hd1) by (right; reflexivity).
    cbn [andb]. rewrite (take_digits_all (d :: r) Hd).
    cbn [is_empty andb parse_exponent length Z.of_nat].
    rewrite app_nil_r, Hv.
    apply Z.ltb_ge in Hneg.
    destruct (Z.abs z =? 0) eqn:Hz.
    + apply Z.eqb_eq in Hz. assert (z = 0) by lia. subst z. reflexivity.
    + unfold num_of_decimal. cbn [Z.sub Z.opp Z.add Z.leb Z.compare].
      change (10 ^ 0) with 1. rewrite Z.mul_1_r. f_equal. lia.
Qed.

Lemma parse_formatted_integer (z : Z) :
  Z.abs z < 10 ^ 15 ->
  parseFloat (replace_char 44 [] (formatResult (num_of_Z z))) = num_of_Z z.
Proof.
  intros Hz. destruct (digits_of_Z_digits z) as [Hd _].
  rewrite formatResult_num_of_Z by exact Hz.
  rewrite replace_char_without_commas, without_commas_app.
  rewrite (without_commas_group_thousands _ Hd).
  pose proof (parseFloat_integer z) as H.
  destruct (z <? 0); exact H.
Qed.

Lemma num_of_Z_integer_not_NaN (z : Z) :
  Z.abs z < 10 ^ 15 -> isNaN (num_of_Z z) = false.
Proof.
  intros Hz. destruct z as [|p|p]; [reflexivity| |].
  - change (num_of_Z (Z.pos p)) with (binary_round prec emax false p 0).
    now rewrite binary_round_small by (apply integer_bits; exact Hz).
  - change (num_of_Z (Z.neg p)) with (binary_round prec emax true p 0).
    now rewrite binary_round_small by (apply integer_bits; exact Hz).
Qed.

Local Close Scope Z_scope.

(** X18.  Recalling a history entry whose result is the text of an
    integer of magnitude below 1e15 restores exactly that integer as the
    answer held: the result text is parsed back to the number it was
    formatted from.  The expression is emptied, the result and the
    expression line show the entry, and the panel is toggled. *)
Theorem recallHistory_restores (i : nat) (s : state) (item : entry) (z : Z)
  (Hi : nth_error (history s) i = Some item)
  (Hr : e_result item = formatResult (num_of_Z z))
  (Hz : (Z.abs z < 10 ^ 15)%Z) :
  lastAnswer (recallHistory i s) = Some (num_of_Z z) /\
  expression (recallHistory i s) = [] /\
  resultEl (recallHistory i s) = e_result item /\
  resultError (recallHistory i s) = false /\
  exprEl (recallHistory i s) = formatExpression (e_expr item) ++ u " =" /\
  historyOpen (recallHistory i s) = negb (historyOpen s).
Proof.
  unfold recallHistory. rewrite Hi, Hr.
  rewrite (parse_formatted_integer z Hz).
  rewrite (num_of_Z_integer_not_NaN z Hz). cbn [negb].
  repeat split.
Qed.

Lemma recallHistory_restores_witness :
  (nth_error
     (history (addHistory (u "-7*6") (u "-42") (u "10:00:00 AM") initial)) 0
   = Some {| e_expr := u "-7*6"; e_result := u "-42";
             e_time := u "10:00:00 AM" |}) /\
  (lastAnswer (recallHistory 0
                 (addHistory (u "-7*6") (u "-42") (u "10:00:00 AM") initial))
   = Some (num_of_Z (-42))).
Proof.
  split; [reflexivity|].
  exact (proj1 (recallHistory_restores 0
                  (addHistory (u "-7*6") (u "-42") (u "10:00:00 AM") initial)
                  {| e_expr := u "-7*6"; e_result := u "-42";
                     e_time := u "10:00:00 AM" |}
                  (-42) eq_refl eq_refl eq_refl)).
Defined.

(** ** The text of an integer answer *)

Lemma fold_zeros (j : nat) (acc : N) :
  fold_left (fun a c => (10 * a + (c - 48))%N) (zeros j) acc
  = (acc * 10 ^ N.of_nat j)%N.
Proof.
  revert acc. induction j as [|j IH]; intros acc.
  - cbn. lia.
  - change (zeros (S j)) with (48%N :: zeros j). cbn [fold_left].
    rewrite IH, Nat2N.inj_succ, N.pow_succ_r'. lia.
Qed.

Lemma value_of_digits_zeros (ds : jsstring) (j : nat) :
  value_of_digits (ds ++ zeros j) = (value_of_digits ds * 10 ^ N.of_nat j)%N.
Proof.
  unfold value_of_digits. rewrite fold_left_app. apply fold_zeros.
Qed.

Local Open Scope Z_scope.

Lemma Number_toString_small (s : bool) (p : positive) :
  Z.pos p < 10 ^ 15 ->
  Number_toString (small_double s p) =
  (if s then u "-" else []) ++ digits_of_N (N.pos p).
Proof.
  intros Hp.
  destruct (shortest_decimal_integer p Hp s)
    as (c & j & Hsd & Hc & Hj & Hcj & Hlen).
  set (L := Z.of_nat (length (digits_of_N (N.pos p)))) in *.
  assert (HL : 1 <= L <= 15).
  { pose proof (digits_of_N_length (N.pos p) ltac:(discriminate)) as [Hlo Hhi].
    fold L in Hlo, Hhi. change (Z.of_N (N.pos p)) with (Z.pos p) in Hlo, Hhi.
    split.
    - destruct (digits_of_N_spec (N.pos p)) as (_ & _ & d & r & Hs & _).
      unfold L. rewrite Hs. cbn [length]. lia.
    - destruct (Z_le_gt_dec L 15) as [H|H]; [exact H|exfalso].
      pose proof (Z.pow_le_mono_r 10 15 (L - 1) ltac:(lia) ltac:(lia)). lia. }
  unfold small_double at 1. cbn [Number_toString]. fold (small_double s p).
  rewrite Hsd. f_equal.
  unfold format_shortest. rewrite Hlen.
  replace (L - 1 + 1) with L by lia.
  replace ((L - j <=? L) && (L <=? 21)) with true
    by (symmetry; apply andb_true_iff; split; apply Z.leb_le; lia).
  replace (L - (L - j)) with j by lia.
  (* the digits of [c] followed by [j] zeros are the digits of [p] *)
  destruct (digits_of_N_spec (Z.to_N (Z.abs c)))
    as (Hval & Hall & d & r & Hshape & _ & Hd0).
  fold (digits_of_Z c) in Hval, Hall, Hshape.
  assert (Hdig : forallb is_digit (digits_of_Z c ++ zeros (Z.to_nat j)) = true).
  { rewrite forallb_app, Hall. cbn [andb].
    unfold zeros. apply forallb_forall. intros x Hx.
    apply repeat_spec in Hx. now subst x. }
  rewrite <- (digits_of_N_value _ Hdig).
  - rewrite value_of_digits_zeros, Hval. f_equal.
    apply N2Z.inj.
    rewrite N2Z.inj_mul, N2Z.inj_pow, Z2N.id, nat_N_Z, Z2Nat.id by lia.
    replace (Z.abs c) with c by lia. exact Hcj.
  - rewrite Hshape. cbn [app has_leading_zero].
    destruct (r ++ zeros (Z.to_nat j)); [reflexivity|].
    apply N.eqb_neq, Hd0. lia.
  - rewrite Hshape. discriminate.
Qed.

Lemma Number_toString_integer (z : Z) :
  Z.abs z < 10 ^ 15 ->
  Number_toString (num_of_Z z) =
  (if z <? 0 then u "-" else []) ++ digits_of_Z z.
Proof.
  intros Hz. destruct z as [|p|p]; [reflexivity| |].
  - change (num_of_Z (Z.pos p)) with (binary_round prec emax false p 0).
    rewrite binary_round_small by (apply integer_bits; exact Hz).
    now apply Number_toString_small.
  - change (num_of_Z (Z.neg p)) with (binary_round prec emax true p 0).
    rewrite binary_round_small by (apply integer_bits; exact Hz).
    now apply Number_toString_small.
Qed.

Local Close Scope Z_scope.

(** X19.  An operator pressed after a calculation whose answer is an
    integer of magnitude below 1e15 starts the next expression with the
    decimal digits of that answer (after [-] for a negative one),
    followed by the operator, and the answer is no longer held. *)
Theorem chain_from_integer_answer (s : state) (z : Z) (o : operator)
  (He : expression s = [])
  (Ha : lastAnswer s = Some (num_of_Z z))
  (Hz : (Z.abs z < 10 ^ 15)%Z) :
  expression (inputOp (operator_text o) s) =
    (if (z <? 0)%Z then u "-" else []) ++ digits_of_Z z ++ operator_text o /\
  lastAnswer (inputOp (operator_text o) s) = None.
Proof.
  destruct (digits_of_Z_digits z) as [Hd Hne].
  assert (Hseed : seed s = (if (z <? 0)%Z then u "-" else []) ++ digits_of_Z z).
  { unfold seed, answer_to_chain. rewrite He, Ha. cbn [is_empty].
    now apply Number_toString_integer. }
  assert (Hstrip : strip_operator (seed s) = seed s).
  { unfold strip_operator. rewrite isOperator_slice_last, Hseed.
    rewrite ends_op_app by exact Hne.
    rewrite (op_free_ends _ (digits_op_free _ Hd)).
    now rewrite andb_false_r. }
  assert (Hrej : rejected (operator_text o) (strip_operator (seed s)) = false).
  { rewrite Hstrip, Hseed. unfold rejected.
    destruct (digits_of_Z z); [contradiction|].
    now destruct (z <? 0)%Z. }
  rewrite inputOp_expression, inputOp_lastAnswer. cbv zeta.
  rewrite Hrej, Hstrip, Hseed. split; [now rewrite app_assoc|reflexivity].
Qed.

Lemma chain_from_integer_answer_witness :
  expression (set_lastAnswer (Some (num_of_Z (-42))) initial) = [] /\
  expression (inputOp (operator_text OpPlus)
                (set_lastAnswer (Some (num_of_Z (-42))) initial)) = u "-42+".
Proof.
  split; [reflexivity|].
  exact (proj1 (chain_from_integer_answer
                  (set_lastAnswer (Some (num_of_Z (-42))) initial) (-42) OpPlus
                  eq_refl eq_refl eq_refl)).
Defined.

(** ** The code units of the text of a number *)



Lemma forallb_firstn (A : Type) (f : A -> bool) (n : nat) (l : list A) :
  forallb f l = true -> forallb f (firstn n l) = true.
Proof.
  intros H. rewrite <- (firstn_skipn n l), forallb_app in H.
  now apply andb_true_iff in H as [H _].
Qed.

Lemma forallb_skipn (A : Type) (f : A -> bool) (n : nat) (l : list A) :
  forallb f l = true -> forallb f (skipn n l) = true.
Proof.
  intros H. rewrite <- (firstn_skipn n l), forallb_app in H.
  now apply andb_true_iff in H as [_ H].
Qed.




(** ** Parentheses along the events *)






















(** ** Parentheses in the text that is evaluated *)











(** ** Points along the events *)

Lemma points_from_app (b : bool) (s t : jsstring) :
  points_from b (s ++ t) =
  match points_from b s with
  | Some b' => points_from b' t
  | None => None
  end.
Proof.
  revert b. induction s as [|c s IH]; intros b; [reflexivity|].
  cbn [app points_from]. destruct (is_segment_sep c); [apply IH|].
  destruct (N.eqb c 46); [|apply IH]. destruct b; [reflexivity|apply IH].
Qed.

(** The check follows the segment that [inputNum] looks at. *)
Lemma points_from_last_segment (acc s : jsstring) (b b' : bool) :
  includes_char 46 acc = b -> points_from b s = Some b' ->
  includes_char 46 (last_segment_from acc s) = b'.
Proof.
  revert acc b. induction s as [|c s IH]; intros acc b Hacc H.
  - cbn [points_from last_segment_from] in *. injection H as <-. exact Hacc.
  - cbn [points_from last_segment_from] in *.
    destruct (is_segment_sep c); [exact (IH [] false eq_refl H)|].
    destruct (N.eqb c 46) eqn:Hc.
    + destruct b; [discriminate|]. apply (IH _ true); [|exact H].
      rewrite includes_char_app, includes_char_cons, N.eqb_sym, Hc.
      apply orb_true_r.
    + apply (IH _ b); [|exact H].
      rewrite includes_char_app, includes_char_cons, N.eqb_sym, Hc, Hacc.
      now rewrite !orb_false_r.
Qed.

Lemma points_from_plain (b : bool) (t : jsstring) :
  includes_char 46 t = false -> exists b', points_from b t = Some b'.
Proof.
  revert b. induction t as [|c t IH]; intros b H; [now exists b|].
  rewrite includes_char_cons in H. apply orb_false_iff in H as [Hc H].
  cbn [points_from]. rewrite (N.eqb_sym c 46), Hc.
  destruct (is_segment_sep c); now apply IH.
Qed.

Lemma points_from_digits (b : bool) (ds : jsstring) :
  forallb is_digit ds = true -> points_from b ds = Some b.
Proof.
  induction ds as [|c ds IH]; intros H; [reflexivity|].
  cbn [forallb] in H. apply andb_true_iff in H as [Hc H].
  cbn [points_from].
  assert (Hsep : is_segment_sep c = false).
  { unfold is_segment_sep. cbn [u map list_ascii_of_string existsb].
    rewrite !(is_digit_not c _ Hc) by (left; reflexivity). reflexivity. }
  rewrite Hsep, (is_digit_not c 46 Hc) by (left; reflexivity).
  now apply IH.
Qed.

Lemma single_points_intro (s : jsstring) (b : bool) :
  points_from false s = Some b -> single_points s = true.
Proof. unfold single_points. now intros ->. Qed.

Lemma single_points_elim (s : jsstring) :
  single_points s = true -> exists b, points_from false s = Some b.
Proof.
  unfold single_points.
  destruct (points_from false s) as [b|]; [|discriminate].
  intros _. now exists b.
Qed.

Lemma single_points_prefix (a b : jsstring) :
  single_points (a ++ b) = true -> single_points a = true.
Proof.
  unfold single_points. rewrite points_from_app.
  now destruct (points_from false a).
Qed.

Lemma single_points_slice (k : nat) (e : jsstring) :
  single_points e = true -> single_points (slice_drop_last k e) = true.
Proof.
  intros H. unfold slice_drop_last.
  rewrite <- (firstn_skipn (length e - k) e) in H.
  now apply single_points_prefix in H.
Qed.

Lemma single_points_app_plain (e t : jsstring) :
  single_points e = true -> includes_char 46 t = false ->
  single_points (e ++ t) = true.
Proof.
  intros He Ht. apply single_points_elim in He as [b Hb].
  destruct (points_from_plain b t Ht) as [b' Hb'].
  apply (single_points_intro _ b'). now rewrite points_from_app, Hb.
Qed.

Lemma zeros_digits (n : nat) : forallb is_digit (zeros n) = true.
Proof. induction n; [reflexivity|exact IHn]. Qed.

Lemma points_from_point (t : jsstring) :
  points_from false (u "." ++ t) = points_from true t.
Proof. reflexivity. Qed.

Lemma format_shortest_points (ds : jsstring) (e : Z) :
  forallb is_digit ds = true ->
  exists b, points_from false (format_shortest ds e) = Some b.
Proof.
  intros Hd. unfold format_shortest. cbv zeta.
  destruct (_ && _)%bool.
  { exists false. apply points_from_digits.
    now rewrite forallb_app, Hd, zeros_digits. }
  destruct (_ && _)%bool.
  { exists true. rewrite points_from_app, points_from_digits
      by now apply forallb_firstn.
    rewrite (points_from_point (skipn _ ds)).
    apply points_from_digits. now apply forallb_skipn. }
  destruct (_ && _)%bool.
  { exists true.
    change (u "0." ++ zeros (Z.to_nat (- (e + 1))) ++ ds)
      with ([48%N] ++ u "." ++ zeros (Z.to_nat (- (e + 1))) ++ ds).
    rewrite points_from_app, (points_from_digits false [48%N] eq_refl).
    rewrite (points_from_point (zeros _ ++ ds)).
    apply points_from_digits. now rewrite forallb_app, zeros_digits. }
  exists false. unfold exponent_suffix. rewrite points_from_app.
  assert (Htail : forall b,
             points_from b
               (u "e" ++ (if (e <? 0)%Z then u "-" else u "+")
                ++ digits_of_Z e) = Some false).
  { intros b.
    destruct (e <? 0)%Z;
      change (points_from false (digits_of_Z e) = Some false);
      apply points_from_digits, digits_of_Z_digits. }
  destruct ds as [|d [|d' ds]].
  - apply Htail.
  - cbn [point_after_first]. rewrite (points_from_digits false [d] Hd).
    apply Htail.
  - cbn [point_after_first forallb] in *.
    apply andb_true_iff in Hd as [Hd Hds].
    change (d :: u "." ++ d' :: ds) with ([d] ++ [46%N] ++ d' :: ds).
    rewrite points_from_app, (points_from_digits false [d])
      by (cbn [forallb]; now rewrite Hd).
    change (points_from false ([46%N] ++ d' :: ds))
      with (points_from true (d' :: ds)).
    rewrite (points_from_digits true (d' :: ds) Hds). apply Htail.
Qed.

Lemma Number_toString_single_points (x : number) :
  single_points (Number_toString x) = true.
Proof.
  destruct x as [s|s| |s m e]; cbn [Number_toString]; try reflexivity.
  - now destruct s.
  - destruct (shortest_decimal (S754_finite s m e)) as [ds e'] eqn:Hsd.
    assert (Hd : forallb is_digit ds = true).
    { change ds with (fst (ds, e')). rewrite <- Hsd.
      apply shortest_digits_digits. }
    destruct (format_shortest_points ds e' Hd) as [b Hb].
    apply (single_points_intro _ b). now destruct s.
Qed.

Lemma toggleSign_single_points (E : Engine) (s : state) :
  single_points (expression s) = true ->
  single_points (expression (toggleSign E s)) = true.
Proof.
  intros H. unfold toggleSign. rewrite liveEvaluate_expression.
  cbn [expression updateDisplay set_exprEl].
  destruct (answer_to_chain s); [apply Number_toString_single_points|].
  destruct (starts_with (u "-") (expression s)) eqn:Hs.
  - cbn [expression set_expression].
    destruct (expression s) as [|c e]; [exact H|].
    change (u "-") with [45%N] in Hs. cbn [starts_with] in Hs.
    rewrite andb_true_r in Hs. apply N.eqb_eq in Hs. subst c.
    exact H.
  - destruct (negb (is_empty (expression s))); [|exact H].
    exact H.
Qed.

Lemma inputNum_single_points (E : Engine) (k : numkey) (s : state) :
  single_points (expression s) = true ->
  single_points (expression (inputNum E (numkey_text k) s)) = true.
Proof.
  intros H. unfold inputNum.
  destruct (str_eqb (numkey_text k) [177%N]);
    [now apply toggleSign_single_points|].
  destruct (str_eqb (numkey_text k) (u ".")
            && includes_char 46 (last_segment (expression s)))%bool eqn:Hdup;
    [exact H|].
  rewrite liveEvaluate_expression.
  cbn [expression updateDisplay set_exprEl set_expression].
  destruct k as [d| |].
  - assert (Hk : includes_char 46 (numkey_text (KDigit d)) = false)
      by now destruct d.
    destruct (has_answer s && _)%bool;
      cbn [expression set_lastAnswer set_expression].
    + now apply (single_points_app_plain []).
    + now apply single_points_app_plain.
  - destruct (has_answer s && _)%bool;
      cbn [expression set_lastAnswer set_expression]; [reflexivity|].
    cbn [numkey_text] in *.
    change (str_eqb (u ".") (u ".")) with true in Hdup.
    cbn [andb] in Hdup.
    apply single_points_elim in H as [b Hb].
    pose proof (points_from_last_segment [] _ false b eq_refl Hb) as Hseg.
    fold (last_segment (expression s)) in Hseg.
    rewrite Hdup in Hseg. subst b.
    apply (single_points_intro _ true). now rewrite points_from_app, Hb.
  - destruct (has_answer s && _)%bool;
      cbn [expression set_lastAnswer set_expression].
    + reflexivity.
    + now apply single_points_app_plain.
Qed.

Lemma inputOp_single_points (o : operator) (s : state) :
  single_points (expression s) = true ->
  single_points (expression (inputOp (operator_text o) s)) = true.
Proof.
  intros H. rewrite inputOp_expression. cbv zeta.
  assert (Hseed : single_points (seed s) = true).
  { unfold seed. destruct (answer_to_chain s);
      [apply Number_toString_single_points|exact H]. }
  assert (Hstrip : single_points (strip_operator (seed s)) = true).
  { unfold strip_operator. destruct (_ && _)%bool; [|exact Hseed].
    now apply single_points_slice. }
  destruct (rejected _ _); [exact Hstrip|].
  apply single_points_app_plain; [exact Hstrip|now destruct o].
Qed.

Lemma inputParenthesis_single_points (E : Engine) (s : state) :
  single_points (expression s) = true ->
  single_points (expression (inputParenthesis E s)) = true.
Proof.
  intros H. unfold inputParenthesis. rewrite liveEvaluate_expression.
  cbn [expression updateDisplay set_exprEl set_expression].
  destruct (_ || _)%bool; [now apply single_points_app_plain|].
  destruct (_ <? _)%nat; now apply single_points_app_plain.
Qed.

Lemma backspace_single_points (E : Engine) (s : state) :
  single_points (expression s) = true ->
  single_points (expression (backspace E s)) = true.
Proof.
  intros H. unfold backspace. destruct (_ =? _)%nat; [exact H|].
  rewrite liveEvaluate_expression.
  cbn [expression updateDisplay set_exprEl set_expression].
  destruct (match_function_suffix _); now apply single_points_slice.
Qed.

Lemma sciFunc_single_points (E : Engine) (f : sci) (s : state) :
  single_points (expression s) = true ->
  single_points (expression (sciFunc E (sci_name f) s)) = true.
Proof.
  intros H. unfold sciFunc. rewrite liveEvaluate_expression.
  cbn [expression updateDisplay set_exprEl set_expression].
  assert (Hs : single_points
                 (expression
                    match answer_to_chain s with
                    | Some a =>
                        set_lastAnswer None
                          (set_expression (Number_toString a) s)
                    | None => s
                    end) = true).
  { destruct (answer_to_chain s);
      [apply Number_toString_single_points|exact H]. }
  clear H. set (e := expression _) in *. clearbody e.
  assert (Htimes : single_points (with_implicit_times e) = true).
  { unfold with_implicit_times. destruct (_ && _)%bool; [|exact Hs].
    now apply single_points_app_plain. }
  destruct f as [[]| | | | |]; cbn [sci_name fname_text];
    cbv beta iota delta [str_eqb u map list_ascii_of_string code N_of_ascii
                         N.eqb Pos.eqb andb N_of_digits N.add N.mul
                         Pos.add Pos.mul Pos.succ];
    try (now apply single_points_app_plain).
  - destruct (is_empty e); cbn [negb]; [exact Hs|].
    change (single_points (e ++ [41%N; 94%N; 50%N]) = true).
    now apply single_points_app_plain.
  - destruct (is_empty e); cbn [negb]; [exact Hs|].
    now apply single_points_app_plain.
  - destruct (is_empty e); cbn [negb]; [exact Hs|].
    change (single_points (e ++ [41%N]) = true).
    now apply single_points_app_plain.
Qed.

Lemma step_single_points (E : Engine) (a : action) (s : state) :
  single_points (expression s) = true ->
  single_points (expression (step E a s)) = true.
Proof.
  intros H. destruct a; cbn [step].
  - now apply inputNum_single_points.
  - now apply inputOp_single_points.
  - now apply inputParenthesis_single_points.
  - now apply backspace_single_points.
  - reflexivity.
  - now apply toggleSign_single_points.
  - now apply sciFunc_single_points.
  - now rewrite calculate_expression.
  - destruct (recallHistory_expression index s) as [-> | ->];
      [exact H|reflexivity].
  - exact H.
  - exact H.
Qed.

Lemma run_single_points (E : Engine) (acts : list action) (s : state) :
  single_points (expression s) = true ->
  single_points (expression (run E acts s)) = true.
Proof.
  revert s. induction acts as [|a acts IH]; intros s H; [exact H|].
  cbn [run fold_left]. apply IH. now apply step_single_points.
Qed.

Lemma points_from_segment (b b' : bool) (seg : jsstring) :
  forallb (fun c => negb (is_segment_sep c)) seg = true ->
  points_from b seg = Some b' ->
  (count_char 46 seg + (if b then 1 else 0) = if b' then 1 else 0)%nat.
Proof.
  revert b. induction seg as [|c seg IH]; intros b Hseg H.
  - cbn [points_from] in H. injection H as <-. reflexivity.
  - cbn [forallb] in Hseg. apply andb_true_iff in Hseg as [Hc Hseg].
    apply negb_true_iff in Hc. cbn [points_from] in H. rewrite Hc in H.
    unfold count_char in *. cbn [filter]. rewrite (N.eqb_sym 46 c).
    destruct (N.eqb c 46).
    + destruct b; [discriminate|]. cbn [length].
      specialize (IH true Hseg H). destruct b'; lia.
    + exact (IH b Hseg H).
Qed.

(** X21.  Whatever events the calculator has handled since it was
    loaded, a part of its expression that holds no operator and no
    parenthesis (a number segment, or a part of one) has at most one
    decimal point. *)
Theorem one_point_per_segment (E : Engine) (acts : list action)
    (a seg b : jsstring) :
  expression (run E acts initial) = a ++ seg ++ b ->
  forallb (fun c => negb (is_segment_sep c)) seg = true ->
  (count_char 46 seg <= 1)%nat.
Proof.
  intros He Hseg.
  pose proof (run_single_points E acts initial eq_refl) as H.
  rewrite He, app_assoc in H. apply single_points_prefix in H.
  apply single_points_elim in H as [b1 H1].
  rewrite points_from_app in H1.
  destruct (points_from false a) as [b0|]; [|discriminate].
  pose proof (points_from_segment b0 b1 seg Hseg H1) as Hc.
  destruct b1; lia.
Qed.

Lemma one_point_per_segment_witness :
  expression
    (run sample_engine
       [InputNum (KDigit D2); InputOp OpPlus; InputNum (KDigit D1);
        InputNum KDot; InputNum KDot; InputNum (KDigit D5)] initial)
  = u "2+" ++ u "1.5" ++ [] /\
  (count_char 46 (u "1.5") <= 1)%nat.
Proof.
  assert (He : expression
    (run sample_engine
       [InputNum (KDigit D2); InputOp OpPlus; InputNum (KDigit D1);
        InputNum KDot; InputNum KDot; InputNum (KDigit D5)] initial)
  = u "2+" ++ u "1.5" ++ []) by (vm_compute; reflexivity).
  split; [exact He|].
  exact (one_point_per_segment sample_engine _ (u "2+") (u "1.5") [] He
           eq_refl).
Defined.
